(** * huey/api.py: the dispatcher, result handles and the cron matcher

    A shallow embedding of [src/huey/api.py].  Python objects that the
    dispatcher mutates in place (tasks, result handles) are passed by value
    and returned updated; the broker, the signal bus, the logger and the
    system clocks are one explicit [World] threaded through a small
    state-and-exception monad. *)

From stdpp Require Import base strings list gmap sorting.
From Stdlib Require Import Ascii ZArith QArith Lia.

Local Set Warnings "-register-all".
Local Open Scope string_scope.
Local Open Scope list_scope.
Local Open Scope Z_scope.

(** ** Python values *)

(** The exceptions the module raises, catches or lets through.  Everything
    but [KeyboardInterrupt] and [BaseException_] derives from [Exception]. *)
Inductive exception : Type :=
| TaskLockedException (msg : string)
| RetryTask (msg : string)
| CancelExecution
| KeyboardInterrupt
| TaskException (error : string) (retries : Z) (traceback : string)
| NameError (name : string)
| TypeError (msg : string)
| ValueError (msg : string)
| NotImplementedError
| Exception_ (cls : string) (msg : string)
| BaseException_ (cls : string) (msg : string).

(** [isinstance(e, Exception)]. *)
Definition is_Exception (e : exception) : bool :=
  match e with
  | KeyboardInterrupt | BaseException_ _ _ => false
  | _ => true
  end.

Definition repr (e : exception) : string :=
  match e with
  | TaskLockedException m => "TaskLockedException('" +:+ m +:+ "')"
  | RetryTask m => "RetryTask('" +:+ m +:+ "')"
  | CancelExecution => "CancelExecution()"
  | KeyboardInterrupt => "KeyboardInterrupt()"
  | TaskException e _ _ => "TaskException(" +:+ e +:+ ")"
  | NameError n => "NameError('name " +:+ n +:+ " is not defined')"
  | TypeError m => "TypeError('" +:+ m +:+ "')"
  | ValueError m => "ValueError('" +:+ m +:+ "')"
  | NotImplementedError => "NotImplementedError()"
  | Exception_ c m => c +:+ "('" +:+ m +:+ "')"
  | BaseException_ c m => c +:+ "('" +:+ m +:+ "')"
  end.

(** The values that travel through task arguments, return values and the
    key/value store.  [VError] is an instance of [huey.utils.Error] with its
    metadata dict [{'error', 'retries', 'traceback'}]; [VDatetime] is a
    [datetime] as a number of clock ticks. *)
Inductive pyval : Type :=
| VNone
| VBool (b : bool)
| VInt (z : Z)
| VStr (s : string)
| VDatetime (z : Z)
| VTuple (l : list pyval)
| VDict (d : list (string * pyval))
| VExc (e : exception)
| VError (error : string) (retries : Z) (traceback : string).

(** Truth value of an object in a condition. *)
Definition truthy (v : pyval) : bool :=
  match v with
  | VNone => false
  | VBool b => b
  | VInt z => negb (z =? 0)
  | VStr s => negb (String.eqb s "")
  | VDatetime _ => true
  | VTuple l => match l with [] => false | _ => true end
  | VDict d => match d with [] => false | _ => true end
  | VExc _ => true
  | VError _ _ _ => true
  end.

Definition is_None (v : pyval) : bool :=
  match v with VNone => true | _ => false end.

(** ** Tasks *)

Inductive outcome : Type :=
| Returns (v : pyval)
| Raises (e : exception) (traceback : string).

(** A task class as [TaskWrapper.create_task] builds it: the class name,
    whether its base is [PeriodicTask], and the wrapped user function applied
    to the positional and keyword arguments (the [context] flag is left at
    its default). *)
Record TaskClass : Type := mkTaskClass {
  cls_name : string;
  cls_periodic : bool;
  cls_func : list pyval -> list (string * pyval) -> outcome
}.

Inductive Task : Type := mkTask {
  task_class : TaskClass;
  id : string;
  args : list pyval;
  kwargs : list (string * pyval);
  eta : option Z;
  retries : Z;
  retry_delay : Z;
  on_complete : option Task;
  on_error : option Task
}.

Definition name (t : Task) : string := cls_name (task_class t).
Definition revoke_id (t : Task) : string := "r:" +:+ id t.
Definition isinstance_PeriodicTask (t : Task) : bool := cls_periodic (task_class t).

(** [Task.execute] of the base class raises [NotImplementedError]. *)
Definition Task_base : TaskClass :=
  mkTaskClass "Task" false (fun _ _ => Raises NotImplementedError "").

(** [Task(id=id)]: every other constructor argument at its default. *)
Definition Task_of_id (i : string) : Task :=
  mkTask Task_base i [] [] None 0 0 None None.

Definition set_args (t : Task) (a : list pyval) : Task :=
  mkTask (task_class t) (id t) a (kwargs t) (eta t) (retries t)
         (retry_delay t) (on_complete t) (on_error t).
Definition set_kwargs (t : Task) (k : list (string * pyval)) : Task :=
  mkTask (task_class t) (id t) (args t) k (eta t) (retries t)
         (retry_delay t) (on_complete t) (on_error t).
Definition set_eta (t : Task) (e : option Z) : Task :=
  mkTask (task_class t) (id t) (args t) (kwargs t) e (retries t)
         (retry_delay t) (on_complete t) (on_error t).
Definition set_retries (t : Task) (r : Z) : Task :=
  mkTask (task_class t) (id t) (args t) (kwargs t) (eta t) r
         (retry_delay t) (on_complete t) (on_error t).
Definition set_on_complete (t : Task) (n : option Task) : Task :=
  mkTask (task_class t) (id t) (args t) (kwargs t) (eta t) (retries t)
         (retry_delay t) n (on_error t).
Definition set_on_error (t : Task) (n : option Task) : Task :=
  mkTask (task_class t) (id t) (args t) (kwargs t) (eta t) (retries t)
         (retry_delay t) (on_complete t) n.

(** [dict.setdefault(key, value)] on an insertion-ordered dict. *)
Fixpoint setdefault (d : list (string * pyval)) (k : string) (v : pyval)
  : list (string * pyval) :=
  match d with
  | [] => [(k, v)]
  | (k', v') :: d' =>
      if String.eqb k' k then d else (k', v') :: setdefault d' k v
  end.

(** [Task.extend_data]. *)
Definition extend_data (t : Task) (data : pyval) : Task :=
  match data with
  | VNone => t
  | VTuple [] => t
  | VTuple l => set_args t (args t ++ l)
  | VDict d =>
      set_kwargs t (fold_left (fun kw kv => setdefault kw (fst kv) (snd kv))
                              d (kwargs t))
  | _ => set_args t (args t ++ [data])
  end.

(** ** The broker *)

(** Modelled from the spec: the Serializer ([huey.serializer]) and the
    Registry's message codec ([huey.registry]) are not part of this file;
    section 3 of the spec gives them the round-trip law
    [deserialize(serialize(x)) = x], so a serialized payload is the value in
    a wrapper. *)
Inductive pickled (A : Type) : Type := Pickle (a : A).
Arguments Pickle {A} a.

Definition serialize {A} (a : A) : pickled A := Pickle a.
Definition deserialize {A} (p : pickled A) : A := match p with Pickle a => a end.

(** Modelled from the spec: the Storage Interface (section 4.1,
    [huey.storage]): a FIFO queue, a schedule read in ETA order, and a
    key/value store whose reads answer [EmptyData] ([None] here) for an
    absent key. *)
Record Storage : Type := mkStorage {
  queue : list (pickled Task);
  schedule : list (Z * pickled Task);
  data : gmap string (pickled pyval)
}.

Definition storage_enqueue (d : pickled Task) (st : Storage) : Storage :=
  mkStorage (queue st ++ [d]) (schedule st) (data st).

Definition storage_dequeue (st : Storage) : option (pickled Task) * Storage :=
  match queue st with
  | [] => (None, st)
  | d :: q => (Some d, mkStorage q (schedule st) (data st))
  end.

Fixpoint schedule_insert (e : Z) (d : pickled Task) (l : list (Z * pickled Task))
  : list (Z * pickled Task) :=
  match l with
  | [] => [(e, d)]
  | (e', d') :: l' =>
      if e <? e' then (e, d) :: l else (e', d') :: schedule_insert e d l'
  end.

Definition storage_add_to_schedule (d : pickled Task) (e : Z) (st : Storage) : Storage :=
  mkStorage (queue st) (schedule_insert e d (schedule st)) (data st).

Definition storage_read_schedule (now : Z) (st : Storage)
  : list (pickled Task) * Storage :=
  (map snd (filter (fun x => fst x <= now) (schedule st)),
   mkStorage (queue st) (filter (fun x => ~ fst x <= now) (schedule st)) (data st)).

Definition storage_put_data (k : string) (v : pickled pyval) (st : Storage) : Storage :=
  mkStorage (queue st) (schedule st) (<[k := v]> (data st)).

Definition storage_peek_data (k : string) (st : Storage) : option (pickled pyval) :=
  data st !! k.

Definition storage_pop_data (k : string) (st : Storage)
  : option (pickled pyval) * Storage :=
  (data st !! k, mkStorage (queue st) (schedule st) (delete k (data st))).

Definition storage_put_if_empty (k : string) (v : pickled pyval) (st : Storage)
  : bool * Storage :=
  match data st !! k with
  | Some _ => (false, st)
  | None => (true, storage_put_data k v st)
  end.

(** ** The world and the dispatcher monad *)

Inductive signal : Type :=
| SIGNAL_CANCELED | SIGNAL_COMPLETE | SIGNAL_ERROR | SIGNAL_EXECUTING
| SIGNAL_LOCKED | SIGNAL_RETRYING | SIGNAL_REVOKED | SIGNAL_SCHEDULED
| SIGNAL_ENQUEUED.

Inductive level : Type := DEBUG | INFO | WARNING | EXCEPTION.

(** What the dispatcher does to its collaborators, in order: signals sent
    on the bus (with the task as it is at that moment), log records (format
    string and task), calls of the user function, hook calls, and sleeps. *)
Inductive Event : Type :=
| Signal (s : signal) (t : Task) (extra : option exception)
| Log (l : level) (fmt : string) (t : Task)
| Call (t : Task)
| PreHook (hook : string) (t : Task)
| PostHook (hook : string) (t : Task) (value : pyval) (exc : option exception)
| Sleep (d : Q).

(** [clock] is what [datetime.now()]/[utcnow()] reads, [time_time] what
    [time.time()] reads. *)
Record World : Type := mkWorld {
  storage : Storage;
  trace : list Event;
  clock : Z;
  time_time : Q
}.

Definition set_storage (w : World) (st : Storage) : World :=
  mkWorld st (trace w) (clock w) (time_time w).

(** A call returns, raises, or (for the recursion of immediate mode and for
    polling loops, which are given fuel) is cut off. *)
Inductive result (A : Type) : Type :=
| Ok (a : A)
| Raise (e : exception)
| Diverge.
Arguments Ok {A} a.
Arguments Raise {A} e.
Arguments Diverge {A}.

Definition M (A : Type) : Type := World -> result A * World.

Definition ret {A} (a : A) : M A := fun w => (Ok a, w).
Definition raise {A} (e : exception) : M A := fun w => (Raise e, w).
Definition diverge {A} : M A := fun w => (Diverge, w).
Definition bind {A B} (m : M A) (k : A -> M B) : M B :=
  fun w =>
    match m w with
    | (Ok a, w') => k a w'
    | (Raise e, w') => (Raise e, w')
    | (Diverge, w') => (Diverge, w')
    end.

Notation "'do' x <- m ; k" := (bind m (fun x => k))
  (at level 10, x name, m at level 100, k at level 200).
Notation "'do' ' p <- m ; k" := (bind m (fun x => match x with p => k end))
  (at level 10, p pattern, m at level 100, k at level 200).

Definition emit_event (e : Event) : M unit :=
  fun w => (Ok tt, mkWorld (storage w) (trace w ++ [e]) (clock w) (time_time w)).

Definition with_storage {A} (f : Storage -> A * Storage) : M A :=
  fun w => let '(a, st) := f (storage w) in (Ok a, set_storage w st).

Definition logger (l : level) (fmt : string) (t : Task) : M unit :=
  emit_event (Log l fmt t).

(** ** Huey *)

Record Huey : Type := mkHuey {
  huey_name : string;
  results : bool;
  store_none : bool;
  immediate : bool;
  _pre_execute : list (string * (Task -> option exception));
  _post_execute : list (string * (Task -> pyval -> option exception -> option exception))
}.

(** [Huey._emit]: receiver failures are logged and swallowed. *)
Definition _emit (s : signal) (t : Task) (extra : option exception) : M unit :=
  emit_event (Signal s t extra).

Definition serialize_task (t : Task) : pickled Task := serialize t.
Definition deserialize_task (d : pickled Task) : Task := deserialize d.

Definition put (key : string) (v : pyval) : M unit :=
  with_storage (fun st => (tt, storage_put_data key (serialize v) st)).

Definition put_if_empty (key : string) (v : pyval) : M bool :=
  with_storage (storage_put_if_empty key (serialize v)).

Definition get_raw (key : string) (peek : bool) : M (option (pickled pyval)) :=
  if peek then with_storage (fun st => (storage_peek_data key st, st))
  else with_storage (storage_pop_data key).

Definition get (key : string) (peek : bool) : M pyval :=
  do d <- get_raw key peek;
  match d with
  | Some d => ret (deserialize d)
  | None => ret VNone
  end.

Definition _get_timestamp : M Z := fun w => (Ok (clock w), w).

(** Modelled from the spec: [Registry.task_to_string] ([huey.registry]); the
    spec keys the per-class record by ["rt:" + class name]. *)
Definition task_to_string (c : TaskClass) : string := cls_name c.

Definition _task_key (c : TaskClass) (key : string) : string :=
  key +:+ ":" +:+ task_to_string c.

Definition opt_datetime (d : option Z) : pyval :=
  match d with Some z => VDatetime z | None => VNone end.

Definition revoke_all (c : TaskClass) (revoke_until : option Z) (revoke_once : bool)
  : M unit :=
  put (_task_key c "rt") (VTuple [opt_datetime revoke_until; VBool revoke_once]).

Definition restore_all (c : TaskClass) : M bool :=
  do d <- get_raw (_task_key c "rt") false;
  ret (match d with Some _ => true | None => false end).

Definition revoke (t : Task) (revoke_until : option Z) (revoke_once : bool) : M unit :=
  put (revoke_id t) (VTuple [opt_datetime revoke_until; VBool revoke_once]).

Definition restore (t : Task) : M bool :=
  do d <- get_raw (revoke_id t) false;
  ret (match d with Some _ => true | None => false end).

Definition revoke_by_id (i : string) (revoke_until : option Z) (revoke_once : bool)
  : M unit :=
  revoke (Task_of_id i) revoke_until revoke_once.

Definition restore_by_id (i : string) : M bool := restore (Task_of_id i).

(** Iteration over a stored object, as tuple unpacking performs it. *)
Definition iterate (v : pyval) : option (list pyval) :=
  match v with
  | VTuple l => Some l
  | VStr s => Some (map (fun c => VStr (String c EmptyString)) (String.list_ascii_of_string s))
  | VDict d => Some (map (fun kv => VStr (fst kv)) d)
  | _ => None
  end.

(** [a, b = v]. *)
Definition unpack2 (v : pyval) : M (pyval * pyval) :=
  match iterate v with
  | Some [a; b] => ret (a, b)
  | Some _ => raise (ValueError "wrong number of values to unpack")
  | None => raise (TypeError "cannot unpack non-iterable object")
  end.

(** [a <= timestamp] where [a] is stored and [timestamp] may be [None]: only
    two datetimes compare. *)
Definition datetime_le (a : pyval) (timestamp : option Z) : M bool :=
  match a, timestamp with
  | VDatetime x, Some y => ret (x <=? y)
  | _, _ => raise (TypeError "'<=' not supported between these instances")
  end.

(** [Huey._check_revoked]. *)
Definition _check_revoked (revoke_id : string) (timestamp : option Z) (peek : bool)
  : M (bool * bool) :=
  do res <- get revoke_id true;
  if is_None res then ret (false, false)
  else
    do '(revoke_until, revoke_once) <- unpack2 res;
    if truthy revoke_once then ret (true, negb peek)
    else
      do expired <- (if is_None revoke_until then ret false
                     else datetime_le revoke_until timestamp);
      if expired then ret (false, negb peek)
      else ret (true, false).

(** What [is_revoked] may be given: a task class, a task, or a task id. *)
Inductive revocable : Type :=
| OfClass (c : TaskClass)
| OfTask (t : Task)
| OfId (i : string).

Definition is_revoked_class (c : TaskClass) (timestamp : option Z) (peek : bool)
  : M bool :=
  do '(is_revoked, can_restore) <- _check_revoked (_task_key c "rt") timestamp peek;
  do _ <- (if can_restore then restore_all c else ret false);
  ret is_revoked.

Definition is_revoked_task (task : Task) (timestamp : option Z) (peek : bool)
  : M bool :=
  do '(is_revoked, can_restore) <- _check_revoked (revoke_id task) timestamp peek;
  do _ <- (if can_restore then restore task else ret false);
  if negb is_revoked then is_revoked_class (task_class task) timestamp peek
  else ret is_revoked.

(** [Huey.is_revoked]: the class branch, the task branch, and the task-id
    branch, which wraps the id in [Task(id=task)]. *)
Definition is_revoked (task : revocable) (timestamp : option Z) (peek : bool)
  : M bool :=
  match task with
  | OfClass c => is_revoked_class c timestamp peek
  | OfTask t => is_revoked_task t timestamp peek
  | OfId i => is_revoked_task (Task_of_id i) timestamp peek
  end.

(** ** The dispatcher: schedule, hooks, execution, retry *)

(** [try: m  except <classes selected by handler>: ...]. *)
Definition try_except {A} (m : M A) (handler : exception -> option (M A)) : M A :=
  fun w =>
    match m w with
    | (Raise e, w') =>
        match handler e with
        | Some k => k w'
        | None => (Raise e, w')
        end
    | r => r
    end.

(** [Huey.ready_to_run] with the timestamp given. *)
Definition ready_to_run (task : Task) (timestamp : Z) : bool :=
  match eta task with
  | None => true
  | Some e => e <=? timestamp
  end.

(** [Huey.add_schedule]; [datetime.fromtimestamp(0)] is tick [0]. *)
Definition add_schedule (task : Task) : M unit :=
  let d := serialize_task task in
  let e := match eta task with Some e => e | None => 0 end in
  do _ <- with_storage (fun st => (tt, storage_add_to_schedule d e st));
  do _ <- logger INFO "Added task %s to schedule, eta %s" task;
  _emit SIGNAL_SCHEDULED task None.

(** [Huey._run_pre_execute]. *)
Fixpoint _run_pre_execute (hooks : list (string * (Task -> option exception)))
    (task : Task) : M unit :=
  match hooks with
  | [] => ret tt
  | (name, callback) :: rest =>
      do _ <- logger DEBUG "Pre-execute hook %s for %s." task;
      do _ <- emit_event (PreHook name task);
      match callback task with
      | None => _run_pre_execute rest task
      | Some CancelExecution =>
          do _ <- logger WARNING "Task %s cancelled by %s." task;
          raise CancelExecution
      | Some e =>
          if is_Exception e then
            do _ <- logger EXCEPTION
                      "Unhandled exception calling pre-execute hook %s for %s." task;
            _run_pre_execute rest task
          else raise e
      end
  end.

(** [Huey._run_post_execute]. *)
Fixpoint _run_post_execute
    (hooks : list (string * (Task -> pyval -> option exception -> option exception)))
    (task : Task) (task_value : pyval) (exc : option exception) : M unit :=
  match hooks with
  | [] => ret tt
  | (name, callback) :: rest =>
      do _ <- logger DEBUG "Post-execute hook %s for %s." task;
      do _ <- emit_event (PostHook name task task_value exc);
      match callback task task_value exc with
      | None => _run_post_execute rest task task_value exc
      | Some e =>
          if is_Exception e then
            do _ <- logger EXCEPTION
                      "Unhandled exception calling post-execute hook %s for %s." task;
            _run_post_execute rest task task_value exc
          else raise e
      end
  end.

(** Result handles ([Result.__init__]): [_result] starts as [EmptyData]. *)
Record Result : Type := mkResult {
  result_task : Task;
  _result : option pyval
}.

Definition Result_init (task : Task) : Result := mkResult task None.

(** What [enqueue] hands back: nothing, a [Result], or a [ResultGroup]. *)
Inductive handle : Type :=
| NoHandle
| OneResult (r : Result)
| ResultGroup (rs : list Result).

(** The [while current is not None] walk along [on_complete]. *)
Fixpoint chain_results (task : Task) : list Result :=
  match task with
  | mkTask _ _ _ _ _ _ _ oc _ =>
      Result_init task ::
      match oc with
      | Some next => chain_results next
      | None => []
      end
  end.

Definition result_handle (h : Huey) (task : Task) : handle :=
  if negb (results h) then NoHandle
  else match on_complete task with
       | Some _ => ResultGroup (chain_results task)
       | None => OneResult (Result_init task)
       end.

Section Dispatch.
(** [self.enqueue], which in immediate mode calls back into [execute]. *)
Variable enqueue : Task -> M (Task * handle).
Variable h : Huey.

(** [Huey._requeue_task]. *)
Definition _requeue_task (task : Task) (timestamp : Z) : M Task :=
  let task := set_retries task (retries task - 1) in
  do _ <- logger INFO "Requeueing %s, %s retries" task;
  if negb (retry_delay task =? 0) then
    let task := set_eta task (Some (timestamp + retry_delay task)) in
    do _ <- add_schedule task;
    ret task
  else
    do '(task, _) <- enqueue task;
    ret task.

(** [Huey._execute] from the result-store step on: [exc] is the recorded
    exception with its formatted traceback. *)
Definition _execute_record (task : Task) (task_value : pyval)
    (exc : option (exception * string)) : M unit :=
  if results h && negb (isinstance_PeriodicTask task) then
    match exc with
    | Some (e, tb) => put (id task) (VError (repr e) (retries task) tb)
    | None =>
        if negb (is_None task_value) || store_none h
        then put (id task) task_value
        else ret tt
    end
  else ret tt.

Definition _execute_chain (task : Task) (task_value : pyval)
    (exc : option (exception * string)) : M Task :=
  match on_complete task, exc, on_error task with
  | Some next_task, None, _ =>
      let next_task := extend_data next_task task_value in
      do '(next_task, _) <- enqueue next_task;
      ret (set_on_complete task (Some next_task))
  | _, Some (e, _), Some next_task =>
      let next_task := extend_data next_task (VExc e) in
      do '(next_task, _) <- enqueue next_task;
      ret (set_on_error task (Some next_task))
  | _, _, _ => ret task
  end.

Definition _execute_retry (task : Task) (exc : option (exception * string))
  : M Task :=
  match exc with
  | Some _ =>
      if negb (retries task =? 0) then
        do _ <- _emit SIGNAL_RETRYING task None;
        do now <- _get_timestamp;
        _requeue_task task now
      else ret task
  | None => ret task
  end.

(** [if self._post_execute: self._run_post_execute(...)]. *)
Definition _execute_post (task : Task) (task_value : pyval)
    (exc : option (exception * string)) : M unit :=
  match _post_execute h with
  | [] => ret tt
  | hooks => _run_post_execute hooks task task_value (fst <$> exc)
  end.

Definition _execute_finish (task : Task) (task_value : pyval)
    (exc : option (exception * string)) : M (Task * pyval) :=
  do _ <- _execute_record task task_value exc;
  do _ <- _execute_post task task_value exc;
  do task <- _execute_chain task task_value exc;
  do task <- _execute_retry task exc;
  ret (task, task_value).

(** [if self._pre_execute: try: ... except CancelExecution: ...]; answers
    whether the task was canceled. *)
Definition _execute_pre (task : Task) : M bool :=
  match _pre_execute h with
  | [] => ret false
  | hooks =>
      try_except (do _ <- _run_pre_execute hooks task; ret false)
        (fun e => match e with
                  | CancelExecution =>
                      Some (do _ <- _emit SIGNAL_CANCELED task None; ret true)
                  | _ => None
                  end)
  end.

(** [Huey._execute]: pre-hooks, the user function under the [try]
    statement, then [_execute_finish].  The task is returned as the call
    leaves it. *)
Definition _execute (task : Task) (timestamp : Z) : M (Task * pyval) :=
  do canceled <- _execute_pre task;
  if canceled : bool then ret (task, VNone)
  else
    do _ <- emit_event (Call task);
    match cls_func (task_class task) (args task) (kwargs task) with
    | Returns task_value =>
        do _ <- logger INFO "%s executed in %0.3fs" task;
        do _ <- _emit SIGNAL_COMPLETE task None;
        _execute_finish task task_value None
    | Raises e tb =>
        match e with
        | TaskLockedException _ =>
            do _ <- logger WARNING "Task %s not run, unable to acquire lock." task;
            do _ <- _emit SIGNAL_LOCKED task None;
            _execute_finish task VNone (Some (e, tb))
        | RetryTask _ =>
            do _ <- logger INFO "Task %s raised RetryTask, retrying." task;
            let task := if retries task =? 0 then set_retries task 1 else task in
            _execute_finish task VNone (Some (e, tb))
        | KeyboardInterrupt =>
            do _ <- logger WARNING "Received exit signal, %s did not finish." task;
            ret (task, VNone)
        | _ =>
            if is_Exception e then
              do _ <- logger EXCEPTION "Unhandled exception in task %s." task;
              do _ <- _emit SIGNAL_ERROR task (Some e);
              _execute_finish task VNone (Some (e, tb))
            else raise e
        end
    end.

(** [Huey.execute]. *)
Definition execute (task : Task) (timestamp : option Z) : M (Task * pyval) :=
  do timestamp <- (match timestamp with
                   | Some ts => ret ts
                   | None => _get_timestamp
                   end);
  if negb (ready_to_run task timestamp) then
    do _ <- add_schedule task;
    ret (task, VNone)
  else
    do revoked <- is_revoked (OfTask task) (Some timestamp) false;
    if revoked : bool then
      do _ <- logger WARNING "Task %s was revoked, not executing" task;
      do _ <- _emit SIGNAL_REVOKED task None;
      ret (task, VNone)
    else
      do _ <- logger INFO "Executing %s" task;
      do _ <- _emit SIGNAL_EXECUTING task None;
      _execute task timestamp.
End Dispatch.

(** [Huey.enqueue].  In immediate mode it runs [execute], whose chain and
    retry steps call [enqueue] again: [fuel] bounds that nesting. *)
Fixpoint enqueue (fuel : nat) (h : Huey) (task : Task) : M (Task * handle) :=
  do _ <- _emit SIGNAL_ENQUEUED task None;
  if immediate h then
    match fuel with
    | O => diverge
    | S fuel =>
        do '(task, _) <- execute (enqueue fuel h) h task None;
        ret (task, result_handle h task)
    end
  else
    do _ <- with_storage (fun st => (tt, storage_enqueue (serialize_task task) st));
    ret (task, result_handle h task).

(** [Huey.dequeue]. *)
Definition dequeue : M (option Task) :=
  do d <- with_storage storage_dequeue;
  ret (deserialize_task <$> d).

(** [Huey.read_schedule]. *)
Definition read_schedule (timestamp : option Z) : M (list Task) :=
  do timestamp <- (match timestamp with
                   | Some ts => ret ts
                   | None => _get_timestamp
                   end);
  do ds <- with_storage (storage_read_schedule timestamp);
  ret (map deserialize_task ds).

(** ** Result handles *)

(** The names bound at module level in [api.py]: its imports, classes,
    functions and constants.  A name that is not among them (and is no
    builtin) raises [NameError] when it is evaluated. *)
Definition api_globals : list string :=
  [ "datetime"; "functools"; "inspect"; "logging"; "re"; "time"; "traceback";
    "uuid"; "warnings"; "OrderedDict"; "S"; "EmptyData"; "Consumer";
    "CancelExecution"; "ConfigurationError"; "RetryTask"; "TaskException";
    "TaskLockedException"; "Registry"; "Serializer"; "BlackHoleStorage";
    "MemoryStorage"; "RedisStorage"; "SqliteStorage"; "Error";
    "normalize_time"; "reraise_as"; "to_timestamp"; "logger"; "Huey"; "Task";
    "PeriodicTask"; "TaskWrapper"; "TaskLock"; "Result"; "ResultGroup";
    "dash_re"; "every_re"; "crontab"; "every_between"; "_unsupported";
    "BlackHoleHuey"; "MemoryHuey"; "RedisHuey"; "SqliteHuey" ].

(** [raise <name>]: the name is looked up first. *)
Definition raise_global {A} (name : string) (e : exception) : M A :=
  if bool_decide (name ∈ api_globals) then raise e else raise (NameError name).

Definition set_result (r : Result) (v : option pyval) : Result :=
  mkResult (result_task r) v.

(** [Result._get]; the answer [None] is [EmptyData]. *)
Definition _get (r : Result) (preserve : bool) : M (Result * option pyval) :=
  let task_id := id (result_task r) in
  match _result r with
  | None =>
      do res <- get_raw task_id preserve;
      match res with
      | Some d =>
          let r := set_result r (Some (deserialize d)) in
          ret (r, _result r)
      | None => ret (r, None)
      end
  | Some v => ret (r, Some v)
  end.

(** [Result.revoke]. *)
Definition Result_revoke (r : Result) (revoke_once : bool) : M unit :=
  revoke (result_task r) None revoke_once.

Definition Result_is_revoked (r : Result) : M bool :=
  is_revoked (OfTask (result_task r)) None true.

Definition Result_restore (r : Result) : M bool := restore (result_task r).

(** [Result.reset]. *)
Definition reset (r : Result) : Result := set_result r None.

Definition time_time_now : M Q := fun w => (Ok (time_time w), w).

(** [time.sleep]: the clock moves on by the delay and nothing else
    happens meanwhile. *)
Definition time_sleep (d : Q) : M unit :=
  if Qlt_le_dec d 0 then raise (ValueError "sleep length must be non-negative")
  else fun w => (Ok tt, mkWorld (storage w) (trace w ++ [Sleep d]) (clock w)
                                (time_time w + d)%Q).

(** [timeout and time.time() - start >= timeout]. *)
Definition timed_out (timeout : option Q) (now start : Q) : bool :=
  match timeout with
  | None => false
  | Some t => negb (Qeq_bool t 0) && Qle_bool t (now - start)
  end.

(** The [while self._result is EmptyData] loop of [get_raw_result]. *)
Fixpoint poll (fuel : nat) (r : Result) (start delay : Q) (timeout : option Q)
    (backoff max_delay : Q) (revoke_on_timeout preserve : bool) : M Result :=
  match _result r with
  | Some _ => ret r
  | None =>
      match fuel with
      | O => diverge
      | S fuel =>
          do now <- time_time_now;
          if timed_out timeout now start then
            do _ <- (if revoke_on_timeout then Result_revoke r true else ret tt);
            raise_global "DataStoreTimeout" (Exception_ "DataStoreTimeout" "")
          else
            let delay := if Qlt_le_dec max_delay delay then max_delay else delay in
            do '(r, res) <- _get r preserve;
            match res with
            | None =>
                do _ <- time_sleep delay;
                poll fuel r start (delay * backoff)%Q timeout backoff max_delay
                     revoke_on_timeout preserve
            | Some _ =>
                poll fuel r start delay timeout backoff max_delay
                     revoke_on_timeout preserve
            end
      end
  end.

(** [Result.get_raw_result]. *)
Definition get_raw_result (fuel : nat) (r : Result) (blocking : bool)
    (timeout : option Q) (backoff max_delay : Q)
    (revoke_on_timeout preserve : bool) : M (Result * pyval) :=
  if negb blocking then
    do '(r, res) <- _get r preserve;
    match res with
    | Some v => ret (r, v)
    | None => ret (r, VNone)
    end
  else
    do start <- time_time_now;
    do r <- poll fuel r start (1 # 10)%Q timeout backoff max_delay
              revoke_on_timeout preserve;
    match _result r with
    | Some v => ret (r, v)
    | None => diverge
    end.

(** [Result.get]. *)
Definition Result_get (fuel : nat) (r : Result) (blocking : bool)
    (timeout : option Q) (backoff max_delay : Q)
    (revoke_on_timeout preserve : bool) : M (Result * pyval) :=
  do '(r, result) <- get_raw_result fuel r blocking timeout backoff max_delay
                       revoke_on_timeout preserve;
  match result with
  | VError error retries traceback => raise (TaskException error retries traceback)
  | _ => ret (r, result)
  end.

(** [get()] with every argument at its default but [preserve]. *)
Definition Result_get_default (r : Result) (preserve : bool) : M (Result * pyval) :=
  Result_get 0 r false None (115 # 100)%Q 1%Q false preserve.

(** [Huey.result]. *)
Definition Huey_result (fuel : nat) (i : string) (blocking : bool)
    (timeout : option Q) (backoff max_delay : Q)
    (revoke_on_timeout preserve : bool) : M pyval :=
  do '(_, v) <- Result_get fuel (Result_init (Task_of_id i)) blocking timeout
                  backoff max_delay revoke_on_timeout preserve;
  ret v.

(** ** The consumer *)

(** Modelled from the spec: the consumer ([huey.consumer]) is not part of
    this file.  Sections 2 and 4.5 of the spec: a worker pulls a task off
    the queue and hands it to [execute]; the scheduler drains the due
    entries of the schedule with [read_schedule(now)] and enqueues them. *)
Definition worker_step (fuel : nat) (h : Huey) : M unit :=
  do task <- dequeue;
  match task with
  | Some task => do _ <- execute (enqueue fuel h) h task None; ret tt
  | None => ret tt
  end.

Fixpoint enqueue_all (fuel : nat) (h : Huey) (tasks : list Task) : M unit :=
  match tasks with
  | [] => ret tt
  | task :: rest => do _ <- enqueue fuel h task; enqueue_all fuel h rest
  end.

Definition scheduler_step (fuel : nat) (h : Huey) : M unit :=
  do now <- _get_timestamp;
  do tasks <- read_schedule (Some now);
  enqueue_all fuel h tasks.

(** Time passes by [d] ticks. *)
Definition tick (d : Z) : M unit :=
  fun w => (Ok tt, mkWorld (storage w) (trace w) (clock w + d) (time_time w)).

(** One round of a consumer: [d] ticks later the scheduler runs, then a
    worker. *)
Definition consumer_round (fuel : nat) (h : Huey) (d : Z) : M unit :=
  do _ <- tick d;
  do _ <- scheduler_step fuel h;
  worker_step fuel h.

Fixpoint consumer_rounds (fuel : nat) (h : Huey) (ds : list Z) : M unit :=
  match ds with
  | [] => ret tt
  | d :: ds => do _ <- consumer_round fuel h d; consumer_rounds fuel h ds
  end.

(** How often the user function of the task with id [i] was called. *)
Definition is_call_of (i : string) (e : Event) : bool :=
  match e with
  | Call t => String.eqb (id t) i
  | _ => false
  end.

Definition calls_of (i : string) (tr : list Event) : nat :=
  length (List.filter (is_call_of i) tr).

(** ** The cron matcher *)

Module Cron.

(** A crontab argument is an [int] or a [str]. *)
Inductive field : Type :=
| FInt (n : Z)
| FStr (s : string).

Definition digit_of (c : ascii) : option Z :=
  let n := Z.of_N (Ascii.N_of_ascii c) in
  if (48 <=? n) && (n <=? 57) then Some (n - 48) else None.

Definition is_digit (c : ascii) : bool :=
  match digit_of c with Some _ => true | None => false end.

(** [str.isdigit]: at least one character and all of them digits. *)
Definition isdigit (s : string) : bool :=
  match String.list_ascii_of_string s with
  | [] => false
  | l => forallb is_digit l
  end.

(** [int] of a list of digits. *)
Definition int_of_digits (l : list ascii) : Z :=
  fold_left (fun acc c => 10 * acc + default 0 (digit_of c)) l 0.

Definition int (s : string) : Z := int_of_digits (String.list_ascii_of_string s).

Definition digit_char (d : Z) : ascii := Ascii.ascii_of_N (Z.to_N (48 + d)).

Fixpoint digits_of_pos (fuel : nat) (n : Z) (acc : list ascii) : list ascii :=
  match fuel with
  | O => acc
  | S fuel =>
      let acc := digit_char (n mod 10) :: acc in
      if n / 10 =? 0 then acc else digits_of_pos fuel (n / 10) acc
  end.

(** [str] of an [int]. *)
Definition str (n : Z) : string :=
  let ds := digits_of_pos (S (Z.to_nat (Z.log2 (Z.abs n)))) (Z.abs n) [] in
  String.string_of_list_ascii (if n <? 0 then "-"%char :: ds else ds).

(** [str.split(',')]. *)
Fixpoint split_comma (l : list ascii) (cur : list ascii) : list string :=
  match l with
  | [] => [String.string_of_list_ascii (rev cur)]
  | c :: l' =>
      if Ascii.eqb c ","%char
      then String.string_of_list_ascii (rev cur) :: split_comma l' []
      else split_comma l' (c :: cur)
  end.

Definition split (s : string) : list string :=
  split_comma (String.list_ascii_of_string s) [].

(** The longest run of digits at the head of a string, and the rest. *)
Fixpoint span_digits (l : list ascii) : list ascii * list ascii :=
  match l with
  | c :: l' =>
      if is_digit c then let '(ds, rest) := span_digits l' in (c :: ds, rest)
      else ([], l)
  | [] => ([], [])
  end.

(** [dash_re.match]: digits, a dash, digits, anchored at the start only. *)
Definition dash_match (piece : string) : option (Z * Z) :=
  match span_digits (String.list_ascii_of_string piece) with
  | ((_ :: _) as lhs, c :: rest) =>
      if Ascii.eqb c "-"%char then
        match span_digits rest with
        | ((_ :: _) as rhs, _) => Some (int_of_digits lhs, int_of_digits rhs)
        | _ => None
        end
      else None
  | _ => None
  end.

(** [every_re.match]: a star, a slash, digits, anchored at the start only. *)
Definition every_match (piece : string) : option Z :=
  match String.list_ascii_of_string piece with
  | c1 :: c2 :: rest =>
      if Ascii.eqb c1 "*"%char && Ascii.eqb c2 "/"%char then
        match span_digits rest with
        | ((_ :: _) as ds, _) => Some (int_of_digits ds)
        | _ => None
        end
      else None
  | _ => None
  end.

(** [range(lo, hi)]. *)
Definition range (lo hi : Z) : list Z := seqZ lo (hi - lo).

Definition contains (x : Z) (l : list Z) : bool := existsb (Z.eqb x) l.

(** [l[::step]] for a positive step: the elements at positions
    [0, step, 2 step, ...]; [skip] counts down to the next one. *)
Fixpoint slice_step (skip step : nat) (l : list Z) : list Z :=
  match l with
  | [] => []
  | x :: l' =>
      match skip with
      | O => x :: slice_step (step - 1) step l'
      | S skip => slice_step skip step l'
      end
  end.

(** One turn of the [for piece in value.split(',')] loop. *)
Definition add_piece (date_str : string) (acceptable : list Z)
    (settings : gset Z) (piece : string) : exception + gset Z :=
  if String.eqb piece "*" then inr (settings ∪ list_to_set acceptable)
  else if isdigit piece then
    let n := int piece in
    if negb (contains n acceptable)
    then inl (ValueError (str n +:+ " is not a valid input"))
    else
      let n := if String.eqb date_str "w" then n mod 7 else n in
      inr (settings ∪ {[ n ]})
  else
    match dash_match piece with
    | Some (lhs, rhs) =>
        if negb (contains lhs acceptable) || negb (contains rhs acceptable)
        then inl (ValueError (piece +:+ " is not a valid input"))
        else
          let lhs := if String.eqb date_str "w" then lhs mod 7 else lhs in
          let rhs := if String.eqb date_str "w" then rhs mod 7 else rhs in
          inr (settings ∪ list_to_set (range lhs (rhs + 1)))
    | None =>
        match every_match piece with
        | Some interval =>
            if String.eqb date_str "w"
            then inl (ValueError "Cannot perform this kind of matching on day-of-week.")
            else if interval =? 0
            then inl (ValueError "slice step cannot be zero")
            else inr (settings ∪ list_to_set (slice_step 0 (Z.to_nat interval) acceptable))
        | None => inr settings
        end
    end.

Fixpoint add_pieces (date_str : string) (acceptable : list Z)
    (settings : gset Z) (pieces : list string) : exception + gset Z :=
  match pieces with
  | [] => inr settings
  | piece :: rest =>
      match add_piece date_str acceptable settings piece with
      | inl e => inl e
      | inr settings => add_pieces date_str acceptable settings rest
      end
  end.

(** The body of the [for (date_str, value, acceptable) in validation] loop:
    the sorted list that is appended to [cron_settings]. *)
Definition field_settings (date_str : string) (value : field) (acceptable : list Z)
  : exception + list Z :=
  let value := match value with FInt n => str n | FStr s => s end in
  match add_pieces date_str acceptable ∅ (split value) with
  | inl e => inl e
  | inr settings => inr (merge_sort Z.le (elements settings))
  end.

Fixpoint cron_settings_of (validation : list (string * field * list Z))
  : exception + list (list Z) :=
  match validation with
  | [] => inr []
  | (date_str, value, acceptable) :: rest =>
      match field_settings date_str value acceptable with
      | inl e => inl e
      | inr s =>
          match cron_settings_of rest with
          | inl e => inl e
          | inr ss => inr (s :: ss)
          end
      end
  end.

Definition validation (minute hour day month day_of_week : field)
  : list (string * field * list Z) :=
  [ ("m", month, range 1 13);
    ("d", day, range 1 32);
    ("w", day_of_week, range 0 8);
    ("H", hour, range 0 24);
    ("M", minute, range 0 60) ].

(** [timestamp.timetuple()]: [tm_wday] has Monday as [0]. *)
Record timetuple : Type := mkTimetuple {
  tm_year : Z; tm_mon : Z; tm_mday : Z; tm_hour : Z; tm_min : Z; tm_sec : Z;
  tm_wday : Z; tm_yday : Z; tm_isdst : Z
}.

(** The closure [validate_date] over [cron_settings]. *)
Definition validate_date (cron_settings : list (list Z)) (timestamp : timetuple) : bool :=
  let m := tm_mon timestamp in
  let d := tm_mday timestamp in
  let H := tm_hour timestamp in
  let M := tm_min timestamp in
  let w := (tm_wday timestamp + 1) mod 7 in
  forallb (fun '(date_piece, selection) => contains date_piece selection)
          (zip [m; d; w; H; M] cron_settings).

(** [crontab]: the arguments default to [FStr "*"]. *)
Definition crontab (minute hour day month day_of_week : field)
  : exception + (timetuple -> bool) :=
  match cron_settings_of (validation minute hour day month day_of_week) with
  | inl e => inl e
  | inr cron_settings => inr (validate_date cron_settings)
  end.

(** Day-of-week [7] is Sunday like [0]: what the day-of-week field does to
    an integer and to both ends of a range; the other fields take them as
    they are. *)
Definition normalize (date_str : string) (n : Z) : Z :=
  if String.eqb date_str "w" then n mod 7 else n.

(** A string without a comma. *)
Definition comma_free (s : string) : bool :=
  forallb (fun c => negb (Ascii.eqb c ","%char)) (String.list_ascii_of_string s).

End Cron.

(** * Specifications *)

(** ** Revocation: section 4.6 of the spec in its own words *)

(** A revocation record as [revoke]/[revoke_all] store it, or no record. *)
Definition stored_record (r : option (option Z * bool)) : option (pickled pyval) :=
  match r with
  | Some (revoke_until, revoke_once) =>
      Some (serialize (VTuple [opt_datetime revoke_until; VBool revoke_once]))
  | None => None
  end.

(** The decision table of the spec, step 2: [(is_revoked, can_restore)]. *)
Definition spec_decide (r : option (option Z * bool)) (now : Z) (peek : bool)
  : bool * bool :=
  match r with
  | None => (false, false)
  | Some (_, true) => (true, negb peek)
  | Some (Some revoke_until, false) =>
      if revoke_until <=? now then (false, negb peek) else (true, false)
  | Some (None, false) => (true, false)
  end.

(** Step 3 of the spec: delete the record under [key] when [can_restore]. *)
Definition spec_clear (can_restore : bool) (key : string) (w : World) : World :=
  if can_restore
  then set_storage w (mkStorage (queue (storage w)) (schedule (storage w))
                                (delete key (data (storage w))))
  else w.

(** Steps 1 to 4 of the spec for a task whose instance record is [ri] and
    whose class record is [rc]. *)
Definition spec_is_revoked (t : Task) (ri rc : option (option Z * bool))
    (now : Z) (peek : bool) (w : World) : bool * World :=
  let '(revoked_i, restore_i) := spec_decide ri now peek in
  let w := spec_clear restore_i ("r:" +:+ id t) w in
  if revoked_i then (true, w)
  else
    let '(revoked_c, restore_c) := spec_decide rc now peek in
    (revoked_c, spec_clear restore_c ("rt:" +:+ cls_name (task_class t)) w).

(** ** Effects on the world, spelled out *)

(** Events appended to the trace. *)
Definition logged (es : list Event) (w : World) : World :=
  mkWorld (storage w) (trace w ++ es) (clock w) (time_time w).

(** A value put under a key of the result store. *)
Definition stored (key : string) (v : pyval) (w : World) : World :=
  set_storage w (storage_put_data key (serialize v) (storage w)).

(** A task appended to the queue. *)
Definition queued (t : Task) (w : World) : World :=
  set_storage w (storage_enqueue (serialize_task t) (storage w)).

(** A task added to the schedule with the given ETA. *)
Definition on_schedule (t : Task) (e : Z) (w : World) : World :=
  set_storage w (storage_add_to_schedule (serialize_task t) e (storage w)).

(** The exception that ends the walk over the pre-execute hooks for a task:
    the first [CancelExecution], or the first exception that is no
    [Exception]; [None] when every hook lets the task through. *)
Fixpoint pre_hook_stop (hooks : list (string * (Task -> option exception)))
    (t : Task) : option exception :=
  match hooks with
  | [] => None
  | (_, callback) :: rest =>
      match callback t with
      | None => pre_hook_stop rest t
      | Some CancelExecution => Some CancelExecution
      | Some e => if is_Exception e then pre_hook_stop rest t else Some e
      end
  end.

(** What that walk leaves on the trace. *)
Fixpoint pre_hook_events (hooks : list (string * (Task -> option exception)))
    (t : Task) : list Event :=
  match hooks with
  | [] => []
  | (name, callback) :: rest =>
      Log DEBUG "Pre-execute hook %s for %s." t :: PreHook name t ::
      match callback t with
      | None => pre_hook_events rest t
      | Some CancelExecution => [Log WARNING "Task %s cancelled by %s." t]
      | Some e =>
          if is_Exception e
          then Log EXCEPTION "Unhandled exception calling pre-execute hook %s for %s." t
               :: pre_hook_events rest t
          else []
      end
  end.

(** The same for the post-execute hooks, which nothing cancels. *)
Fixpoint post_hook_stop
    (hooks : list (string * (Task -> pyval -> option exception -> option exception)))
    (t : Task) (v : pyval) (exc : option exception) : option exception :=
  match hooks with
  | [] => None
  | (_, callback) :: rest =>
      match callback t v exc with
      | None => post_hook_stop rest t v exc
      | Some e => if is_Exception e then post_hook_stop rest t v exc else Some e
      end
  end.

Fixpoint post_hook_events
    (hooks : list (string * (Task -> pyval -> option exception -> option exception)))
    (t : Task) (v : pyval) (exc : option exception) : list Event :=
  match hooks with
  | [] => []
  | (name, callback) :: rest =>
      Log DEBUG "Post-execute hook %s for %s." t :: PostHook name t v exc ::
      match callback t v exc with
      | None => post_hook_events rest t v exc
      | Some e =>
          if is_Exception e
          then Log EXCEPTION "Unhandled exception calling post-execute hook %s for %s." t
               :: post_hook_events rest t v exc
          else []
      end
  end.

(** What the [except] clause that catches [e] logs and emits for a task. *)
Definition except_events (e : exception) (t : Task) : list Event :=
  match e with
  | TaskLockedException _ =>
      [Log WARNING "Task %s not run, unable to acquire lock." t;
       Signal SIGNAL_LOCKED t None]
  | RetryTask _ => [Log INFO "Task %s raised RetryTask, retrying." t]
  | _ =>
      [Log EXCEPTION "Unhandled exception in task %s." t;
       Signal SIGNAL_ERROR t (Some e)]
  end.

(** The task as that clause leaves it. *)
Definition except_task (e : exception) (t : Task) : Task :=
  match e with
  | RetryTask _ => if retries t =? 0 then set_retries t 1 else t
  | _ => t
  end.

(** The task as [_requeue_task] hands it on at time [now]. *)
Definition requeued (t : Task) (now : Z) : Task :=
  let t := set_retries t (retries t - 1) in
  if retry_delay t =? 0 then t else set_eta t (Some (now + retry_delay t)).

(** The world after the result-store step of [_execute]. *)
Definition recorded (h : Huey) (t : Task) (v : pyval)
    (exc : option (exception * string)) (w : World) : World :=
  if results h && negb (isinstance_PeriodicTask t) then
    match exc with
    | Some (e, tb) => stored (id t) (VError (repr e) (retries t) tb) w
    | None => if negb (is_None v) || store_none h then stored (id t) v w else w
    end
  else w.

(** The continuation that the chain step enqueues, with the outcome merged
    into its data; [None] when the step enqueues nothing. *)
Definition successor (t : Task) (v : pyval) (exc : option (exception * string))
  : option Task :=
  match on_complete t, exc, on_error t with
  | Some next, None, _ => Some (extend_data next v)
  | _, Some (e, _), Some next => Some (extend_data next (VExc e))
  | _, _, _ => None
  end.

(** The task after the chain step outside immediate mode: the link that was
    followed now points at the extended continuation. *)
Definition chained (t : Task) (v : pyval) (exc : option (exception * string)) : Task :=
  match on_complete t, exc, on_error t with
  | Some next, None, _ => set_on_complete t (Some (extend_data next v))
  | _, Some (e, _), Some next => set_on_error t (Some (extend_data next (VExc e)))
  | _, _, _ => t
  end.

(** The world after [enqueue] outside immediate mode. *)
Definition enqueued (t : Task) (w : World) : World :=
  queued t (logged [Signal SIGNAL_ENQUEUED t None] w).

(** Whether the retry step requeues: an exception was recorded and the
    counter is not zero. *)
Definition retries_left (t : Task) (exc : option (exception * string)) : bool :=
  match exc with
  | Some _ => negb (retries t =? 0)
  | None => false
  end.

(** The world after the retry step outside immediate mode. *)
Definition retried (t : Task) (exc : option (exception * string)) (w : World) : World :=
  if retries_left t exc then
    let t' := requeued t (clock w) in
    let w := logged [Signal SIGNAL_RETRYING t None;
                     Log INFO "Requeueing %s, %s retries"
                         (set_retries t (retries t - 1))] w in
    if retry_delay t =? 0 then enqueued t' w
    else logged [Log INFO "Added task %s to schedule, eta %s" t';
                 Signal SIGNAL_SCHEDULED t' None]
           (on_schedule t' (clock w + retry_delay t) w)
  else w.

(** [d.get(k)] on an insertion-ordered dict. *)
Fixpoint dict_get (k : string) (d : list (string * pyval)) : option pyval :=
  match d with
  | [] => None
  | (k', v) :: d' => if String.eqb k' k then Some v else dict_get k d'
  end.

(** ** The broker as the retry machinery sees it *)

(** The broker holds no work. *)
Definition idle (w : World) : Prop :=
  queue (storage w) = [] /\ schedule (storage w) = [].

(** The task [t] is all the work the broker holds: alone on the queue and
    due, or alone on the schedule with an ETA at most [retry_delay] away. *)
Definition pending (t : Task) (w : World) : Prop :=
  (queue (storage w) = [serialize_task t] /\ schedule (storage w) = []
   /\ ready_to_run t (clock w) = true)
  \/ (queue (storage w) = []
      /\ exists e, schedule (storage w) = [(e, serialize_task t)]
                    /\ eta t = Some e /\ e <= clock w + retry_delay t).

(** Neither the task nor its class is revoked. *)
Definition unrevoked (t : Task) (w : World) : Prop :=
  data (storage w) !! ("r:" +:+ id t) = None
  /\ data (storage w) !! ("rt:" +:+ cls_name (task_class t)) = None.

(** [t'] is [t] on a later attempt: only the retry counter and the ETA may
    differ. *)
Definition same_work (t t' : Task) : Prop :=
  task_class t' = task_class t /\ id t' = id t /\ args t' = args t
  /\ kwargs t' = kwargs t /\ retry_delay t' = retry_delay t
  /\ on_complete t' = on_complete t /\ on_error t' = on_error t.

(** The task on its later attempts outside immediate mode: a failing
    execution at time [now] whose retry step requeues hands on
    [requeued (chained (except_task e t) VNone exc) now]; [nows] are the
    times of the executions so far. *)
Fixpoint attempt (e : exception) (tb : string) (t : Task) (nows : list Z) : Task :=
  match nows with
  | [] => t
  | now :: nows =>
      attempt e tb (requeued (chained (except_task e t) VNone (Some (e, tb))) now) nows
  end.

(** ** Keys a task can reach *)

(** The keys of the result store that running [t] and everything chained
    after it can write or delete: the revocation keys of each task and of
    its class, and the id of each task that is not periodic. *)
Fixpoint touches (key : string) (t : Task) : Prop :=
  match t with
  | mkTask c i _ _ _ _ _ oc oe =>
      key = "r:" +:+ i \/ key = "rt:" +:+ cls_name c
      \/ (cls_periodic c = false /\ key = i)
      \/ match oc with Some next => touches key next | None => False end
      \/ match oe with Some next => touches key next | None => False end
  end.

(** A call leaves what is stored under [key] alone and, when it returns,
    returns something that satisfies [Q]. *)
Definition keeps {A} (key : string) (m : M A) (Q : A -> Prop) : Prop :=
  forall w,
    data (storage (snd (m w))) !! key = data (storage w) !! key
    /\ forall a, fst (m w) = Ok a -> Q a.

(** ** Worked inputs *)

Definition ex_world : World := mkWorld (mkStorage [] [] ∅) [] 1000 0%Q.

(** A dispatcher with results enabled, outside and inside immediate mode. *)
Definition ex_huey : Huey := mkHuey "huey" true false false [] [].
Definition ex_huey_immediate : Huey := mkHuey "huey" true false true [] [].

(** A task whose body fails to take a lock, with one retry. *)
Definition ex_locked_class : TaskClass :=
  mkTaskClass "locked" false
    (fun _ _ => Raises (TaskLockedException "unable to set lock: x") "tb").
Definition ex_locked : Task :=
  mkTask ex_locked_class "t-locked" [] [] None 1 0 None None.

(** The same world with a one-shot revocation of [ex_locked]. *)
Definition ex_revoked_world : World :=
  mkWorld (mkStorage [] [] {[ "r:t-locked" := serialize (VTuple [VNone; VBool true]) ]})
          [] 1000 0%Q.

(** A task whose body asks for a retry, with a retry counter of zero. *)
Definition ex_retry_class : TaskClass :=
  mkTaskClass "again" false (fun _ _ => Raises (RetryTask "later") "tb").
Definition ex_retry : Task :=
  mkTask ex_retry_class "t-again" [] [] None 0 0 None None.

(** [add(a, b) = a + b], called as [add(2, 3)], and a task chained after it. *)
Definition ex_add_class : TaskClass :=
  mkTaskClass "add" false
    (fun a _ => match a with
                | [VInt x; VInt y] => Returns (VInt (x + y))
                | _ => Raises (TypeError "add() takes two integers") "tb"
                end).
Definition ex_add : Task :=
  mkTask ex_add_class "t-add" [VInt 2; VInt 3] [] None 0 0 None None.
Definition ex_next : Task :=
  mkTask ex_add_class "t-next" [VInt 1] [] None 0 0 None None.
Definition ex_add_then : Task :=
  mkTask ex_add_class "t-first" [VInt 2; VInt 3] [] None 0 0 (Some ex_next) None.

(** [boom()] raises [ValueError("x")], with two retries. *)
Definition ex_boom_class : TaskClass :=
  mkTaskClass "boom" false (fun _ _ => Raises (ValueError "x") "tb").
Definition ex_boom : Task :=
  mkTask ex_boom_class "t-boom" [] [] None 2 0 None None.

(** [boom()] with one retry and both continuations, and [boom()] without
    retries whose only continuation is [on_complete]. *)
Definition ex_boom_handled : Task :=
  mkTask ex_boom_class "t-handled" [] [] None 1 0 (Some ex_add) (Some ex_next).
Definition ex_boom_then : Task :=
  mkTask ex_boom_class "t-boom-then" [] [] None 0 0 (Some ex_next) None.

(** [boom()] with one retry and an [on_error] continuation whose id is the
    revocation key of the task and whose body returns a pair. *)
Definition ex_veto_class : TaskClass :=
  mkTaskClass "veto" false (fun _ _ => Returns (VTuple [VNone; VBool false])).
Definition ex_veto : Task :=
  mkTask ex_veto_class "r:t-vetoed" [] [] None 0 0 None None.
Definition ex_boom_vetoed : Task :=
  mkTask ex_boom_class "t-vetoed" [] [] None 1 0 None (Some ex_veto).

(** A periodic task whose body returns a value. *)
Definition ex_periodic_class : TaskClass :=
  mkTaskClass "nightly" true (fun _ _ => Returns (VInt 1)).
Definition ex_periodic : Task :=
  mkTask ex_periodic_class "t-nightly" [] [] None 0 0 None None.

(** A world in which the result of [ex_add] is stored. *)
Definition ex_stored_world : World :=
  mkWorld (mkStorage [] [] {[ "t-add" := serialize (VInt 5) ]}) [] 1000 0%Q.

(** * The rest of the module *)

(** ** Inspecting the broker *)

(** Modelled from the spec: the inspection side of the Storage Interface
    (section 4.1, [huey.storage]), read without a limit: [enqueued_items],
    [queue_size], [scheduled_items], [schedule_size], [result_items] and
    [result_store_size]. *)
Definition storage_enqueued_items (st : Storage) : list (pickled Task) := queue st.
Definition storage_queue_size (st : Storage) : Z := Z.of_nat (length (queue st)).
Definition storage_scheduled_items (st : Storage) : list (pickled Task) :=
  map snd (schedule st).
Definition storage_schedule_size (st : Storage) : Z := Z.of_nat (length (schedule st)).
Definition storage_result_items (st : Storage) : gmap string (pickled pyval) := data st.

(** [Huey.pending] and [Huey.scheduled] with [limit=None]. *)
Definition Huey_pending : M (list Task) :=
  with_storage (fun st => (map deserialize_task (storage_enqueued_items st), st)).

Definition pending_count : M Z :=
  with_storage (fun st => (storage_queue_size st, st)).

Definition scheduled : M (list Task) :=
  with_storage (fun st => (map deserialize_task (storage_scheduled_items st), st)).

Definition scheduled_count : M Z :=
  with_storage (fun st => (storage_schedule_size st, st)).

Definition all_results : M (gmap string (pickled pyval)) :=
  with_storage (fun st => (storage_result_items st, st)).


(** [Huey.__len__]. *)
Definition Huey_len : M Z := pending_count.

(** ** Task locks *)

(** [TaskLock.__init__] builds the key from the name of the queue and the
    name of the lock, and adds it to the [_locks] of the dispatcher, a set
    that is passed along here. *)
Record TaskLock : Type := mkTaskLock {
  _name : string;
  _key : string
}.

Definition TaskLock_init (h : Huey) (lock_name : string) (_locks : gset string)
  : TaskLock * gset string :=
  let key := huey_name h +:+ ".lock." +:+ lock_name in
  (mkTaskLock lock_name key, _locks ∪ {[ key ]}).

(** [Huey.lock_task]. *)
Definition lock_task (h : Huey) (lock_name : string) (_locks : gset string)
  : TaskLock * gset string :=
  TaskLock_init h lock_name _locks.

(** [TaskLock.__enter__]. *)
Definition TaskLock_enter (l : TaskLock) : M unit :=
  do ok <- put_if_empty (_key l) (VStr "1");
  if negb ok then raise (TaskLockedException ("unable to set lock: " +:+ _name l))
  else ret tt.

(** [TaskLock.__exit__]: it answers [None], so an exception of the body is
    raised again. *)
Definition TaskLock_exit (l : TaskLock) : M unit :=
  do _ <- get_raw (_key l) false;
  ret tt.

(** [with self: body], which is what the wrapper made by
    [TaskLock.__call__] runs. *)
Definition with_lock {A} (l : TaskLock) (body : M A) : M A :=
  do _ <- TaskLock_enter l;
  fun w =>
    match body w with
    | (Ok a, w') => (do _ <- TaskLock_exit l; ret a) w'
    | (Raise e, w') => (do _ <- TaskLock_exit l; raise e) w'
    | (Diverge, w') => (Diverge, w')
    end.

Definition TaskLock_call {A B} (l : TaskLock) (fn : A -> M B) : A -> M B :=
  fun args => with_lock l (fn args).

(** Whether [l] starts with [sep], and what follows. *)
Fixpoint strip_prefix (sep l : list ascii) : option (list ascii) :=
  match sep, l with
  | [], _ => Some l
  | c :: sep', c' :: l' => if Ascii.eqb c c' then strip_prefix sep' l' else None
  | _ :: _, [] => None
  end.

(** What follows the first occurrence of [sep]. *)
Fixpoint after_first (sep l : list ascii) : option (list ascii) :=
  match strip_prefix sep l with
  | Some rest => Some rest
  | None =>
      match l with
      | [] => None
      | _ :: l' => after_first sep l'
      end
  end.

(** [s.split(sep, 1)[-1]] for a separator that is not empty. *)
Definition split1_last (sep s : string) : string :=
  match after_first (String.list_ascii_of_string sep) (String.list_ascii_of_string s) with
  | Some rest => String.string_of_list_ascii rest
  | None => s
  end.

(** The loop of [Huey.flush_locks] over the keys of [_locks]. *)
Fixpoint flush_lock_keys (keys : list string) (flushed : gset string)
  : M (gset string) :=
  match keys with
  | [] => ret flushed
  | lock_key :: rest =>
      do d <- get_raw lock_key false;
      match d with
      | Some _ => flush_lock_keys rest (flushed ∪ {[ split1_last ".lock." lock_key ]})
      | None => flush_lock_keys rest flushed
      end
  end.

(** [Huey.flush_locks]; the set is walked in the order of [elements]. *)
Definition flush_locks (_locks : gset string) : M (gset string) :=
  flush_lock_keys (elements _locks) ∅.

(** ** The hook tables *)

(** [d[k] = v] on an [OrderedDict]: a key that is there keeps its place. *)
Fixpoint odict_setitem {A} (d : list (string * A)) (k : string) (v : A)
  : list (string * A) :=
  match d with
  | [] => [(k, v)]
  | (k', v') :: d' =>
      if String.eqb k' k then (k', v) :: d' else (k', v') :: odict_setitem d' k v
  end.

(** [d.pop(k, None)]. *)
Fixpoint odict_pop {A} (d : list (string * A)) (k : string)
  : option A * list (string * A) :=
  match d with
  | [] => (None, [])
  | (k', v') :: d' =>
      if String.eqb k' k then (Some v', d')
      else let '(r, d'') := odict_pop d' k in (r, (k', v') :: d'')
  end.

Definition set__pre_execute (h : Huey)
    (hooks : list (string * (Task -> option exception))) : Huey :=
  mkHuey (huey_name h) (results h) (store_none h) (immediate h) hooks (_post_execute h).

Definition set__post_execute (h : Huey)
    (hooks : list (string * (Task -> pyval -> option exception -> option exception)))
  : Huey :=
  mkHuey (huey_name h) (results h) (store_none h) (immediate h) (_pre_execute h) hooks.

(** [name or fn.__name__]. *)
Definition name_or (name : option string) (fn___name__ : string) : string :=
  match name with
  | Some n => if String.eqb n "" then fn___name__ else n
  | None => fn___name__
  end.

(** [Huey.pre_execute(name)(fn)]. *)
Definition pre_execute (h : Huey) (name : option string) (fn___name__ : string)
    (fn : Task -> option exception) : Huey :=
  set__pre_execute h (odict_setitem (_pre_execute h) (name_or name fn___name__) fn).

(** [Huey.unregister_pre_execute]. *)
Definition unregister_pre_execute (h : Huey) (name : string) : bool * Huey :=
  let '(fn, hooks) := odict_pop (_pre_execute h) name in
  (match fn with Some _ => true | None => false end, set__pre_execute h hooks).

(** [Huey.post_execute(name)(fn)]. *)
Definition post_execute (h : Huey) (name : option string) (fn___name__ : string)
    (fn : Task -> pyval -> option exception -> option exception) : Huey :=
  set__post_execute h (odict_setitem (_post_execute h) (name_or name fn___name__) fn).

(** [Huey.unregister_post_execute]. *)
Definition unregister_post_execute (h : Huey) (name : string) : bool * Huey :=
  let '(fn, hooks) := odict_pop (_post_execute h) name in
  (match fn with Some _ => true | None => false end, set__post_execute h hooks).

(** ** Task wrappers and pipelines *)

(** [Task.__init__] for a class whose [default_retries] and
    [default_retry_delay] are given; [uuid4] is the string that
    [create_id] draws when no id is passed. *)
Definition Task_init (c : TaskClass) (default_retries default_retry_delay : Z)
    (args : option (list pyval)) (kwargs : option (list (string * pyval)))
    (id : option string) (eta : option Z) (retries retry_delay : option Z)
    (on_complete on_error : option Task) (uuid4 : string) : Task :=
  mkTask c
    (match id with
     | Some i => if String.eqb i "" then uuid4 else i
     | None => uuid4
     end)
    (match args with Some a => a | None => [] end)
    (match kwargs with Some k => k | None => [] end)
    eta
    (match retries with Some r => r | None => default_retries end)
    (match retry_delay with Some r => r | None => default_retry_delay end)
    on_complete on_error.

(** A [TaskWrapper]: the class it created, with the class attributes
    [default_retries] and [default_retry_delay] (zero unless the settings
    set them, as [periodic_task] does), and its own [retries] and
    [retry_delay]. *)
Record TaskWrapper : Type := mkTaskWrapper {
  wrapper_task_class : TaskClass;
  default_retries : Z;
  default_retry_delay : Z;
  wrapper_retries : option Z;
  wrapper_retry_delay : option Z
}.

(** [TaskWrapper.s]. *)
Definition TaskWrapper_s (tw : TaskWrapper) (args : list pyval)
    (kwargs : list (string * pyval)) (uuid4 : string) : Task :=
  Task_init (wrapper_task_class tw) (default_retries tw) (default_retry_delay tw)
    (Some args) (Some kwargs) None None (wrapper_retries tw) (wrapper_retry_delay tw)
    None None uuid4.

(** [Task.then]: the task is returned as the call leaves it. *)
Fixpoint Task_then (self : Task) (task : TaskWrapper) (args : list pyval)
    (kwargs : list (string * pyval)) (uuid4 : string) : Task :=
  match self with
  | mkTask c i a k e r rd oc oe =>
      match oc with
      | Some next => mkTask c i a k e r rd (Some (Task_then next task args kwargs uuid4)) oe
      | None => mkTask c i a k e r rd (Some (TaskWrapper_s task args kwargs uuid4)) oe
      end
  end.

(** [Task.error]. *)
Fixpoint Task_error (self : Task) (task : TaskWrapper) (args : list pyval)
    (kwargs : list (string * pyval)) (uuid4 : string) : Task :=
  match self with
  | mkTask c i a k e r rd oc oe =>
      match oe with
      | Some next => mkTask c i a k e r rd oc (Some (Task_error next task args kwargs uuid4))
      | None => mkTask c i a k e r rd oc (Some (TaskWrapper_s task args kwargs uuid4))
      end
  end.

(** [TaskWrapper.__call__]. *)
Definition TaskWrapper_call (fuel : nat) (h : Huey) (tw : TaskWrapper)
    (args : list pyval) (kwargs : list (string * pyval)) (uuid4 : string)
  : M (Task * handle) :=
  enqueue fuel h (TaskWrapper_s tw args kwargs uuid4).

(** [i if isinstance(i, tuple) else (i,)]. *)
Definition as_tuple (i : pyval) : list pyval :=
  match i with
  | VTuple l => l
  | _ => [i]
  end.

(** [TaskWrapper._apply]; the [n]-th task built draws [uuids n]. *)
Fixpoint TaskWrapper__apply (tw : TaskWrapper) (it : list pyval)
    (uuids : nat -> string) (n : nat) : list Task :=
  match it with
  | [] => []
  | i :: rest =>
      TaskWrapper_s tw (as_tuple i) [] (uuids n)
      :: TaskWrapper__apply tw rest uuids (S n)
  end.

(** [[self.huey.enqueue(t) for t in tasks]]. *)
Fixpoint enqueue_each (fuel : nat) (h : Huey) (tasks : list Task) : M (list handle) :=
  match tasks with
  | [] => ret []
  | t :: rest =>
      do '(_, hd) <- enqueue fuel h t;
      do hds <- enqueue_each fuel h rest;
      ret (hd :: hds)
  end.

(** [TaskWrapper.map]: what the [ResultGroup] it returns holds. *)
Definition TaskWrapper_map (fuel : nat) (h : Huey) (tw : TaskWrapper)
    (it : list pyval) (uuids : nat -> string) : M (list handle) :=
  enqueue_each fuel h (TaskWrapper__apply tw it uuids 0).

(** [TaskWrapper.is_revoked], [revoke] and [restore]. *)
Definition TaskWrapper_is_revoked (tw : TaskWrapper) (timestamp : option Z)
    (peek : bool) : M bool :=
  is_revoked (OfClass (wrapper_task_class tw)) timestamp peek.

Definition TaskWrapper_revoke (tw : TaskWrapper) (revoke_until : option Z)
    (revoke_once : bool) : M unit :=
  revoke_all (wrapper_task_class tw) revoke_until revoke_once.

Definition TaskWrapper_restore (tw : TaskWrapper) : M bool :=
  restore_all (wrapper_task_class tw).

(** ** Rescheduling and groups of results *)

Section Reschedule.
(** [huey.utils.normalize_time] is not part of this file: it stands for
    itself, as does the [utc] flag it is given. *)
Variable normalize_time : option Z -> option Z -> bool -> option Z.
Variable utc : bool.

(** [Result.reschedule]. *)
Definition reschedule (fuel : nat) (h : Huey) (r : Result)
    (eta delay : option Z) (uuid4 : string) : M (Task * handle) :=
  do _ <- Result_revoke r true;
  let eta := normalize_time eta delay utc in
  let task := Task_init (task_class (result_task r)) 0 0
                (Some (args (result_task r))) (Some (kwargs (result_task r)))
                None eta (Some (retries (result_task r)))
                (Some (retry_delay (result_task r))) None None uuid4 in
  enqueue fuel h task.
End Reschedule.

(** [ResultGroup.get]: the handles are read from left to right. *)
Fixpoint ResultGroup_get (fuel : nat) (rs : list Result) (blocking : bool)
    (timeout : option Q) (backoff max_delay : Q)
    (revoke_on_timeout preserve : bool) : M (list Result * list pyval) :=
  match rs with
  | [] => ret ([], [])
  | r :: rest =>
      do '(r, v) <- Result_get fuel r blocking timeout backoff max_delay
                      revoke_on_timeout preserve;
      do '(rest, vs) <- ResultGroup_get fuel rest blocking timeout backoff max_delay
                          revoke_on_timeout preserve;
      ret (r :: rest, v :: vs)
  end.

(** [ResultGroup.__len__]. *)
Definition ResultGroup_len (rs : list Result) : Z := Z.of_nat (length rs).

(** ** Helpers for the statements *)

(** The ids along the [on_complete] links and along the [on_error] links of
    a task, the task itself first. *)
Fixpoint on_complete_ids (t : Task) : list string :=
  match t with
  | mkTask _ i _ _ _ _ _ oc _ =>
      i :: match oc with Some next => on_complete_ids next | None => [] end
  end.

Fixpoint on_error_ids (t : Task) : list string :=
  match t with
  | mkTask _ i _ _ _ _ _ _ oe =>
      i :: match oe with Some next => on_error_ids next | None => [] end
  end.

(** The last task along the [on_complete] links. *)
Fixpoint last_on_complete (t : Task) : Task :=
  match t with
  | mkTask _ _ _ _ _ _ _ oc _ =>
      match oc with Some next => last_on_complete next | None => t end
  end.

Fixpoint last_on_error (t : Task) : Task :=
  match t with
  | mkTask _ _ _ _ _ _ _ _ oe =>
      match oe with Some next => last_on_error next | None => t end
  end.

(** A hook that lets the task through or fails with an ordinary exception:
    it neither cancels nor raises past [except Exception]. *)
Definition passes (r : option exception) : Prop :=
  match r with
  | None => True
  | Some CancelExecution => False
  | Some e => is_Exception e = true
  end.

(** No character of the string is a dot. *)
Definition dot_free (s : string) : bool :=
  forallb (fun c => negb (Ascii.eqb c "."%char)) (String.list_ascii_of_string s).

(** A handle that has read nothing yet and whose value, if it is stored, is
    no Error record. *)
Definition fresh_value (w : World) (r : Result) : Prop :=
  _result r = None
  /\ forall error retries traceback,
       data (storage w) !! id (result_task r)
       <> Some (serialize (VError error retries traceback)).

(** What a read of the store under [key] yields: [None] for [EmptyData]. *)
Definition stored_value (w : World) (key : string) : pyval :=
  match data (storage w) !! key with
  | Some d => deserialize d
  | None => VNone
  end.

(** The world after a key of the result store has been popped. *)
Definition popped (key : string) (w : World) : World :=
  set_storage w (snd (storage_pop_data key (storage w))).

(** The answer of a call with [f] applied to what it returns. *)
Definition on_result {A B} (f : A -> B) (x : result A * World) : result B * World :=
  (match fst x with
   | Ok a => Ok (f a)
   | Raise e => Raise e
   | Diverge => Diverge
   end, snd x).

(** The handle [r] as a handle for the task [t]. *)
Definition retask (t : Task) (r : Result) : Result := mkResult t (_result r).

(** The ids of a list of handles. *)
Definition handle_ids (rs : list Result) : list string :=
  map (fun r => id (result_task r)) rs.

(** ** [every_between] *)

Section EveryBetween.
(** Seconds are floats in the source; nothing is assumed of them here but
    that they can be compared and added.  [to_timestamp] is
    [huey.utils.to_timestamp], which is not part of this file, and
    [total_seconds] is [timedelta.total_seconds]. *)
Variable float : Type.
Variable float_le : float -> float -> bool.
Variable float_add : float -> float -> float.
Variable total_seconds : Z -> float.
Variable to_timestamp : Z -> float.

(** A naive [datetime] is a number of microseconds on the calendar's time
    line, a [timedelta] a number of microseconds, and a [datetime.time] the
    number of microseconds since midnight. *)
Definition day : Z := 86400000000.

(** [dt.replace(microsecond=0)]. *)
Definition replace_microsecond_0 (dt : Z) : Z := dt - dt mod 1000000.

(** [dt.time()]. *)
Definition time_of_day (dt : Z) : Z := dt mod day.

(** [combine]: [dt.replace(hour=t.hour, minute=t.minute, second=t.second)]. *)
Definition combine (dt t : Z) : Z :=
  dt - dt mod day + (t - t mod 1000000) + dt mod 1000000.

(** What the closure [validate_date] keeps from [every_between]. *)
Record window : Type := mkWindow {
  nsec : float;
  interval : Z;
  window_start : Z;
  window_end : Z;
  invert : bool
}.

(** [every_between] up to the definition of [validate_date];
    [datetime.time(0)] and [datetime.time(23, 59, 59)] are the defaults. *)
Definition every_between (interval : Z) (start end_ : option Z) : window :=
  let nsec := total_seconds interval in
  let start := match start with Some s => s | None => 0 end in
  let end_ := match end_ with Some e => e | None => 86399000000 end in
  if end_ <? start then mkWindow nsec interval end_ start true
  else mkWindow nsec interval start end_ false.

(** [while s < timestamp: s += interval]; [None] when the fuel runs out. *)
Fixpoint catch_up (fuel : nat) (s timestamp interval : Z) : option Z :=
  if s <? timestamp then
    match fuel with
    | O => None
    | S fuel => catch_up fuel (s + interval) timestamp interval
    end
  else Some s.

(** [while validate_date._next <= ts: validate_date._next += nsec]. *)
Fixpoint skip_past (fuel : nat) (next ts nsec : float) : option float :=
  if float_le next ts then
    match fuel with
    | O => None
    | S fuel => skip_past fuel (float_add next nsec) ts nsec
    end
  else Some next.

Definition in_range (c : window) (ts_time : Z) : bool :=
  if invert c
  then (ts_time <? window_start c) || (window_end c <=? ts_time)
  else (window_start c <=? ts_time) && (ts_time <? window_end c).

(** The closure [validate_date]: given the attribute [_next] it answers
    the truth value and the attribute as the call leaves it, or [None] when
    a loop is cut off. *)
Definition every_between_validate_date (c : window) (fuel : nat)
    (_next : option float) (timestamp : Z) : option (bool * option float) :=
  let timestamp := replace_microsecond_0 timestamp in
  let ts_time := time_of_day timestamp in
  if negb (in_range c ts_time) then Some (false, _next)
  else
    let initialized :=
      match _next with
      | Some next => Some next
      | None =>
          if invert c then
            let s := combine timestamp (window_end c) in
            let s := if ts_time <? window_start c then s - day else s in
            to_timestamp <$> catch_up fuel s timestamp (interval c)
          else
            let s := combine timestamp (window_start c) in
            to_timestamp <$> catch_up fuel s timestamp (interval c)
      end in
    match initialized with
    | None => None
    | Some next =>
        let ts := to_timestamp timestamp in
        if float_le next ts then
          match skip_past fuel next ts (nsec c) with
          | Some next => Some (true, Some next)
          | None => None
          end
        else Some (false, Some next)
    end.
End EveryBetween.

(** ** More worked inputs *)

(** [add(2, 3)] with an ETA a thousand ticks after the clock of [ex_world]. *)
Definition ex_later : Task :=
  mkTask ex_add_class "t-later" [VInt 2; VInt 3] [] (Some 2000) 0 0 None None.

(** A dispatcher with three pre-execute hooks: one that fails, one that
    cancels, one that lets the task through. *)
Definition ex_huey_veto : Huey :=
  mkHuey "huey" true false false
    [ ("log", fun _ => Some (ValueError "x"));
      ("veto", fun _ => Some CancelExecution);
      ("late", fun _ => None) ]
    [].

(** A dispatcher whose hooks fail with ordinary exceptions. *)
Definition ex_huey_noisy : Huey :=
  mkHuey "huey" true false false
    [ ("log", fun _ => Some (ValueError "x")) ]
    [ ("after", fun _ _ _ => Some (ValueError "y")) ].

(** A dispatcher that keeps no results. *)
Definition ex_huey_quiet : Huey := mkHuey "huey" false false false [] [].

(** A task that is interrupted, with a retry left. *)
Definition ex_interrupt_class : TaskClass :=
  mkTaskClass "slow" false (fun _ _ => Raises KeyboardInterrupt "tb").
Definition ex_interrupt : Task :=
  mkTask ex_interrupt_class "t-slow" [] [] None 1 0 None None.

(** A task whose body returns [None]. *)
Definition ex_none_class : TaskClass :=
  mkTaskClass "quiet" false (fun _ _ => Returns VNone).
Definition ex_none : Task :=
  mkTask ex_none_class "t-quiet" [] [] None 0 0 None None.

(** The wrapper of [add], a lock, and a draw of ids. *)
Definition ex_add_wrapper : TaskWrapper := mkTaskWrapper ex_add_class 0 0 None None.
Definition ex_lock : TaskLock := mkTaskLock "x" "huey.lock.x".
Definition ex_uuids (n : nat) : string := "id-" +:+ Cron.str (Z.of_nat n).

(** Whole seconds for floats, and a validator for every minute of the day. *)
Definition ex_seconds (microseconds : Z) : Z := microseconds / 1000000.
Definition ex_every_minute : window Z :=
  every_between Z ex_seconds 60000000 None None.

(** * Properties *)

(** ** Revocation (section 4.6 of the spec) *)

Lemma set_storage_same (w : World) : set_storage w (storage w) = w.
Proof. by destruct w. Qed.

Lemma storage_eta (st : Storage) :
  mkStorage (queue st) (schedule st) (data st) = st.
Proof. by destruct st. Qed.

Lemma instance_key_not_class_key (i n : string) : "r:" +:+ i ≠ "rt:" +:+ n.
Proof. simpl. intros H. discriminate H. Qed.

(** [_check_revoked] on a well-formed record follows the decision table and
    leaves the world alone. *)
Lemma _check_revoked_spec (key : string) (r : option (option Z * bool))
    (now : Z) (peek : bool) (w : World) :
  data (storage w) !! key = stored_record r ->
  _check_revoked key (Some now) peek w = (Ok (spec_decide r now peek), w).
Proof.
  intros Hr.
  unfold _check_revoked, get, get_raw, with_storage, storage_peek_data, bind, ret.
  rewrite Hr, set_storage_same.
  destruct r as [[[u|] [|]]|]; simpl; try reflexivity.
  destruct (u <=? now); reflexivity.
Qed.

Lemma restore_key_spec (key : string) (w : World) :
  (do d <- get_raw key false;
   ret (match d with Some _ => true | None => false end)) w
  = (Ok (match data (storage w) !! key with Some _ => true | None => false end),
     spec_clear true key w).
Proof. reflexivity. Qed.

Lemma spec_clear_lookup_other (b : bool) (k k' : string) (w : World) :
  k ≠ k' ->
  data (storage (spec_clear b k w)) !! k' = data (storage w) !! k'.
Proof.
  intros Hne. destruct b; simpl; [|reflexivity].
  by rewrite lookup_delete_ne.
Qed.

Lemma is_revoked_class_spec (c : TaskClass) (rc : option (option Z * bool))
    (now : Z) (peek : bool) (w : World) :
  data (storage w) !! ("rt:" +:+ cls_name c) = stored_record rc ->
  is_revoked_class c (Some now) peek w
  = (Ok (fst (spec_decide rc now peek)),
     spec_clear (snd (spec_decide rc now peek)) ("rt:" +:+ cls_name c) w).
Proof.
  intros Hc. unfold is_revoked_class, bind.
  change (_task_key c "rt") with ("rt:" +:+ cls_name c).
  rewrite (_check_revoked_spec _ rc) by exact Hc.
  destruct (spec_decide rc now peek) as [revoked can_restore]. simpl.
  destruct can_restore; [|reflexivity].
  unfold restore_all.
  change (_task_key c "rt") with ("rt:" +:+ cls_name c).
  fold (bind (get_raw ("rt:" +:+ cls_name c) false)
             (fun d => ret (match d with Some _ => true | None => false end))).
  rewrite restore_key_spec. reflexivity.
Qed.

(** [is_revoked] on a task, put beside the table of the spec. *)
Lemma is_revoked_task_spec (t : Task) (ri rc : option (option Z * bool))
    (now : Z) (peek : bool) (w : World) :
  data (storage w) !! ("r:" +:+ id t) = stored_record ri ->
  data (storage w) !! ("rt:" +:+ cls_name (task_class t)) = stored_record rc ->
  is_revoked (OfTask t) (Some now) peek w
  = (Ok (fst (spec_is_revoked t ri rc now peek w)),
     snd (spec_is_revoked t ri rc now peek w)).
Proof.
  intros Hi Hc.
  unfold is_revoked, is_revoked_task, bind.
  change (revoke_id t) with ("r:" +:+ id t).
  rewrite (_check_revoked_spec _ ri) by exact Hi.
  unfold spec_is_revoked.
  destruct (spec_decide ri now peek) as [revoked_i restore_i].
  assert (Hrestore :
    (if restore_i then restore t else ret false) w
    = (Ok (if restore_i
           then match data (storage w) !! ("r:" +:+ id t) with
                | Some _ => true | None => false end
           else false),
       spec_clear restore_i ("r:" +:+ id t) w)).
  { destruct restore_i; reflexivity. }
  rewrite Hrestore.
  destruct revoked_i; cbn [negb].
  - reflexivity.
  - rewrite (is_revoked_class_spec _ rc).
    + destruct (spec_decide rc now peek); reflexivity.
    + rewrite spec_clear_lookup_other; [exact Hc|].
      apply instance_key_not_class_key.
Qed.

(** C1: for a task [t] and a timestamp [now], [is_revoked(t, now, peek)]
    follows the decision table of the spec.  With no record under
    ["r:" + id] the instance does not revoke; a record with [revoke_once]
    revokes and is deleted unless peeking; else a record whose
    [revoke_until <= now] does not revoke and is deleted unless peeking;
    otherwise the record revokes and is kept; and whenever the instance
    record does not revoke, the record under ["rt:" + class name] is put
    through the same table. *)
Theorem is_revoked_decision_table (t : Task) (ri rc : option (option Z * bool))
    (now : Z) (peek : bool) (w : World) :
  data (storage w) !! ("r:" +:+ id t) = stored_record ri ->
  data (storage w) !! ("rt:" +:+ cls_name (task_class t)) = stored_record rc ->
  is_revoked (OfTask t) (Some now) peek w
  = (Ok (fst (spec_is_revoked t ri rc now peek w)),
     snd (spec_is_revoked t ri rc now peek w)).
Proof. apply is_revoked_task_spec. Qed.

(** ** The world: bookkeeping *)

Lemma logged_nil (w : World) : logged [] w = w.
Proof. destruct w. unfold logged. simpl. by rewrite app_nil_r. Qed.

Lemma logged_logged (es1 es2 : list Event) (w : World) :
  logged es2 (logged es1 w) = logged (es1 ++ es2) w.
Proof. unfold logged. simpl. by rewrite app_assoc. Qed.

Lemma emit_event_eq (e : Event) (w : World) :
  emit_event e w = (Ok tt, logged [e] w).
Proof. reflexivity. Qed.

Lemma put_eq (key : string) (v : pyval) (w : World) :
  put key v w = (Ok tt, stored key v w).
Proof. reflexivity. Qed.

(** ** Hooks *)

Lemma _run_pre_execute_eq (hooks : list (string * (Task -> option exception)))
    (t : Task) (w : World) :
  _run_pre_execute hooks t w
  = (match pre_hook_stop hooks t with Some e => Raise e | None => Ok tt end,
     logged (pre_hook_events hooks t) w).
Proof.
  revert w. induction hooks as [|[name callback] rest IH]; intros w.
  - simpl. by rewrite logged_nil.
  - simpl. unfold bind, logger. rewrite !emit_event_eq, logged_logged.
    destruct (callback t) as [e|].
    + assert (Hswallow : is_Exception e = true -> e <> CancelExecution ->
        (do _ <- logger EXCEPTION
                   "Unhandled exception calling pre-execute hook %s for %s." t;
         _run_pre_execute rest t)
          (logged [Log DEBUG "Pre-execute hook %s for %s." t; PreHook name t] w)
        = (match pre_hook_stop rest t with Some e => Raise e | None => Ok tt end,
           logged (Log DEBUG "Pre-execute hook %s for %s." t :: PreHook name t ::
                   Log EXCEPTION
                     "Unhandled exception calling pre-execute hook %s for %s." t
                   :: pre_hook_events rest t) w)).
      { intros _ _. unfold bind, logger.
        rewrite emit_event_eq. cbv beta iota. rewrite IH, !logged_logged.
        reflexivity. }
      destruct e; try (apply Hswallow; [reflexivity|discriminate]).
      * unfold bind, logger, raise. rewrite emit_event_eq, logged_logged.
        reflexivity.
      * reflexivity.
      * reflexivity.
    + by rewrite IH, logged_logged.
Qed.

Lemma _run_post_execute_eq
    (hooks : list (string * (Task -> pyval -> option exception -> option exception)))
    (t : Task) (v : pyval) (exc : option exception) (w : World) :
  _run_post_execute hooks t v exc w
  = (match post_hook_stop hooks t v exc with Some e => Raise e | None => Ok tt end,
     logged (post_hook_events hooks t v exc) w).
Proof.
  revert w. induction hooks as [|[name callback] rest IH]; intros w.
  - simpl. by rewrite logged_nil.
  - simpl. unfold bind, logger. rewrite !emit_event_eq, logged_logged.
    destruct (callback t v exc) as [e|].
    + destruct (is_Exception e).
      * unfold bind. rewrite emit_event_eq, IH, !logged_logged.
        simpl. by rewrite <- ?app_assoc.
      * unfold raise. simpl. by rewrite ?app_nil_r.
    + by rewrite IH, logged_logged.
Qed.

(** The pre-execute phase: canceled, let through, or left by an exception
    that is no [Exception]. *)
Lemma _execute_pre_eq (h : Huey) (t : Task) (w : World) :
  _execute_pre h t w
  = match pre_hook_stop (_pre_execute h) t with
    | None => (Ok false, logged (pre_hook_events (_pre_execute h) t) w)
    | Some CancelExecution =>
        (Ok true, logged (pre_hook_events (_pre_execute h) t
                          ++ [Signal SIGNAL_CANCELED t None]) w)
    | Some e => (Raise e, logged (pre_hook_events (_pre_execute h) t) w)
    end.
Proof.
  unfold _execute_pre.
  destruct (_pre_execute h) as [|hook hooks] eqn:Hh.
  - simpl. by rewrite logged_nil.
  - unfold try_except, bind. rewrite _run_pre_execute_eq.
    destruct (pre_hook_stop (hook :: hooks) t) as [e|]; [|reflexivity].
    destruct e; try reflexivity.
    unfold _emit. rewrite emit_event_eq, logged_logged. reflexivity.
Qed.

Lemma _execute_post_eq (h : Huey) (t : Task) (v : pyval)
    (exc : option (exception * string)) (w : World) :
  _execute_post h t v exc w
  = (match post_hook_stop (_post_execute h) t v (fst <$> exc) with
     | Some e => Raise e
     | None => Ok tt
     end,
     logged (post_hook_events (_post_execute h) t v (fst <$> exc)) w).
Proof.
  unfold _execute_post.
  destruct (_post_execute h) as [|hook hooks] eqn:Hh.
  - simpl. by rewrite logged_nil.
  - apply _run_post_execute_eq.
Qed.

(** ** Enqueueing and scheduling outside immediate mode *)

Lemma enqueue_consumer (fuel : nat) (h : Huey) (t : Task) (w : World) :
  immediate h = false ->
  enqueue fuel h t w
  = (Ok (t, result_handle h t), queued t (logged [Signal SIGNAL_ENQUEUED t None] w)).
Proof.
  intros Hi. destruct fuel; simpl; rewrite Hi; reflexivity.
Qed.

Lemma add_schedule_eq (t : Task) (w : World) :
  add_schedule t w
  = (Ok tt, logged [Log INFO "Added task %s to schedule, eta %s" t;
                    Signal SIGNAL_SCHEDULED t None]
              (on_schedule t (default 0 (eta t)) w)).
Proof.
  unfold add_schedule, bind, with_storage, logger, _emit, emit_event, logged.
  destruct (eta t); simpl; by rewrite <- app_assoc.
Qed.

(** ** [_execute]: from the user function to the result-store step *)

Lemma _execute_raises (enq : Task -> M (Task * handle)) (h : Huey) (t : Task)
    (ts : Z) (w : World) (e : exception) (tb : string) :
  pre_hook_stop (_pre_execute h) t = None ->
  cls_func (task_class t) (args t) (kwargs t) = Raises e tb ->
  is_Exception e = true ->
  _execute enq h t ts w
  = _execute_finish enq h (except_task e t) VNone (Some (e, tb))
      (logged (pre_hook_events (_pre_execute h) t ++ Call t :: except_events e t) w).
Proof.
  intros Hpre Hbody He.
  unfold _execute, bind at 1. rewrite _execute_pre_eq, Hpre.
  unfold bind at 1. rewrite emit_event_eq, logged_logged, Hbody.
  destruct e; try discriminate He;
    cbn [is_Exception except_events except_task];
    unfold bind, logger, _emit;
    repeat (rewrite emit_event_eq; cbv beta iota);
    rewrite ?logged_logged, <- ?app_assoc; reflexivity.
Qed.

Lemma _execute_returns (enq : Task -> M (Task * handle)) (h : Huey) (t : Task)
    (ts : Z) (w : World) (v : pyval) :
  pre_hook_stop (_pre_execute h) t = None ->
  cls_func (task_class t) (args t) (kwargs t) = Returns v ->
  _execute enq h t ts w
  = _execute_finish enq h t v None
      (logged (pre_hook_events (_pre_execute h) t
               ++ [Call t; Log INFO "%s executed in %0.3fs" t;
                   Signal SIGNAL_COMPLETE t None]) w).
Proof.
  intros Hpre Hbody.
  unfold _execute, bind at 1. rewrite _execute_pre_eq, Hpre.
  unfold bind at 1. rewrite emit_event_eq, logged_logged, Hbody.
  unfold bind at 1, logger. rewrite emit_event_eq, logged_logged.
  unfold bind at 1, _emit. rewrite emit_event_eq, logged_logged.
  rewrite <- !app_assoc. reflexivity.
Qed.

(** ** [_execute]: result store, chain and retry *)

Lemma _execute_record_eq (h : Huey) (t : Task) (v : pyval)
    (exc : option (exception * string)) (w : World) :
  _execute_record h t v exc w = (Ok tt, recorded h t v exc w).
Proof.
  unfold _execute_record, recorded.
  destruct (results h && negb (isinstance_PeriodicTask t)); [|reflexivity].
  destruct exc as [[e tb]|]; [reflexivity|].
  destruct (negb (is_None v) || store_none h); reflexivity.
Qed.

Lemma _execute_chain_consumer (fuel : nat) (h : Huey) (t : Task) (v : pyval)
    (exc : option (exception * string)) (w : World) :
  immediate h = false ->
  _execute_chain (enqueue fuel h) t v exc w
  = (Ok (chained t v exc),
     match successor t v exc with Some next => enqueued next w | None => w end).
Proof.
  intros Hi. unfold _execute_chain, chained, successor, bind.
  destruct (on_complete t) as [n|], exc as [[e tb]|], (on_error t) as [n'|];
    rewrite ?enqueue_consumer by exact Hi; reflexivity.
Qed.

Lemma _execute_retry_consumer (fuel : nat) (h : Huey) (t : Task)
    (exc : option (exception * string)) (w : World) :
  immediate h = false ->
  _execute_retry (enqueue fuel h) t exc w
  = (Ok (if retries_left t exc then requeued t (clock w) else t), retried t exc w).
Proof.
  intros Hi. unfold _execute_retry, retried, retries_left, requeued.
  destruct exc as [x|]; [|reflexivity].
  destruct (retries t =? 0); [reflexivity|]. cbn [negb].
  unfold bind at 1, _emit. rewrite emit_event_eq.
  unfold bind at 1, _get_timestamp.
  unfold _requeue_task, bind at 1, logger. rewrite emit_event_eq, logged_logged.
  cbn [retry_delay set_retries].
  destruct (retry_delay t =? 0); cbn [negb].
  - unfold bind. rewrite enqueue_consumer by exact Hi. reflexivity.
  - unfold bind. rewrite add_schedule_eq. reflexivity.
Qed.

(** [_execute_finish] outside immediate mode, when no post-execute hook
    raises past the dispatcher. *)
Lemma _execute_finish_consumer (fuel : nat) (h : Huey) (t : Task) (v : pyval)
    (exc : option (exception * string)) (w : World) :
  immediate h = false ->
  post_hook_stop (_post_execute h) t v (fst <$> exc) = None ->
  _execute_finish (enqueue fuel h) h t v exc w
  = let w1 := logged (post_hook_events (_post_execute h) t v (fst <$> exc))
                     (recorded h t v exc w) in
    let w2 := match successor t v exc with
              | Some next => enqueued next w1
              | None => w1
              end in
    let t' := chained t v exc in
    (Ok (if retries_left t' exc then requeued t' (clock w2) else t', v),
     retried t' exc w2).
Proof.
  intros Hi Hpost. unfold _execute_finish.
  unfold bind at 1. rewrite _execute_record_eq.
  unfold bind at 1. rewrite _execute_post_eq, Hpost.
  unfold bind at 1. rewrite _execute_chain_consumer by exact Hi.
  unfold bind at 1. rewrite _execute_retry_consumer by exact Hi.
  reflexivity.
Qed.

(** ** What a call of [_execute] leaves behind outside immediate mode *)

Lemma trace_logged (es : list Event) (w : World) :
  trace (logged es w) = trace w ++ es.
Proof. reflexivity. Qed.

Lemma trace_recorded (h : Huey) (t : Task) (v : pyval)
    (exc : option (exception * string)) (w : World) :
  trace (recorded h t v exc w) = trace w.
Proof.
  unfold recorded.
  destruct (results h && negb (isinstance_PeriodicTask t)); [|reflexivity].
  destruct exc as [[e tb]|]; [reflexivity|].
  destruct (negb (is_None v) || store_none h); reflexivity.
Qed.

Lemma clock_recorded (h : Huey) (t : Task) (v : pyval)
    (exc : option (exception * string)) (w : World) :
  clock (recorded h t v exc w) = clock w.
Proof.
  unfold recorded.
  destruct (results h && negb (isinstance_PeriodicTask t)); [|reflexivity].
  destruct exc as [[e tb]|]; [reflexivity|].
  destruct (negb (is_None v) || store_none h); reflexivity.
Qed.

Lemma queue_recorded (h : Huey) (t : Task) (v : pyval)
    (exc : option (exception * string)) (w : World) :
  queue (storage (recorded h t v exc w)) = queue (storage w)
  /\ schedule (storage (recorded h t v exc w)) = schedule (storage w).
Proof.
  unfold recorded.
  destruct (results h && negb (isinstance_PeriodicTask t)); [|done].
  destruct exc as [[e tb]|]; [done|].
  destruct (negb (is_None v) || store_none h); done.
Qed.

(** The retry step touches neither the result store nor, when it
    schedules, the queue; the chain step touches only the queue. *)
Lemma data_retried (t : Task) (exc : option (exception * string)) (w : World) :
  data (storage (retried t exc w)) = data (storage w).
Proof.
  unfold retried. destruct (retries_left t exc); [|reflexivity].
  destruct (retry_delay t =? 0); reflexivity.
Qed.

Lemma data_enqueued (t : Task) (w : World) :
  data (storage (enqueued t w)) = data (storage w).
Proof. reflexivity. Qed.

Lemma queue_retried (t : Task) (exc : option (exception * string)) (w : World) :
  queue (storage (retried t exc w))
  = queue (storage w)
    ++ (if retries_left t exc && (retry_delay t =? 0)
        then [serialize_task (requeued t (clock w))] else []).
Proof.
  unfold retried. destruct (retries_left t exc); cbn [andb].
  - destruct (retry_delay t =? 0); simpl; [reflexivity|by rewrite app_nil_r].
  - by rewrite app_nil_r.
Qed.

Lemma schedule_retried (t : Task) (exc : option (exception * string)) (w : World) :
  schedule (storage (retried t exc w))
  = if retries_left t exc && negb (retry_delay t =? 0)
    then schedule_insert (clock w + retry_delay t)
           (serialize_task (requeued t (clock w))) (schedule (storage w))
    else schedule (storage w).
Proof.
  unfold retried. destruct (retries_left t exc); cbn [andb]; [|reflexivity].
  destruct (retry_delay t =? 0); reflexivity.
Qed.

Lemma trace_retried_prefix (t : Task) (exc : option (exception * string)) (w : World) :
  exists rest, trace (retried t exc w) = trace w ++ rest.
Proof.
  unfold retried. destruct (retries_left t exc).
  - destruct (retry_delay t =? 0); simpl; rewrite <- ?app_assoc; eauto.
  - exists []. by rewrite app_nil_r.
Qed.

Lemma retries_chained (t : Task) (v : pyval) (exc : option (exception * string)) :
  retries (chained t v exc) = retries t
  /\ retry_delay (chained t v exc) = retry_delay t
  /\ id (chained t v exc) = id t
  /\ task_class (chained t v exc) = task_class t.
Proof.
  unfold chained.
  destruct (on_complete t), exc as [[e tb]|], (on_error t); done.
Qed.

(** A failing call outside immediate mode, in full: the value returned, the
    head of the new trace, the result store, the queue and the schedule. *)
Lemma _execute_failure_consumer (fuel : nat) (h : Huey) (t : Task) (ts : Z)
    (w : World) (e : exception) (tb : string) :
  immediate h = false ->
  pre_hook_stop (_pre_execute h) t = None ->
  cls_func (task_class t) (args t) (kwargs t) = Raises e tb ->
  is_Exception e = true ->
  post_hook_stop (_post_execute h) (except_task e t) VNone (Some e) = None ->
  let t0 := except_task e t in
  let exc := Some (e, tb) in
  let t1 := chained t0 VNone exc in
  exists w',
    _execute (enqueue fuel h) h t ts w
    = (Ok (if retries_left t1 exc then requeued t1 (clock w) else t1, VNone), w')
    /\ (exists rest,
          trace w' = trace w ++ pre_hook_events (_pre_execute h) t
                     ++ Call t :: except_events e t ++ rest)
    /\ data (storage w') = data (storage (recorded h t0 VNone exc w))
    /\ queue (storage w')
       = queue (storage w)
         ++ match successor t0 VNone exc with
            | Some next => [serialize_task next]
            | None => []
            end
         ++ (if retries_left t1 exc && (retry_delay t1 =? 0)
             then [serialize_task (requeued t1 (clock w))] else [])
    /\ schedule (storage w')
       = (if retries_left t1 exc && negb (retry_delay t1 =? 0)
          then schedule_insert (clock w + retry_delay t1)
                 (serialize_task (requeued t1 (clock w))) (schedule (storage w))
          else schedule (storage w))
    /\ clock w' = clock w
    /\ (retries_left t1 exc = true ->
        In (Signal SIGNAL_RETRYING t1 None) (trace w')).
Proof.
  intros Hi Hpre Hbody He Hpost t0 exc t1.
  rewrite (_execute_raises _ _ _ _ _ e tb) by assumption.
  rewrite _execute_finish_consumer by assumption.
  cbv zeta. fold t0 exc t1.
  set (w0 := logged _ w).
  set (w1 := logged _ (recorded h t0 VNone exc w0)).
  set (w2 := match successor t0 VNone exc with
             | Some next => enqueued next w1 | None => w1 end).
  assert (Hclock : clock w2 = clock w).
  { unfold w2, w1. destruct (successor t0 VNone exc); simpl;
      by rewrite clock_recorded. }
  assert (Hdata : data (storage w2) = data (storage (recorded h t0 VNone exc w))).
  { unfold w2, w1, recorded, w0.
    destruct (successor t0 VNone exc);
      destruct (results h && negb (isinstance_PeriodicTask t0)); reflexivity. }
  assert (Hqueue : queue (storage w2)
                   = queue (storage w)
                     ++ match successor t0 VNone exc with
                        | Some next => [serialize_task next] | None => [] end).
  { unfold w2, w1. destruct (successor t0 VNone exc); simpl;
      rewrite (proj1 (queue_recorded _ _ _ _ _)); [reflexivity|by rewrite app_nil_r]. }
  assert (Hsched : schedule (storage w2) = schedule (storage w)).
  { unfold w2, w1. destruct (successor t0 VNone exc); simpl;
      by rewrite (proj2 (queue_recorded _ _ _ _ _)). }
  assert (Htrace : exists rest,
             trace w2 = trace w ++ pre_hook_events (_pre_execute h) t
                        ++ Call t :: except_events e t ++ rest).
  { unfold w2, w1. destruct (successor t0 VNone exc); simpl;
      rewrite trace_recorded; unfold w0; simpl;
      rewrite <- ?app_assoc; simpl; rewrite <- ?app_assoc; eauto. }
  exists (retried t1 exc w2). rewrite Hclock.
  split; [reflexivity|].
  split.
  { destruct Htrace as [rest Hrest].
    destruct (trace_retried_prefix t1 exc w2) as [rest' Hrest'].
    exists (rest ++ rest'). rewrite Hrest', Hrest.
    rewrite <- !app_assoc. simpl. by rewrite <- !app_assoc. }
  split; [by rewrite data_retried|].
  split; [by rewrite queue_retried, Hqueue, Hclock, <- app_assoc|].
  split; [by rewrite schedule_retried, Hsched, Hclock|].
  split.
  { unfold retried. destruct (retries_left t1 exc); [|exact Hclock].
    destruct (retry_delay t1 =? 0); exact Hclock. }
  intros Hleft. unfold retried. rewrite Hleft.
  destruct (retry_delay t1 =? 0); simpl;
    rewrite !in_app_iff; simpl; tauto.
Qed.

(** ** TaskLocked *)

(** C2, as stated, fails: with results enabled, a task that is not periodic
    and whose body raises [TaskLockedException] gets an Error record stored
    under its id. *)
Lemma TaskLocked_error_record_is_stored :
  results ex_huey = true
  /\ cls_func (task_class ex_locked) (args ex_locked) (kwargs ex_locked)
     = Raises (TaskLockedException "unable to set lock: x") "tb"
  /\ data (storage (snd (_execute (enqueue 0 ex_huey) ex_huey ex_locked 1000 ex_world)))
       !! id ex_locked
     = Some (serialize
               (VError "TaskLockedException('unable to set lock: x')" 1 "tb")).
Proof. repeat split; vm_compute; reflexivity. Qed.

(** [_execute_finish] in any mode: the result-store step comes first, and
    the hooks, the chain and the retry start from the world it leaves. *)
Lemma _execute_finish_recorded (enq : Task -> M (Task * handle)) (h : Huey)
    (t : Task) (v : pyval) (exc : option (exception * string)) (w : World) :
  _execute_finish enq h t v exc w
  = (do _ <- _execute_post h t v exc;
     do t <- _execute_chain enq t v exc;
     do t <- _execute_retry enq t exc;
     ret (t, v)) (recorded h t v exc w).
Proof.
  unfold _execute_finish. unfold bind at 1. by rewrite _execute_record_eq.
Qed.

(** C2, amended: when the body raises [TaskLockedException], [_execute]
    logs the warning and emits [LOCKED]; it stores an Error record with the
    exception's repr and the current retry counter under the task id when
    results are enabled and the task is not periodic, and leaves the result
    store alone otherwise (in any mode, before the post-execute hooks, the
    chain and the retry run); and it evaluates the retry policy: outside
    immediate mode, with a counter of zero nothing is requeued, otherwise the
    task goes back with the counter decremented, onto the queue when
    [retry_delay] is zero and onto the schedule at [now + retry_delay] when
    it is not. *)
Theorem TaskLocked_error_recorded_and_retried (h : Huey) (t : Task)
    (ts : Z) (w : World) (m tb : string) :
  pre_hook_stop (_pre_execute h) t = None ->
  cls_func (task_class t) (args t) (kwargs t) = Raises (TaskLockedException m) tb ->
  let e := TaskLockedException m in
  let exc := Some (e, tb) in
  let t1 := chained t VNone exc in
  let next := match successor t VNone exc with
              | Some n => [serialize_task n]
              | None => []
              end in
  let w0 := logged (pre_hook_events (_pre_execute h) t
                    ++ [Call t;
                        Log WARNING "Task %s not run, unable to acquire lock." t;
                        Signal SIGNAL_LOCKED t None]) w in
  (forall enq,
     _execute enq h t ts w
     = (do _ <- _execute_post h t VNone exc;
        do t <- _execute_chain enq t VNone exc;
        do t <- _execute_retry enq t exc;
        ret (t, VNone)) (recorded h t VNone exc w0))
  /\ data (storage (recorded h t VNone exc w0))
     = (if results h && negb (isinstance_PeriodicTask t)
        then <[id t := serialize (VError (repr e) (retries t) tb)]> (data (storage w))
        else data (storage w))
  /\ (immediate h = false ->
      post_hook_stop (_post_execute h) t VNone (Some e) = None ->
      forall fuel, exists t' w',
        _execute (enqueue fuel h) h t ts w = (Ok (t', VNone), w')
        /\ (exists rest, trace w' = trace w0 ++ rest)
        /\ data (storage w') = data (storage (recorded h t VNone exc w0))
        /\ (retries t = 0 ->
            t' = t1
            /\ queue (storage w') = queue (storage w) ++ next
            /\ schedule (storage w') = schedule (storage w))
        /\ (retries t <> 0 ->
            t' = requeued t1 (clock w)
            /\ retries t' = retries t - 1
            /\ if retry_delay t =? 0
               then queue (storage w') = queue (storage w) ++ next ++ [serialize_task t']
                    /\ schedule (storage w') = schedule (storage w)
               else queue (storage w') = queue (storage w) ++ next
                    /\ schedule (storage w')
                       = schedule_insert (clock w + retry_delay t) (serialize_task t')
                           (schedule (storage w)))).
Proof.
  intros Hpre Hbody e exc t1 next w0.
  assert (Hdata0 : data (storage (recorded h t VNone exc w0))
     = (if results h && negb (isinstance_PeriodicTask t)
        then <[id t := serialize (VError (repr e) (retries t) tb)]> (data (storage w))
        else data (storage w))).
  { unfold recorded. destruct (results h && negb (isinstance_PeriodicTask t)); reflexivity. }
  split.
  { intros enq. rewrite (_execute_raises _ _ _ _ _ e tb) by done.
    apply _execute_finish_recorded. }
  split; [exact Hdata0|].
  intros Hi Hpost fuel.
  destruct (_execute_failure_consumer fuel h t ts w e tb Hi Hpre Hbody eq_refl Hpost)
    as (w' & Hrun & Htrace & Hdata & Hqueue & Hsched & _ & _).
  cbn [except_task e] in Hrun, Hdata, Hqueue, Hsched.
  fold e exc t1 in Hrun, Hqueue, Hsched. fold next in Hqueue.
  destruct (retries_chained t VNone exc) as (Hr & Hd & _ & _).
  fold t1 in Hr, Hd.
  eexists _, w'. split; [exact Hrun|].
  split.
  { destruct Htrace as [rest Hrest]. exists rest. rewrite Hrest.
    unfold w0. simpl. by rewrite <- !app_assoc. }
  split.
  { rewrite Hdata0, Hdata. unfold recorded.
    destruct (results h && negb (isinstance_PeriodicTask t)); reflexivity. }
  unfold retries_left in *. rewrite Hr, Hd in *.
  split.
  - intros H0. rewrite H0 in *. cbn [Z.eqb negb andb] in *.
    rewrite Hqueue, Hsched. by rewrite app_nil_r.
  - intros Hne. apply Z.eqb_neq in Hne. rewrite Hne in *. cbn [negb andb] in *.
    split; [reflexivity|].
    split.
    { unfold requeued. cbn [set_retries retry_delay retries].
      destruct (retry_delay t1 =? 0); simpl; lia. }
    rewrite Hqueue, Hsched.
    destruct (retry_delay t =? 0); cbn [negb]; [done|by rewrite app_nil_r].
Qed.

(** ** RetryTask *)

(** C8: when the body raises [RetryTask] and the retry counter is zero,
    [_execute] sets the counter to one before the result-store step and the
    retry decision (in any mode), so the task is requeued, with the counter
    back at zero; when the counter is not zero it is left as it is at that
    point and the ordinary retry path requeues the task with the counter
    decremented.  Either way [RETRYING] is emitted and, outside immediate
    mode, the task goes onto the queue, or onto the schedule when it has a
    [retry_delay]. *)
Theorem RetryTask_forces_one_retry (h : Huey) (t : Task) (ts : Z)
    (w : World) (m tb : string) :
  pre_hook_stop (_pre_execute h) t = None ->
  cls_func (task_class t) (args t) (kwargs t) = Raises (RetryTask m) tb ->
  let t0 := if retries t =? 0 then set_retries t 1 else t in
  let exc := Some (RetryTask m, tb) in
  let t1 := chained t0 VNone exc in
  let next := match successor t0 VNone exc with
              | Some n => [serialize_task n]
              | None => []
              end in
  (forall enq,
     _execute enq h t ts w
     = _execute_finish enq h t0 VNone exc
         (logged (pre_hook_events (_pre_execute h) t
                  ++ [Call t; Log INFO "Task %s raised RetryTask, retrying." t]) w))
  /\ retries t0 = (if retries t =? 0 then 1 else retries t)
  /\ retries_left t0 exc = true
  /\ (immediate h = false ->
      post_hook_stop (_post_execute h) t0 VNone (Some (RetryTask m)) = None ->
      forall fuel, exists t' w',
        _execute (enqueue fuel h) h t ts w = (Ok (t', VNone), w')
        /\ In (Signal SIGNAL_RETRYING t1 None) (trace w')
        /\ t' = requeued t1 (clock w)
        /\ retries t' = (if retries t =? 0 then 0 else retries t - 1)
        /\ if retry_delay t =? 0
           then queue (storage w') = queue (storage w) ++ next ++ [serialize_task t']
                /\ schedule (storage w') = schedule (storage w)
           else queue (storage w') = queue (storage w) ++ next
                /\ schedule (storage w')
                   = schedule_insert (clock w + retry_delay t) (serialize_task t')
                       (schedule (storage w))).
Proof.
  intros Hpre Hbody t0 exc t1 next.
  assert (Ht0 : retries t0 = (if retries t =? 0 then 1 else retries t)).
  { unfold t0. destruct (retries t =? 0); reflexivity. }
  assert (Hd0 : retry_delay t0 = retry_delay t).
  { unfold t0. destruct (retries t =? 0); reflexivity. }
  assert (Hleft0 : retries_left t0 exc = true).
  { unfold retries_left, exc. rewrite Ht0.
    destruct (retries t =? 0) eqn:E; [reflexivity|by rewrite E]. }
  split.
  { intros enq. by rewrite (_execute_raises _ _ _ _ _ (RetryTask m) tb). }
  split; [exact Ht0|].
  split; [exact Hleft0|].
  intros Hi Hpost fuel.
  destruct (_execute_failure_consumer fuel h t ts w (RetryTask m) tb
              Hi Hpre Hbody eq_refl Hpost)
    as (w' & Hrun & _ & _ & Hqueue & Hsched & _ & Hsig).
  change (except_task (RetryTask m) t) with t0 in *.
  fold exc t1 in Hrun, Hqueue, Hsched, Hsig. fold next in Hqueue.
  destruct (retries_chained t0 VNone exc) as (Hr & Hd & _ & _).
  fold t1 in Hr, Hd.
  assert (Hleft : retries_left t1 exc = true).
  { unfold retries_left, exc in *. by rewrite Hr. }
  rewrite Hleft in *. cbn [andb] in *. rewrite Hd, Hd0 in *.
  eexists _, w'. split; [exact Hrun|].
  split; [by apply Hsig|].
  split; [reflexivity|].
  split.
  { unfold requeued. cbn [set_retries retry_delay retries]. rewrite Hr, Ht0.
    destruct (retry_delay t1 =? 0), (retries t =? 0); simpl; lia. }
  rewrite Hqueue, Hsched.
  destruct (retry_delay t =? 0); cbn [negb]; [done|by rewrite app_nil_r].
Qed.

(** ** Chains *)

Lemma setdefault_get (k k' : string) (v : pyval) (d : list (string * pyval)) :
  dict_get k (setdefault d k' v)
  = match dict_get k d with
    | Some x => Some x
    | None => if String.eqb k' k then Some v else None
    end.
Proof.
  induction d as [|[k0 v0] d IH]; simpl.
  - reflexivity.
  - destruct (String.eqb k0 k') eqn:E0; simpl.
    + destruct (String.eqb k0 k) eqn:E1; [reflexivity|].
      apply String.eqb_eq in E0. subst k0. rewrite E1.
      by destruct (dict_get k d).
    + destruct (String.eqb k0 k); [reflexivity|exact IH].
Qed.

(** Merging a mapping into the keyword arguments keeps every key that was
    there and adds the others. *)
Lemma merge_get (k : string) (d kw : list (string * pyval)) :
  dict_get k (fold_left (fun kw kv => setdefault kw (fst kv) (snd kv)) d kw)
  = match dict_get k kw with
    | Some x => Some x
    | None => dict_get k d
    end.
Proof.
  revert kw. induction d as [|[k0 v0] d IH]; intros kw; simpl.
  - by destruct (dict_get k kw).
  - rewrite IH, setdefault_get.
    destruct (dict_get k kw); [reflexivity|].
    by destruct (String.eqb k0 k).
Qed.

(** The [extend_data] rule. *)
Lemma extend_data_rule (t : Task) :
  extend_data t VNone = t
  /\ extend_data t (VTuple []) = t
  /\ (forall l, l <> [] -> extend_data t (VTuple l) = set_args t (args t ++ l))
  /\ (forall d,
        args (extend_data t (VDict d)) = args t
        /\ forall k, dict_get k (kwargs (extend_data t (VDict d)))
                     = match dict_get k (kwargs t) with
                       | Some x => Some x
                       | None => dict_get k d
                       end)
  /\ (forall data,
        match data with
        | VNone | VTuple _ | VDict _ => True
        | _ => extend_data t data = set_args t (args t ++ [data])
        end).
Proof.
  split; [reflexivity|]. split; [reflexivity|].
  split. { intros [|x l] Hl; [done|reflexivity]. }
  split. { intros d. split; [reflexivity|]. intros k. apply merge_get. }
  intros []; done.
Qed.

(** A successful call outside immediate mode, in full. *)
Lemma _execute_success_consumer (fuel : nat) (h : Huey) (t : Task) (ts : Z)
    (w : World) (v : pyval) :
  immediate h = false ->
  pre_hook_stop (_pre_execute h) t = None ->
  cls_func (task_class t) (args t) (kwargs t) = Returns v ->
  post_hook_stop (_post_execute h) t v None = None ->
  exists w',
    _execute (enqueue fuel h) h t ts w = (Ok (chained t v None, v), w')
    /\ trace w'
       = trace w ++ pre_hook_events (_pre_execute h) t
         ++ [Call t; Log INFO "%s executed in %0.3fs" t; Signal SIGNAL_COMPLETE t None]
         ++ post_hook_events (_post_execute h) t v None
         ++ match successor t v None with
            | Some next => [Signal SIGNAL_ENQUEUED next None]
            | None => []
            end
    /\ data (storage w') = data (storage (recorded h t v None w))
    /\ queue (storage w')
       = queue (storage w)
         ++ match successor t v None with
            | Some next => [serialize_task next]
            | None => []
            end
    /\ schedule (storage w') = schedule (storage w)
    /\ clock w' = clock w.
Proof.
  intros Hi Hpre Hbody Hpost.
  rewrite (_execute_returns _ _ _ _ _ v) by assumption.
  rewrite _execute_finish_consumer by assumption.
  cbv zeta. cbn [retries_left retried].
  eexists. split; [reflexivity|].
  destruct (queue_recorded h t v None
              (logged (pre_hook_events (_pre_execute h) t
                       ++ [Call t; Log INFO "%s executed in %0.3fs" t;
                           Signal SIGNAL_COMPLETE t None]) w)) as [Hq Hs].
  destruct (successor t v None); simpl;
    rewrite ?trace_recorded, ?clock_recorded, ?Hq, ?Hs; simpl;
    rewrite <- ?app_assoc, ?app_nil_r; simpl;
    (repeat split; try reflexivity);
    unfold recorded;
    destruct (results h && negb (isinstance_PeriodicTask t)); try reflexivity;
    destruct (negb (is_None v) || store_none h); reflexivity.
Qed.

(** A successful call of a task without [on_complete] never reaches
    [enqueue], so it is the same in every mode. *)
Lemma _execute_success_unchained (enq : Task -> M (Task * handle)) (h : Huey)
    (t : Task) (ts : Z) (w : World) (v : pyval) :
  pre_hook_stop (_pre_execute h) t = None ->
  cls_func (task_class t) (args t) (kwargs t) = Returns v ->
  post_hook_stop (_post_execute h) t v None = None ->
  on_complete t = None ->
  _execute enq h t ts w
  = (Ok (t, v),
     logged (post_hook_events (_post_execute h) t v None)
       (recorded h t v None
          (logged (pre_hook_events (_pre_execute h) t
                   ++ [Call t; Log INFO "%s executed in %0.3fs" t;
                       Signal SIGNAL_COMPLETE t None]) w))).
Proof.
  intros Hpre Hbody Hpost Hoc.
  rewrite (_execute_returns _ _ _ _ _ v) by assumption.
  rewrite _execute_finish_recorded.
  unfold bind at 1. rewrite _execute_post_eq.
  change (fst <$> @None (exception * string)) with (@None exception).
  rewrite Hpost. unfold _execute_chain. rewrite Hoc.
  by destruct (on_error t).
Qed.

(** A failing call of a task without an [on_error] continuation: the chain
    step calls nothing, whatever [on_complete] is, and the retry step
    follows. *)
Lemma _execute_failure_unchained (enq : Task -> M (Task * handle)) (h : Huey)
    (t : Task) (ts : Z) (w : World) (e : exception) (tb : string) :
  pre_hook_stop (_pre_execute h) t = None ->
  cls_func (task_class t) (args t) (kwargs t) = Raises e tb ->
  is_Exception e = true ->
  post_hook_stop (_post_execute h) (except_task e t) VNone (Some e) = None ->
  on_error t = None ->
  _execute enq h t ts w
  = (do t' <- _execute_retry enq (except_task e t) (Some (e, tb));
     ret (t', VNone))
      (logged (post_hook_events (_post_execute h) (except_task e t) VNone (Some e))
         (recorded h (except_task e t) VNone (Some (e, tb))
            (logged (pre_hook_events (_pre_execute h) t
                     ++ Call t :: except_events e t) w))).
Proof.
  intros Hpre Hbody He Hpost Hoe.
  assert (Hoe0 : on_error (except_task e t) = None).
  { unfold except_task. destruct e; try exact Hoe.
    destruct (retries t =? 0); exact Hoe. }
  rewrite (_execute_raises _ _ _ _ _ e tb) by assumption.
  rewrite _execute_finish_recorded.
  unfold bind at 1. rewrite _execute_post_eq.
  change (fst <$> Some (e, tb)) with (Some e).
  rewrite Hpost. unfold _execute_chain. rewrite Hoe0.
  by destruct (on_complete (except_task e t)).
Qed.

(** C4: after [_execute] of a task [a] that no hook cancels or interrupts.
    If the body returned [v] and [a.on_complete] is [b], then [b] is
    enqueued, with [v] merged by the [extend_data] rule, from the world in
    which [a]'s result has been recorded, and nothing else is enqueued (so
    not the [on_error] continuation, if there is one).  If the body
    returned and [a.on_complete] is not set, nothing is enqueued, whatever
    [a.on_error] is.  If the body raised [e] and [a.on_error] is [c], then
    [c] is enqueued with [e] appended to its arguments, again after the
    result-store step, and the [on_complete] continuation is not; only the
    retry of [a] itself may follow.  If the body raised and [a.on_error] is
    not set, no continuation is enqueued, whatever [a.on_complete] is; only
    the retry of [a] itself may follow.  The [extend_data] rule: [None] and
    the empty tuple add nothing, a tuple is appended to the arguments, a
    mapping is merged into the keyword arguments without touching the keys
    that are there, and any other value is appended to the arguments. *)
Theorem chain_continuations (h : Huey) (a : Task) (ts : Z) (w : World) :
  pre_hook_stop (_pre_execute h) a = None ->
  (forall b : Task,
      extend_data b VNone = b
      /\ extend_data b (VTuple []) = b
      /\ (forall l, l <> [] -> extend_data b (VTuple l) = set_args b (args b ++ l))
      /\ (forall d,
            args (extend_data b (VDict d)) = args b
            /\ forall k, dict_get k (kwargs (extend_data b (VDict d)))
                         = match dict_get k (kwargs b) with
                           | Some x => Some x
                           | None => dict_get k d
                           end)
      /\ (forall data,
            match data with
            | VNone | VTuple _ | VDict _ => True
            | _ => extend_data b data = set_args b (args b ++ [data])
            end))
  /\ (forall v b,
        cls_func (task_class a) (args a) (kwargs a) = Returns v ->
        on_complete a = Some b ->
        post_hook_stop (_post_execute h) a v None = None ->
        let w1 := logged (post_hook_events (_post_execute h) a v None)
                    (recorded h a v None
                       (logged (pre_hook_events (_pre_execute h) a
                                ++ [Call a; Log INFO "%s executed in %0.3fs" a;
                                    Signal SIGNAL_COMPLETE a None]) w)) in
        (forall enq,
            _execute enq h a ts w
            = (do '(b', _) <- enq (extend_data b v);
               ret (set_on_complete a (Some b'), v)) w1)
        /\ (immediate h = false -> forall fuel, exists w',
              _execute (enqueue fuel h) h a ts w
              = (Ok (set_on_complete a (Some (extend_data b v)), v), w')
              /\ queue (storage w')
                 = queue (storage w) ++ [serialize_task (extend_data b v)]
              /\ schedule (storage w') = schedule (storage w)
              /\ data (storage w') = data (storage (recorded h a v None w))))
  /\ (forall v,
        cls_func (task_class a) (args a) (kwargs a) = Returns v ->
        on_complete a = None ->
        post_hook_stop (_post_execute h) a v None = None ->
        let w1 := logged (post_hook_events (_post_execute h) a v None)
                    (recorded h a v None
                       (logged (pre_hook_events (_pre_execute h) a
                                ++ [Call a; Log INFO "%s executed in %0.3fs" a;
                                    Signal SIGNAL_COMPLETE a None]) w)) in
        (forall enq, _execute enq h a ts w = (Ok (a, v), w1))
        /\ queue (storage w1) = queue (storage w)
        /\ schedule (storage w1) = schedule (storage w))
  /\ (forall e tb c,
        cls_func (task_class a) (args a) (kwargs a) = Raises e tb ->
        is_Exception e = true ->
        on_error a = Some c ->
        post_hook_stop (_post_execute h) (except_task e a) VNone (Some e) = None ->
        let a0 := except_task e a in
        let exc := Some (e, tb) in
        let w1 := logged (post_hook_events (_post_execute h) a0 VNone (Some e))
                    (recorded h a0 VNone exc
                       (logged (pre_hook_events (_pre_execute h) a
                                ++ Call a :: except_events e a) w)) in
        (forall enq,
            _execute enq h a ts w
            = (do '(c', _) <- enq (extend_data c (VExc e));
               do a' <- _execute_retry enq (set_on_error a0 (Some c')) exc;
               ret (a', VNone)) w1)
        /\ (immediate h = false -> forall fuel, exists a' w',
              _execute (enqueue fuel h) h a ts w = (Ok (a', VNone), w')
              /\ queue (storage w')
                 = queue (storage w) ++ [serialize_task (extend_data c (VExc e))]
                   ++ (if negb (retries a0 =? 0) && (retry_delay a0 =? 0)
                       then [serialize_task a'] else [])))
  /\ (forall e tb,
        cls_func (task_class a) (args a) (kwargs a) = Raises e tb ->
        is_Exception e = true ->
        on_error a = None ->
        post_hook_stop (_post_execute h) (except_task e a) VNone (Some e) = None ->
        let a0 := except_task e a in
        let exc := Some (e, tb) in
        let w1 := logged (post_hook_events (_post_execute h) a0 VNone (Some e))
                    (recorded h a0 VNone exc
                       (logged (pre_hook_events (_pre_execute h) a
                                ++ Call a :: except_events e a) w)) in
        (forall enq,
            _execute enq h a ts w
            = (do a' <- _execute_retry enq a0 exc; ret (a', VNone)) w1)
        /\ queue (storage w1) = queue (storage w)
        /\ schedule (storage w1) = schedule (storage w)
        /\ (immediate h = false -> forall fuel, exists w',
              let a' := if negb (retries a0 =? 0) then requeued a0 (clock w) else a0 in
              _execute (enqueue fuel h) h a ts w = (Ok (a', VNone), w')
              /\ queue (storage w')
                 = queue (storage w)
                   ++ (if negb (retries a0 =? 0) && (retry_delay a0 =? 0)
                       then [serialize_task a'] else []))).
Proof.
  intros Hpre. split; [apply extend_data_rule|]. split; [|split; [|split]].
  - intros v b Hbody Hb Hpost w1. split.
    + intros enq. rewrite (_execute_returns _ _ _ _ _ v) by assumption.
      rewrite _execute_finish_recorded.
      unfold bind at 1. rewrite _execute_post_eq.
      change (fst <$> @None (exception * string)) with (@None exception).
      rewrite Hpost. fold w1.
      unfold _execute_chain. rewrite Hb. unfold bind.
      destruct (enq (extend_data b v) w1) as [[[b' hd]| |] w2]; reflexivity.
    + intros Hi fuel.
      destruct (_execute_success_consumer fuel h a ts w v Hi Hpre Hbody Hpost)
        as (w' & Hrun & _ & Hdata & Hqueue & Hsched & _).
      unfold chained, successor in *. rewrite Hb in *.
      exists w'. done.
  - intros v Hbody Hoc Hpost w1. split.
    + intros enq. by apply _execute_success_unchained.
    + unfold w1. change (storage (logged ?es ?x)) with (storage x).
      destruct (queue_recorded h a v None
                  (logged (pre_hook_events (_pre_execute h) a
                           ++ [Call a; Log INFO "%s executed in %0.3fs" a;
                               Signal SIGNAL_COMPLETE a None]) w)) as [Hq Hs].
      split; [exact Hq|exact Hs].
  - intros e tb c Hbody He Hc Hpost a0 exc w1.
    assert (Hc0 : on_error a0 = Some c).
    { unfold a0, except_task. destruct e; try exact Hc.
      destruct (retries a =? 0); exact Hc. }
    split.
    + intros enq. rewrite (_execute_raises _ _ _ _ _ e tb) by assumption.
      rewrite _execute_finish_recorded. fold a0 exc.
      unfold bind at 1. rewrite _execute_post_eq.
      change (fst <$> exc) with (Some e).
      fold a0 in Hpost. rewrite Hpost. fold w1.
      unfold _execute_chain. rewrite Hc0. unfold exc, bind.
      destruct (on_complete a0);
        destruct (enq (extend_data c (VExc e)) w1) as [[[c' hd]| |] w2];
        reflexivity.
    + intros Hi fuel.
      destruct (_execute_failure_consumer fuel h a ts w e tb Hi Hpre Hbody He Hpost)
        as (w' & Hrun & _ & _ & Hqueue & _).
      fold a0 exc in Hrun, Hqueue.
      destruct (retries_chained a0 VNone exc) as (Hr & Hd & _ & _).
      unfold retries_left, exc in Hrun, Hqueue. fold exc in Hrun, Hqueue.
      rewrite Hr, Hd in Hqueue. rewrite Hr in Hrun.
      assert (Hsucc : successor a0 VNone exc = Some (extend_data c (VExc e))).
      { unfold successor, exc. rewrite Hc0. by destruct (on_complete a0). }
      rewrite Hsucc in Hqueue.
      eexists _, w'. split; [exact Hrun|].
      rewrite Hqueue.
      destruct (retries a0 =? 0); reflexivity.
  - intros e tb Hbody He Hoe Hpost a0 exc w1.
    assert (Hoe0 : on_error a0 = None).
    { unfold a0, except_task. destruct e; try exact Hoe.
      destruct (retries a =? 0); exact Hoe. }
    split; [intros enq; by apply _execute_failure_unchained|].
    destruct (queue_recorded h a0 VNone exc
                (logged (pre_hook_events (_pre_execute h) a
                         ++ Call a :: except_events e a) w)) as [Hq Hs].
    split; [exact Hq|]. split; [exact Hs|].
    intros Hi fuel.
    destruct (_execute_failure_consumer fuel h a ts w e tb Hi Hpre Hbody He Hpost)
      as (w' & Hrun & _ & _ & Hqueue & _).
    fold a0 exc in Hrun, Hqueue.
    assert (Hch : chained a0 VNone exc = a0).
    { unfold chained, exc. rewrite Hoe0. by destruct (on_complete a0). }
    assert (Hsucc : successor a0 VNone exc = None).
    { unfold successor, exc. rewrite Hoe0. by destruct (on_complete a0). }
    rewrite Hch in Hrun, Hqueue. rewrite Hsucc in Hqueue.
    unfold retries_left, exc in Hrun, Hqueue.
    exists w'. cbv zeta. split; [exact Hrun|].
    rewrite Hqueue. simpl.
    destruct (negb (retries a0 =? 0)); reflexivity.
Qed.

(** ** Result handles *)

Lemma get_raw_peek (key : string) (w : World) :
  get_raw key true w = (Ok (data (storage w) !! key), w).
Proof.
  unfold get_raw, with_storage, storage_peek_data. by rewrite set_storage_same.
Qed.

Lemma get_raw_pop (key : string) (w : World) :
  get_raw key false w = (Ok (data (storage w) !! key), spec_clear true key w).
Proof. reflexivity. Qed.

(** A handle that holds a value answers from it and leaves the world alone. *)
Lemma _get_cached (r : Result) (v : pyval) (preserve : bool) (w : World) :
  _result r = Some v -> _get r preserve w = (Ok (r, Some v), w).
Proof. intros Hr. unfold _get. by rewrite Hr. Qed.

Lemma poll_cached (fuel : nat) (r : Result) (v : pyval) (start delay : Q)
    (timeout : option Q) (backoff max_delay : Q) (rot preserve : bool) (w : World) :
  _result r = Some v ->
  poll fuel r start delay timeout backoff max_delay rot preserve w = (Ok r, w).
Proof. intros Hr. destruct fuel; simpl; by rewrite Hr. Qed.

Lemma get_raw_result_cached (fuel : nat) (r : Result) (v : pyval) (blocking : bool)
    (timeout : option Q) (backoff max_delay : Q) (rot preserve : bool) (w : World) :
  _result r = Some v ->
  get_raw_result fuel r blocking timeout backoff max_delay rot preserve w
  = (Ok (r, v), w).
Proof.
  intros Hr. unfold get_raw_result. destruct blocking; cbn [negb].
  - unfold bind, time_time_now. rewrite (poll_cached _ _ v) by exact Hr.
    by rewrite Hr.
  - unfold bind. by rewrite (_get_cached _ v).
Qed.

(** A first read of a stored value: the handle keeps it, a peek leaves the
    store as it is and a pop deletes the key. *)
Lemma _get_first (r : Result) (v : pyval) (preserve : bool) (w : World) :
  _result r = None ->
  data (storage w) !! id (result_task r) = Some (serialize v) ->
  _get r preserve w
  = (Ok (set_result r (Some v), Some v),
     if preserve then w else spec_clear true (id (result_task r)) w).
Proof.
  intros Hr Hd. unfold _get. rewrite Hr. unfold bind.
  destruct preserve.
  - by rewrite get_raw_peek, Hd.
  - by rewrite get_raw_pop, Hd.
Qed.

Lemma _get_absent (r : Result) (preserve : bool) (w : World) :
  _result r = None ->
  data (storage w) !! id (result_task r) = None ->
  _get r preserve w
  = (Ok (r, None), if preserve then w else spec_clear true (id (result_task r)) w).
Proof.
  intros Hr Hd. unfold _get. rewrite Hr. unfold bind.
  destruct preserve.
  - by rewrite get_raw_peek, Hd.
  - by rewrite get_raw_pop, Hd.
Qed.

(** C10: a handle keeps the first value it retrieves.  Once a call of
    [_get] has answered with a stored value, with [preserve] true or false,
    the handle holds that value, and every later [_get], [get_raw_result]
    and [get] on it, blocking or not, answers from the handle and leaves the
    world untouched ([get] raising [TaskException] when the value is an
    Error record); this holds although a read with [preserve] false has
    removed the value from the result store. *)
Theorem result_handle_caches (r : Result) (preserve : bool) (w : World)
    (r' : Result) (v : pyval) (w' : World) :
  _get r preserve w = (Ok (r', Some v), w') ->
  _result r' = Some v
  /\ (_result r = None -> preserve = false ->
      data (storage w') !! id (result_task r) = None)
  /\ (forall preserve2 w2, _get r' preserve2 w2 = (Ok (r', Some v), w2))
  /\ (forall fuel blocking timeout backoff max_delay rot preserve2 w2,
        get_raw_result fuel r' blocking timeout backoff max_delay rot preserve2 w2
        = (Ok (r', v), w2)
        /\ Result_get fuel r' blocking timeout backoff max_delay rot preserve2 w2
           = (match v with
              | VError error retries traceback =>
                  Raise (TaskException error retries traceback)
              | _ => Ok (r', v)
              end, w2)).
Proof.
  intros Hget.
  assert (Hr' : _result r' = Some v /\
                (_result r = None -> preserve = false ->
                 data (storage w') !! id (result_task r) = None)).
  { unfold _get in Hget. destruct (_result r) as [v0|] eqn:Hr.
    - injection Hget as <- <- <-. split; [exact Hr|discriminate].
    - unfold bind in Hget. destruct preserve.
      + rewrite get_raw_peek in Hget.
        destruct (data (storage w) !! id (result_task r)) as [d|];
          [|discriminate]. injection Hget as <- <- <-. done.
      + rewrite get_raw_pop in Hget.
        destruct (data (storage w) !! id (result_task r)) as [d|];
          [|discriminate]. injection Hget as <- <- <-.
        split; [done|]. intros _ _. simpl. apply lookup_delete_eq. }
  destruct Hr' as [Hr' Hpop].
  split; [exact Hr'|]. split; [exact Hpop|].
  split; [intros; by apply _get_cached|].
  intros fuel blocking timeout backoff max_delay rot preserve2 w2.
  split; [by apply (get_raw_result_cached _ _ v)|].
  unfold Result_get, bind. rewrite (get_raw_result_cached _ _ v) by exact Hr'.
  by destruct v.
Qed.

(** ** A frame rule for the result store *)

Lemma keeps_ret {A} (key : string) (a : A) (Q : A -> Prop) :
  Q a -> keeps key (ret a) Q.
Proof. intros Ha w. split; [reflexivity|]. by intros a' [= <-]. Qed.

Lemma keeps_raise {A} (key : string) (e : exception) (Q : A -> Prop) :
  keeps key (raise e) Q.
Proof. intros w. split; [reflexivity|]. discriminate. Qed.

Lemma keeps_diverge {A} (key : string) (Q : A -> Prop) :
  keeps key diverge Q.
Proof. intros w. split; [reflexivity|]. discriminate. Qed.

Lemma keeps_bind {A B} (key : string) (m : M A) (k : A -> M B)
    (Q : A -> Prop) (R : B -> Prop) :
  keeps key m Q ->
  (forall a, Q a -> keeps key (k a) R) ->
  keeps key (bind m k) R.
Proof.
  intros Hm Hk w. unfold bind.
  destruct (Hm w) as [Hd Hq].
  destruct (m w) as [[a| |] w1]; simpl in *.
  - destruct (Hk a (Hq a eq_refl) w1) as [Hd' Hr].
    split; [by rewrite Hd'|exact Hr].
  - split; [exact Hd|discriminate].
  - split; [exact Hd|discriminate].
Qed.

Lemma keeps_weaken {A} (key : string) (m : M A) (Q Q' : A -> Prop) :
  (forall a, Q a -> Q' a) -> keeps key m Q -> keeps key m Q'.
Proof.
  intros HQ Hm w. destruct (Hm w) as [Hd Hq]. split; [exact Hd|]. eauto.
Qed.

Lemma keeps_emit_event (key : string) (ev : Event) :
  keeps key (emit_event ev) (fun _ => True).
Proof. intros w. done. Qed.

Lemma keeps__get_timestamp (key : string) :
  keeps key _get_timestamp (fun _ => True).
Proof. intros w. done. Qed.

Lemma keeps_add_schedule (key : string) (t : Task) :
  keeps key (add_schedule t) (fun _ => True).
Proof. intros w. rewrite add_schedule_eq. done. Qed.

Lemma keeps_try_except {A} (key : string) (m : M A)
    (handler : exception -> option (M A)) (Q : A -> Prop) :
  keeps key m Q ->
  (forall e k, handler e = Some k -> keeps key k Q) ->
  keeps key (try_except m handler) Q.
Proof.
  intros Hm Hh w. unfold try_except.
  destruct (Hm w) as [Hd Hq].
  destruct (m w) as [[a|e|] w1]; simpl in *; [done| |done].
  destruct (handler e) as [k|] eqn:E; [|done].
  destruct (Hh e k E w1) as [Hd' Hq']. split; [by rewrite Hd'|exact Hq'].
Qed.

(** [_check_revoked] only peeks: whatever it finds, the world is as it was. *)
Lemma _check_revoked_world (key : string) (ts : option Z) (peek : bool) (w : World) :
  snd (_check_revoked key ts peek w) = w.
Proof.
  unfold _check_revoked, get, bind. rewrite get_raw_peek.
  destruct (data (storage w) !! key) as [[v]|]; [|reflexivity].
  unfold ret at 1. cbn [deserialize].
  destruct (is_None v); [reflexivity|].
  unfold unpack2.
  destruct (iterate v) as [[|a [|b [|c l]]]|]; try reflexivity.
  unfold ret at 1.
  destruct (truthy b); [reflexivity|].
  destruct (is_None a); [reflexivity|].
  unfold datetime_le. destruct a, ts; try reflexivity.
  unfold ret at 1. by destruct (z <=? z0).
Qed.

Lemma keeps__check_revoked (key k : string) (ts : option Z) (peek : bool) :
  keeps key (_check_revoked k ts peek) (fun _ => True).
Proof. intros w. by rewrite _check_revoked_world. Qed.

Lemma keeps_pop (key k : string) :
  key <> k -> keeps key (get_raw k false) (fun _ => True).
Proof.
  intros Hne w. rewrite get_raw_pop. split; [|done].
  simpl. by rewrite lookup_delete_ne.
Qed.

Lemma keeps_is_revoked_class (key : string) (c : TaskClass) (ts : option Z)
    (peek : bool) :
  key <> "rt:" +:+ cls_name c ->
  keeps key (is_revoked_class c ts peek) (fun _ => True).
Proof.
  intros Hne. unfold is_revoked_class.
  apply (keeps_bind _ _ _ (fun _ => True)); [apply keeps__check_revoked|].
  intros [revoked can_restore] _.
  apply (keeps_bind _ _ _ (fun _ => True)); [|intros; by apply keeps_ret].
  destruct can_restore; [|by apply keeps_ret].
  unfold restore_all.
  apply (keeps_bind _ _ _ (fun _ => True)); [by apply keeps_pop|].
  intros; by apply keeps_ret.
Qed.

Lemma keeps_is_revoked_task (key : string) (t : Task) (ts : option Z) (peek : bool) :
  key <> "r:" +:+ id t ->
  key <> "rt:" +:+ cls_name (task_class t) ->
  keeps key (is_revoked_task t ts peek) (fun _ => True).
Proof.
  intros Hi Hc. unfold is_revoked_task.
  apply (keeps_bind _ _ _ (fun _ => True)); [apply keeps__check_revoked|].
  intros [revoked can_restore] _.
  apply (keeps_bind _ _ _ (fun _ => True)).
  { destruct can_restore; [|by apply keeps_ret].
    unfold restore.
    apply (keeps_bind _ _ _ (fun _ => True)); [by apply keeps_pop|].
    intros; by apply keeps_ret. }
  intros _ _. destruct (negb revoked); [by apply keeps_is_revoked_class|].
  by apply keeps_ret.
Qed.

(** *** What a task can reach does not change as it is passed along *)

Lemma touches_unfold (key : string) (t : Task) :
  touches key t
  <-> key = "r:" +:+ id t \/ key = "rt:" +:+ cls_name (task_class t)
      \/ (isinstance_PeriodicTask t = false /\ key = id t)
      \/ match on_complete t with Some next => touches key next | None => False end
      \/ match on_error t with Some next => touches key next | None => False end.
Proof. by destruct t. Qed.

Lemma touches_set_args (key : string) (t : Task) (a : list pyval) :
  touches key (set_args t a) <-> touches key t.
Proof. by destruct t. Qed.

Lemma touches_set_kwargs (key : string) (t : Task) (k : list (string * pyval)) :
  touches key (set_kwargs t k) <-> touches key t.
Proof. by destruct t. Qed.

Lemma touches_set_retries (key : string) (t : Task) (r : Z) :
  touches key (set_retries t r) <-> touches key t.
Proof. by destruct t. Qed.

Lemma touches_set_eta (key : string) (t : Task) (e : option Z) :
  touches key (set_eta t e) <-> touches key t.
Proof. by destruct t. Qed.

Lemma touches_extend_data (key : string) (t : Task) (v : pyval) :
  touches key (extend_data t v) <-> touches key t.
Proof.
  destruct v; try apply touches_set_args; try reflexivity.
  - destruct l; [reflexivity|apply touches_set_args].
  - apply touches_set_kwargs.
Qed.

Lemma touches_except_task (key : string) (e : exception) (t : Task) :
  touches key (except_task e t) <-> touches key t.
Proof.
  destruct e; try reflexivity. simpl.
  destruct (retries t =? 0); [apply touches_set_retries|reflexivity].
Qed.

Lemma touches_set_on_complete (key : string) (t next next' : Task) :
  on_complete t = Some next ->
  (touches key next' <-> touches key next) ->
  touches key (set_on_complete t (Some next')) <-> touches key t.
Proof.
  intros Hoc Hn. rewrite !touches_unfold. simpl. rewrite Hoc. tauto.
Qed.

Lemma touches_set_on_error (key : string) (t next next' : Task) :
  on_error t = Some next ->
  (touches key next' <-> touches key next) ->
  touches key (set_on_error t (Some next')) <-> touches key t.
Proof.
  intros Hoe Hn. rewrite !touches_unfold. simpl. rewrite Hoe. tauto.
Qed.

Lemma not_touches (key : string) (t : Task) :
  ~ touches key t ->
  key <> "r:" +:+ id t
  /\ key <> "rt:" +:+ cls_name (task_class t)
  /\ (isinstance_PeriodicTask t = true \/ key <> id t)
  /\ (forall next, on_complete t = Some next -> ~ touches key next)
  /\ (forall next, on_error t = Some next -> ~ touches key next).
Proof.
  rewrite touches_unfold. intros H.
  split; [tauto|]. split; [tauto|]. split.
  { destruct (isinstance_PeriodicTask t); [by left|right]. tauto. }
  split; intros next Hn; rewrite Hn in H; tauto.
Qed.

(** *** The frame rule through [_execute], [execute] and [enqueue] *)

Section Frame.
Variables (key : string) (h : Huey) (enq : Task -> M (Task * handle)).
Hypothesis Henq :
  forall t, ~ touches key t ->
            keeps key (enq t) (fun r => touches key (fst r) <-> touches key t).

Lemma keeps__execute_record (t : Task) (v : pyval) (exc : option (exception * string)) :
  isinstance_PeriodicTask t = true \/ key <> id t ->
  keeps key (_execute_record h t v exc) (fun _ => True).
Proof.
  intros Ht w. rewrite _execute_record_eq. split; [|done]. cbn [snd].
  unfold recorded. destruct Ht as [Hp|Hne].
  - by rewrite Hp, andb_false_r.
  - destruct (results h && negb (isinstance_PeriodicTask t)); [|reflexivity].
    destruct exc as [[e tb]|]; simpl.
    + by rewrite lookup_insert_ne.
    + destruct (negb (is_None v) || store_none h); simpl; [|reflexivity].
      by rewrite lookup_insert_ne.
Qed.

Lemma keeps__execute_post (t : Task) (v : pyval) (exc : option (exception * string)) :
  keeps key (_execute_post h t v exc) (fun _ => True).
Proof. intros w. rewrite _execute_post_eq. done. Qed.

Lemma keeps__execute_pre (t : Task) :
  keeps key (_execute_pre h t) (fun _ => True).
Proof.
  intros w. rewrite _execute_pre_eq.
  destruct (pre_hook_stop (_pre_execute h) t) as [e|]; [|done].
  destruct e; done.
Qed.

Lemma keeps__execute_chain (t : Task) (v : pyval) (exc : option (exception * string)) :
  ~ touches key t ->
  keeps key (_execute_chain enq t v exc) (fun t' => touches key t' <-> touches key t).
Proof.
  intros Ht. destruct (not_touches key t Ht) as (_ & _ & _ & Hoc & Hoe).
  unfold _execute_chain.
  destruct (on_complete t) as [n|] eqn:Eoc, exc as [[e tb]|],
           (on_error t) as [n'|] eqn:Eoe;
    try (by apply keeps_ret).
  - eapply keeps_bind.
    + apply Henq. intros Hx. apply touches_extend_data in Hx.
      by apply (Hoe n').
    + intros [n1 hd] Hn1. apply keeps_ret. cbn [fst] in Hn1.
      apply (touches_set_on_error key t n'); [exact Eoe|].
      etrans; [exact Hn1|apply touches_extend_data].
  - eapply keeps_bind.
    + apply Henq. intros Hx. apply touches_extend_data in Hx.
      by apply (Hoc n).
    + intros [n1 hd] Hn1. apply keeps_ret. cbn [fst] in Hn1.
      apply (touches_set_on_complete key t n); [exact Eoc|].
      etrans; [exact Hn1|apply touches_extend_data].
  - eapply keeps_bind.
    + apply Henq. intros Hx. apply touches_extend_data in Hx.
      by apply (Hoc n).
    + intros [n1 hd] Hn1. apply keeps_ret. cbn [fst] in Hn1.
      apply (touches_set_on_complete key t n); [exact Eoc|].
      etrans; [exact Hn1|apply touches_extend_data].
  - eapply keeps_bind.
    + apply Henq. intros Hx. apply touches_extend_data in Hx.
      by apply (Hoe n').
    + intros [n1 hd] Hn1. apply keeps_ret. cbn [fst] in Hn1.
      apply (touches_set_on_error key t n'); [exact Eoe|].
      etrans; [exact Hn1|apply touches_extend_data].
Qed.

(** On success only the [on_complete] continuation matters. *)
Lemma keeps__execute_chain_success (t : Task) (v : pyval) :
  (forall next, on_complete t = Some next -> ~ touches key next) ->
  keeps key (_execute_chain enq t v None) (fun _ => True).
Proof.
  intros Hoc. unfold _execute_chain.
  destruct (on_complete t) as [n|] eqn:Eoc.
  - eapply keeps_bind.
    + apply Henq. intros Hx. apply touches_extend_data in Hx.
      by apply (Hoc n).
    + intros [n1 hd] _. by apply keeps_ret.
  - destruct (on_error t); by apply keeps_ret.
Qed.

Lemma keeps__requeue_task (t : Task) (now : Z) :
  ~ touches key t ->
  keeps key (_requeue_task enq t now) (fun t' => touches key t' <-> touches key t).
Proof.
  intros Ht. unfold _requeue_task.
  apply (keeps_bind _ _ _ (fun _ => True)); [apply keeps_emit_event|].
  intros _ _. cbn [retry_delay set_retries].
  destruct (negb (retry_delay t =? 0)).
  - apply (keeps_bind _ _ _ (fun _ => True)); [apply keeps_add_schedule|].
    intros _ _. apply keeps_ret.
    etrans; [apply touches_set_eta|apply touches_set_retries].
  - eapply keeps_bind.
    + apply Henq. intros Hx. by apply touches_set_retries in Hx.
    + intros [t1 hd] Ht1. apply keeps_ret. cbn [fst] in Ht1.
      etrans; [exact Ht1|apply touches_set_retries].
Qed.

Lemma keeps__execute_retry (t : Task) (exc : option (exception * string)) :
  ~ touches key t ->
  keeps key (_execute_retry enq t exc) (fun t' => touches key t' <-> touches key t).
Proof.
  intros Ht. unfold _execute_retry.
  destruct exc as [x|]; [|by apply keeps_ret].
  destruct (negb (retries t =? 0)); [|by apply keeps_ret].
  apply (keeps_bind _ _ _ (fun _ => True)); [apply keeps_emit_event|].
  intros _ _.
  apply (keeps_bind _ _ _ (fun _ => True)); [apply keeps__get_timestamp|].
  intros now _. by apply keeps__requeue_task.
Qed.

Lemma keeps__execute_finish (t : Task) (v : pyval) (exc : option (exception * string)) :
  ~ touches key t ->
  keeps key (_execute_finish enq h t v exc)
        (fun r => touches key (fst r) <-> touches key t).
Proof.
  intros Ht. destruct (not_touches key t Ht) as (_ & _ & Hid & _).
  unfold _execute_finish.
  apply (keeps_bind _ _ _ (fun _ => True)); [by apply keeps__execute_record|].
  intros _ _.
  apply (keeps_bind _ _ _ (fun _ => True)); [apply keeps__execute_post|].
  intros _ _.
  eapply keeps_bind; [by apply keeps__execute_chain|].
  intros t1 Ht1. cbv beta in Ht1.
  eapply keeps_bind; [apply keeps__execute_retry; intros Hx; by apply Ht1 in Hx|].
  intros t2 Ht2. cbv beta in Ht2. apply keeps_ret. cbn [fst].
  etrans; [exact Ht2|exact Ht1].
Qed.

Lemma keeps__execute (t : Task) (ts : Z) :
  ~ touches key t ->
  keeps key (_execute enq h t ts) (fun r => touches key (fst r) <-> touches key t).
Proof.
  intros Ht. unfold _execute.
  apply (keeps_bind _ _ _ (fun _ => True)); [apply keeps__execute_pre|].
  intros canceled _. destruct canceled; [by apply keeps_ret|].
  apply (keeps_bind _ _ _ (fun _ => True)); [apply keeps_emit_event|].
  intros _ _.
  assert (Hfin : forall e tb,
             keeps key (_execute_finish enq h (except_task e t) VNone (Some (e, tb)))
                   (fun r => touches key (fst r) <-> touches key t)).
  { intros e tb. eapply keeps_weaken;
      [|apply keeps__execute_finish; intros Hx;
        by apply touches_except_task in Hx].
    intros r Hr. cbv beta in Hr.
    etrans; [exact Hr|apply touches_except_task]. }
  destruct (cls_func (task_class t) (args t) (kwargs t)) as [v|e tb].
  { apply (keeps_bind _ _ _ (fun _ => True)); [apply keeps_emit_event|].
    intros _ _.
    apply (keeps_bind _ _ _ (fun _ => True)); [apply keeps_emit_event|].
    intros _ _. by apply keeps__execute_finish. }
  destruct e; cbn [is_Exception];
    repeat (apply (keeps_bind _ _ _ (fun _ => True)); [apply keeps_emit_event|];
            intros _ _);
    try apply keeps_raise;
    try (by apply keeps_ret);
    match goal with
    | |- keeps _ (_execute_finish _ _ _ _ (Some (?e, ?tb))) _ => exact (Hfin e tb)
    end.
Qed.

Lemma keeps_execute (t : Task) (ts : option Z) :
  ~ touches key t ->
  keeps key (execute enq h t ts) (fun r => touches key (fst r) <-> touches key t).
Proof.
  intros Ht. destruct (not_touches key t Ht) as (Hri & Hrc & _).
  unfold execute.
  apply (keeps_bind _ _ _ (fun _ => True)).
  { destruct ts; [by apply keeps_ret|apply keeps__get_timestamp]. }
  intros now _.
  destruct (negb (ready_to_run t now)).
  { apply (keeps_bind _ _ _ (fun _ => True)); [apply keeps_add_schedule|].
    intros _ _. by apply keeps_ret. }
  apply (keeps_bind _ _ _ (fun _ => True)).
  { by apply keeps_is_revoked_task. }
  intros revoked _. destruct revoked.
  - apply (keeps_bind _ _ _ (fun _ => True)); [apply keeps_emit_event|].
    intros _ _.
    apply (keeps_bind _ _ _ (fun _ => True)); [apply keeps_emit_event|].
    intros _ _. by apply keeps_ret.
  - apply (keeps_bind _ _ _ (fun _ => True)); [apply keeps_emit_event|].
    intros _ _.
    apply (keeps_bind _ _ _ (fun _ => True)); [apply keeps_emit_event|].
    intros _ _. by apply keeps__execute.
Qed.
End Frame.

(** [enqueue], in either mode and with any fuel, leaves alone every key
    that the task and its continuations cannot reach. *)
Lemma keeps_enqueue (key : string) (h : Huey) (fuel : nat) :
  forall t, ~ touches key t ->
            keeps key (enqueue fuel h t)
                  (fun r => touches key (fst r) <-> touches key t).
Proof.
  induction fuel as [|fuel IH]; intros t Ht; cbn [enqueue].
  - apply (keeps_bind _ _ _ (fun _ => True)); [apply keeps_emit_event|].
    intros _ _. destruct (immediate h); [apply keeps_diverge|].
    apply (keeps_bind _ _ _ (fun _ => True)); [intros w; done|].
    intros _ _. by apply keeps_ret.
  - apply (keeps_bind _ _ _ (fun _ => True)); [apply keeps_emit_event|].
    intros _ _. destruct (immediate h).
    + eapply keeps_bind; [by apply keeps_execute|].
      intros [t1 v] Ht1. by apply keeps_ret.
    + apply (keeps_bind _ _ _ (fun _ => True)); [intros w; done|].
      intros _ _. by apply keeps_ret.
Qed.


Lemma data_recorded_logged (h : Huey) (t : Task) (v : pyval)
    (exc : option (exception * string)) (es : list Event) (w : World) :
  data (storage (recorded h t v exc (logged es w)))
  = data (storage (recorded h t v exc w)).
Proof.
  unfold recorded.
  destruct (results h && negb (isinstance_PeriodicTask t)); [|reflexivity].
  destruct exc as [[e tb]|]; [reflexivity|].
  destruct (negb (is_None v) || store_none h); reflexivity.
Qed.

(** C7: a task that is not periodic runs successfully with results enabled
    and returns a value [v] that is not [None].  Then [v] is stored under
    the task id when [_execute] is done (in immediate mode provided the
    [on_complete] continuation, which runs inside the call, cannot reach
    that key); [get()] with [preserve=False] on a fresh handle for that id
    returns [v] and removes it from the result store, so that [get()] on
    another fresh handle returns [None]; and [get()] with [preserve=True]
    returns [v] by a peek that leaves the world as it was. *)
Theorem result_returned_once (h : Huey) (t : Task) (ts : Z) (w : World) (v : pyval) :
  results h = true ->
  isinstance_PeriodicTask t = false ->
  v <> VNone ->
  (forall error retries traceback, v <> VError error retries traceback) ->
  pre_hook_stop (_pre_execute h) t = None ->
  cls_func (task_class t) (args t) (kwargs t) = Returns v ->
  post_hook_stop (_post_execute h) t v None = None ->
  immediate h = false
  \/ (forall next, on_complete t = Some next -> ~ touches (id t) next) ->
  forall fuel,
    let run := _execute (enqueue fuel h) h t ts w in
    let w1 := snd run in
    (immediate h = false \/ on_complete t = None -> exists t', fst run = Ok (t', v))
    /\ data (storage w1) !! id t = Some (serialize v)
    /\ forall r fuel' timeout backoff max_delay rot,
         _result r = None -> id (result_task r) = id t ->
         (exists r1 w2,
             Result_get fuel' r false timeout backoff max_delay rot false w1
             = (Ok (r1, v), w2)
             /\ data (storage w2) !! id t = None
             /\ forall r2, _result r2 = None -> id (result_task r2) = id t ->
                 exists w3,
                   Result_get fuel' r2 false timeout backoff max_delay rot false w2
                   = (Ok (r2, VNone), w3))
         /\ (exists r1,
               Result_get fuel' r false timeout backoff max_delay rot true w1
               = (Ok (r1, v), w1)).
Proof.
  intros Hres Hper Hv Herr Hpre Hbody Hpost Hmode fuel run w1.
  assert (Hok : immediate h = false \/ on_complete t = None ->
                exists t', fst run = Ok (t', v)).
  { unfold run. intros [Hi|Hoc].
    - destruct (_execute_success_consumer fuel h t ts w v Hi Hpre Hbody Hpost)
        as (w' & Hrun & _). rewrite Hrun. eauto.
    - rewrite (_execute_success_unchained _ _ _ _ _ v) by assumption. eauto. }
  assert (Hstored : data (storage w1) !! id t = Some (serialize v)).
  { unfold w1, run.
    rewrite (_execute_returns _ _ _ _ _ v) by assumption.
    rewrite _execute_finish_recorded.
    set (w0 := recorded h t v None _).
    assert (Hw0 : data (storage w0) !! id t = Some (serialize v)).
    { unfold w0, recorded. rewrite Hres, Hper. cbn [negb andb].
      destruct v; try done; simpl; apply lookup_insert_eq. }
    rewrite <- Hw0.
    assert (Henq : forall next, on_complete t = Some next ->
               keeps (id t) (enqueue fuel h (extend_data next v)) (fun _ => True)).
    { intros next Hnext. destruct Hmode as [Hi|Hreach].
      - intros w2. rewrite enqueue_consumer by exact Hi. done.
      - eapply keeps_weaken; [|apply keeps_enqueue]; [done|].
        intros Hx. apply touches_extend_data in Hx. by apply (Hreach next). }
    apply (keeps_bind _ _ _ (fun _ => True) (fun _ => True));
      [apply keeps__execute_post|].
    intros _ _.
    apply (keeps_bind _ _ _ (fun _ => True) (fun _ => True)).
    { unfold _execute_chain. destruct (on_complete t) as [n|] eqn:Eoc.
      - apply (keeps_bind _ _ _ (fun _ => True)); [by apply Henq|].
        intros [n1 hd] _. by apply keeps_ret.
      - destruct (on_error t); by apply keeps_ret. }
    intros t1 _.
    apply (keeps_bind _ _ _ (fun _ => True)); [by apply keeps_ret|].
    intros t2 _. by apply keeps_ret. }
  split; [exact Hok|]. split; [exact Hstored|].
  intros r fuel' timeout backoff max_delay rot Hr Hid.
  rewrite <- Hid in Hstored.
  split.
  - eexists _, _. split.
    + unfold Result_get, get_raw_result, bind. cbn [negb].
      rewrite (_get_first _ v) by assumption.
      destruct v; try reflexivity. by edestruct Herr.
    + split.
      * simpl. rewrite <- Hid. apply lookup_delete_eq.
      * intros r2 Hr2 Hid2. eexists.
        unfold Result_get, get_raw_result, bind. cbn [negb].
        rewrite _get_absent; [reflexivity|exact Hr2|].
        simpl. rewrite Hid2, <- Hid. apply lookup_delete_eq.
  - eexists. unfold Result_get, get_raw_result, bind. cbn [negb].
    rewrite (_get_first _ v) by assumption.
    destruct v; try reflexivity. by edestruct Herr.
Qed.

(** ** Periodic tasks *)

Lemma recorded_periodic (h : Huey) (t : Task) (v : pyval)
    (exc : option (exception * string)) (w : World) :
  isinstance_PeriodicTask t = true -> recorded h t v exc w = w.
Proof. intros Hp. unfold recorded. rewrite Hp. by rewrite andb_false_r. Qed.

(** Outside immediate mode, whatever the hooks do, [_execute_finish]
    changes the result store by its result-store step only. *)
Lemma _execute_finish_data_consumer (fuel : nat) (h : Huey) (t : Task) (v : pyval)
    (exc : option (exception * string)) (w : World) :
  immediate h = false ->
  data (storage (snd (_execute_finish (enqueue fuel h) h t v exc w)))
  = data (storage (recorded h t v exc w)).
Proof.
  intros Hi. rewrite _execute_finish_recorded.
  unfold bind at 1. rewrite _execute_post_eq.
  destruct (post_hook_stop (_post_execute h) t v (fst <$> exc)); [reflexivity|].
  unfold bind at 1. rewrite _execute_chain_consumer by exact Hi. cbv beta iota.
  unfold bind at 1. rewrite _execute_retry_consumer by exact Hi. cbv beta iota.
  unfold ret. cbn [snd]. rewrite data_retried.
  destruct (successor t v exc); reflexivity.
Qed.

(** Outside immediate mode a call of [_execute] on a periodic task leaves
    the result store as it found it, however the call ends. *)
Lemma _execute_periodic_data_consumer (fuel : nat) (h : Huey) (t : Task) (ts : Z)
    (w : World) :
  immediate h = false ->
  isinstance_PeriodicTask t = true ->
  data (storage (snd (_execute (enqueue fuel h) h t ts w))) = data (storage w).
Proof.
  intros Hi Hp.
  assert (Hfin : forall t' v exc w0,
             isinstance_PeriodicTask t' = true ->
             data (storage w0) = data (storage w) ->
             data (storage (snd (_execute_finish (enqueue fuel h) h t' v exc w0)))
             = data (storage w)).
  { intros t' v exc w0 Hp' Hw0.
    by rewrite _execute_finish_data_consumer, recorded_periodic. }
  unfold _execute, bind at 1. rewrite _execute_pre_eq.
  destruct (pre_hook_stop (_pre_execute h) t) as [e|].
  { destruct e; reflexivity. }
  unfold bind at 1. rewrite emit_event_eq.
  destruct (cls_func (task_class t) (args t) (kwargs t)) as [v|e tb].
  { unfold bind at 1, logger. rewrite emit_event_eq.
    unfold bind at 1, _emit. rewrite emit_event_eq.
    by apply Hfin. }
  destruct e; cbn [is_Exception];
    try (unfold bind at 1, logger; rewrite emit_event_eq;
         unfold bind at 1, _emit; rewrite emit_event_eq;
         by apply Hfin);
    try reflexivity.
  unfold bind at 1, logger. rewrite emit_event_eq.
  apply Hfin; [|reflexivity].
  unfold isinstance_PeriodicTask in *. by destruct (retries t =? 0).
Qed.

(** In any mode, for a periodic task, what is stored under a key changes
    during [_execute] only within the calls of [enqueue] that the chain and
    the retry make: if those leave the key alone, so does [_execute]. *)
Lemma _execute_periodic_frame (enq : Task -> M (Task * handle)) (h : Huey)
    (t : Task) (ts : Z) (w : World) (key : string) :
  isinstance_PeriodicTask t = true ->
  (forall t' w0, data (storage (snd (enq t' w0))) !! key = data (storage w0) !! key) ->
  data (storage (snd (_execute enq h t ts w))) !! key = data (storage w) !! key.
Proof.
  intros Hp Henq.
  assert (Hretry : forall t' exc w0,
             data (storage (snd (_execute_retry enq t' exc w0))) !! key
             = data (storage w0) !! key).
  { intros t' exc w0. unfold _execute_retry.
    destruct exc as [x|]; [|reflexivity].
    destruct (retries t' =? 0); [reflexivity|]. cbn [negb].
    unfold bind at 1, _emit. rewrite emit_event_eq.
    unfold bind at 1, _get_timestamp.
    unfold _requeue_task, bind at 1, logger. rewrite emit_event_eq, logged_logged.
    cbn [retry_delay set_retries].
    destruct (retry_delay t' =? 0); cbn [negb].
    - unfold bind. specialize (Henq (set_retries t' (retries t' - 1))
                                 (logged ([Signal SIGNAL_RETRYING t' None] ++
                                          [Log INFO "Requeueing %s, %s retries"
                                               (set_retries t' (retries t' - 1))]) w0)).
      destruct (enq _ _) as [[[t'' hd]| |] w']; exact Henq.
    - unfold bind. rewrite add_schedule_eq. reflexivity. }
  assert (Hfin : forall t' v exc w0,
             isinstance_PeriodicTask t' = true ->
             data (storage w0) !! key = data (storage w) !! key ->
             data (storage (snd (_execute_finish enq h t' v exc w0))) !! key
             = data (storage w) !! key).
  { intros t' v exc w0 Hp' Hw0.
    rewrite _execute_finish_recorded, recorded_periodic by exact Hp'.
    unfold bind at 1. rewrite _execute_post_eq.
    destruct (post_hook_stop (_post_execute h) t' v (fst <$> exc)); [exact Hw0|].
    unfold bind at 1.
    set (w1 := logged _ w0).
    assert (Hchain : data (storage (snd (_execute_chain enq t' v exc w1))) !! key
                     = data (storage w) !! key).
    { unfold _execute_chain.
      destruct (on_complete t') as [n|], exc as [[e0 tb0]|], (on_error t') as [n'|];
        try exact Hw0;
        unfold bind;
        match goal with
        | |- context [enq ?x ?y] =>
            specialize (Henq x y); destruct (enq x y) as [[[t'' hd]| |] w']
        end; simpl in *; by rewrite Henq. }
    destruct (_execute_chain enq t' v exc w1) as [[t1| |] w2]; try exact Hchain.
    unfold bind at 1. specialize (Hretry t1 exc w2).
    destruct (_execute_retry enq t1 exc w2) as [[t2| |] w3]; simpl in *;
      by rewrite Hretry. }
  unfold _execute, bind at 1. rewrite _execute_pre_eq.
  destruct (pre_hook_stop (_pre_execute h) t) as [e|].
  { destruct e; reflexivity. }
  unfold bind at 1. rewrite emit_event_eq.
  destruct (cls_func (task_class t) (args t) (kwargs t)) as [v|e tb].
  { unfold bind at 1, logger. rewrite emit_event_eq.
    unfold bind at 1, _emit. rewrite emit_event_eq.
    by apply Hfin. }
  destruct e; cbn [is_Exception];
    try (unfold bind at 1, logger; rewrite emit_event_eq;
         unfold bind at 1, _emit; rewrite emit_event_eq;
         by apply Hfin);
    try reflexivity.
  unfold bind at 1, logger. rewrite emit_event_eq.
  apply Hfin; [|reflexivity].
  unfold isinstance_PeriodicTask in *. by destruct (retries t =? 0).
Qed.

(** C9: for a periodic task the result-store step of [_execute] writes
    nothing, whatever [results] and [store_none] are and whether the body
    returned a value or raised.  So a call of [_execute], however it ends,
    leaves what is stored under the task id as it found it: in any mode,
    provided the tasks chained after it, which immediate mode runs inside the
    call, cannot reach that key; and outside immediate mode it leaves the
    whole result store as it found it.  Neither a return value nor an Error
    record appears under the task id. *)
Theorem periodic_task_never_stored (h : Huey) (t : Task) (ts : Z) (w : World) :
  isinstance_PeriodicTask t = true ->
  (forall v exc w0, _execute_record h t v exc w0 = (Ok tt, w0))
  /\ (forall enq,
        (forall t' w0,
            data (storage (snd (enq t' w0))) !! id t = data (storage w0) !! id t) ->
        data (storage (snd (_execute enq h t ts w))) !! id t
        = data (storage w) !! id t)
  /\ (~ touches (id t) t -> forall fuel,
        data (storage (snd (_execute (enqueue fuel h) h t ts w))) !! id t
        = data (storage w) !! id t)
  /\ (immediate h = false -> forall fuel,
        data (storage (snd (_execute (enqueue fuel h) h t ts w))) = data (storage w)).
Proof.
  intros Hp. split; [|split; [|split]].
  - intros v exc w0. by rewrite _execute_record_eq, recorded_periodic.
  - intros enq Henq. by apply _execute_periodic_frame.
  - intros Ht fuel.
    apply (keeps__execute (id t) h (enqueue fuel h) (keeps_enqueue (id t) h fuel)
             t ts Ht w).
  - intros Hi fuel. by apply _execute_periodic_data_consumer.
Qed.

(** ** Counting calls of the user function *)

Lemma calls_of_app (i : string) (l1 l2 : list Event) :
  calls_of i (l1 ++ l2) = (calls_of i l1 + calls_of i l2)%nat.
Proof. unfold calls_of. by rewrite List.filter_app, length_app. Qed.

Lemma calls_of_pre_hooks (i : string) (hooks : list (string * (Task -> option exception)))
    (t : Task) :
  calls_of i (pre_hook_events hooks t) = 0%nat.
Proof.
  induction hooks as [|[n cb] rest IH]; [reflexivity|].
  simpl. destruct (cb t) as [e|]; [|exact IH].
  destruct e; try exact IH; reflexivity.
Qed.

Lemma calls_of_post_hooks (i : string)
    (hooks : list (string * (Task -> pyval -> option exception -> option exception)))
    (t : Task) (v : pyval) (exc : option exception) :
  calls_of i (post_hook_events hooks t v exc) = 0%nat.
Proof.
  induction hooks as [|[n cb] rest IH]; [reflexivity|].
  simpl. destruct (cb t v exc) as [e|]; [|exact IH].
  destruct (is_Exception e); [exact IH|reflexivity].
Qed.

Lemma calls_of_except_events (i : string) (e : exception) (t : Task) :
  calls_of i (except_events e t) = 0%nat.
Proof. by destruct e. Qed.

Lemma calls_of_retried (i : string) (t : Task) (exc : option (exception * string))
    (w : World) :
  calls_of i (trace (retried t exc w)) = calls_of i (trace w).
Proof.
  unfold retried. destruct (retries_left t exc); [|reflexivity].
  destruct (retry_delay t =? 0); simpl;
    unfold calls_of; rewrite !List.filter_app, !length_app; simpl; lia.
Qed.

(** A failing call outside immediate mode calls the user function once. *)
Lemma _execute_failure_calls (fuel : nat) (h : Huey) (t : Task) (ts : Z)
    (w : World) (e : exception) (tb : string) (i : string) :
  immediate h = false ->
  pre_hook_stop (_pre_execute h) t = None ->
  cls_func (task_class t) (args t) (kwargs t) = Raises e tb ->
  is_Exception e = true ->
  post_hook_stop (_post_execute h) (except_task e t) VNone (Some e) = None ->
  calls_of i (trace (snd (_execute (enqueue fuel h) h t ts w)))
  = (calls_of i (trace w) + (if String.eqb (id t) i then 1 else 0))%nat.
Proof.
  intros Hi Hpre Hbody He Hpost.
  rewrite (_execute_raises _ _ _ _ _ e tb) by assumption.
  rewrite _execute_finish_consumer by assumption.
  cbv zeta. cbn [snd]. rewrite calls_of_retried.
  destruct (successor (except_task e t) VNone (Some (e, tb)));
    simpl; rewrite trace_recorded; simpl;
    rewrite !calls_of_app, calls_of_pre_hooks, calls_of_post_hooks;
    change (Call t :: except_events e t) with ([Call t] ++ except_events e t);
    rewrite !calls_of_app, calls_of_except_events;
    unfold calls_of; simpl; destruct (String.eqb (id t) i); simpl; lia.
Qed.

(** ** The consumer *)

Lemma id_not_revoke_id (i : string) : i <> "r:" +:+ i.
Proof.
  intros H. apply (f_equal String.length) in H.
  change (String.length i = S (S (String.length i))) in H. lia.
Qed.

(** [execute] on a task that is due and not revoked goes on to
    [_execute]. *)
Lemma execute_runs (enq : Task -> M (Task * handle)) (h : Huey) (t : Task)
    (w : World) :
  ready_to_run t (clock w) = true ->
  data (storage w) !! ("r:" +:+ id t) = None ->
  data (storage w) !! ("rt:" +:+ cls_name (task_class t)) = None ->
  execute enq h t None w
  = _execute enq h t (clock w)
      (logged [Log INFO "Executing %s" t; Signal SIGNAL_EXECUTING t None] w).
Proof.
  intros Hready Hi Hc.
  unfold execute, bind at 1, _get_timestamp. rewrite Hready. cbn [negb].
  unfold bind at 1.
  rewrite (is_revoked_task_spec t None None) by assumption.
  cbn [spec_is_revoked spec_decide spec_clear fst snd].
  unfold bind at 1, logger. rewrite emit_event_eq.
  unfold bind at 1, _emit. rewrite emit_event_eq, logged_logged.
  reflexivity.
Qed.

Lemma dequeue_cons (d : pickled Task) (q : list (pickled Task)) (w : World) :
  queue (storage w) = d :: q ->
  dequeue w
  = (Ok (Some (deserialize_task d)),
     set_storage w (mkStorage q (schedule (storage w)) (data (storage w)))).
Proof.
  intros Hq. unfold dequeue, bind, with_storage, storage_dequeue. by rewrite Hq.
Qed.

Lemma dequeue_nil (w : World) :
  queue (storage w) = [] -> dequeue w = (Ok None, w).
Proof.
  intros Hq. unfold dequeue, bind, with_storage, storage_dequeue. rewrite Hq.
  by rewrite set_storage_same.
Qed.

Lemma read_schedule_nil (w : World) :
  schedule (storage w) = [] -> read_schedule (Some (clock w)) w = (Ok [], w).
Proof.
  intros Hs. destruct w as [[q s d] tr c tt]. simpl in Hs. subst s.
  reflexivity.
Qed.

Lemma read_schedule_due (e : Z) (d : pickled Task) (w : World) :
  schedule (storage w) = [(e, d)] ->
  e <= clock w ->
  read_schedule (Some (clock w)) w
  = (Ok [deserialize_task d],
     set_storage w (mkStorage (queue (storage w)) [] (data (storage w)))).
Proof.
  intros Hs He. unfold read_schedule, bind, with_storage, storage_read_schedule, ret.
  rewrite Hs. rewrite !filter_cons, !filter_nil. simpl.
  rewrite decide_True by exact He.
  rewrite decide_False by (intros Hn; apply Hn; exact He).
  reflexivity.
Qed.

Lemma tick_eq (d : Z) (w : World) :
  tick d w = (Ok tt, mkWorld (storage w) (trace w) (clock w + d) (time_time w)).
Proof. reflexivity. Qed.

Lemma ready_to_run_later (t : Task) (now d : Z) :
  0 <= d -> ready_to_run t now = true -> ready_to_run t (now + d) = true.
Proof.
  unfold ready_to_run. destruct (eta t) as [e|]; [|done].
  intros Hd He. apply Z.leb_le. apply Z.leb_le in He. lia.
Qed.

(** A round on an idle broker does nothing but let time pass. *)
Lemma consumer_round_idle (fuel : nat) (h : Huey) (d : Z) (w : World) :
  idle w ->
  consumer_round fuel h d w
  = (Ok tt, mkWorld (storage w) (trace w) (clock w + d) (time_time w)).
Proof.
  intros [Hq Hs]. unfold consumer_round, bind at 1. rewrite tick_eq.
  set (w1 := mkWorld _ _ _ _).
  unfold bind at 1, scheduler_step, bind at 1, _get_timestamp, bind at 1.
  rewrite read_schedule_nil by exact Hs. simpl enqueue_all. unfold ret at 1.
  unfold worker_step, bind. by rewrite dequeue_nil.
Qed.

Lemma consumer_rounds_idle (fuel : nat) (h : Huey) (ds : list Z) (w : World) :
  idle w ->
  exists w', consumer_rounds fuel h ds w = (Ok tt, w')
             /\ idle w' /\ trace w' = trace w /\ data (storage w') = data (storage w).
Proof.
  revert w. induction ds as [|d ds IH]; intros w Hidle.
  - exists w. done.
  - simpl. unfold bind. rewrite consumer_round_idle by exact Hidle.
    destruct (IH (mkWorld (storage w) (trace w) (clock w + d) (time_time w)))
      as (w' & Hrun & Hidle' & Htr & Hd); [exact Hidle|].
    exists w'. done.
Qed.

(** A round on a broker that holds just [t] brings [t] to [execute], due and
    with the queue and the schedule empty. *)
Lemma consumer_round_pending (fuel : nat) (h : Huey) (t : Task) (d : Z) (w : World) :
  immediate h = false ->
  pending t w ->
  0 <= d -> retry_delay t <= d ->
  exists w2,
    consumer_round fuel h d w
    = (do _ <- execute (enqueue fuel h) h t None; ret tt) w2
    /\ idle w2
    /\ data (storage w2) = data (storage w)
    /\ clock w2 = clock w + d
    /\ (forall i, calls_of i (trace w2) = calls_of i (trace w))
    /\ ready_to_run t (clock w2) = true.
Proof.
  intros Hi Hpend Hd Hdelay.
  unfold consumer_round, bind at 1. rewrite tick_eq.
  set (w1 := mkWorld _ _ _ _).
  unfold bind at 1, scheduler_step, bind at 1, _get_timestamp, bind at 1.
  destruct Hpend as [(Hq & Hs & Hready)|(Hq & e & Hs & Heta & He)].
  - rewrite read_schedule_nil by exact Hs. simpl enqueue_all. unfold ret at 1.
    unfold worker_step, bind at 1.
    rewrite (dequeue_cons (serialize_task t) []) by exact Hq.
    eexists. split; [reflexivity|].
    split; [split; [reflexivity|exact Hs]|].
    split; [reflexivity|]. split; [reflexivity|]. split; [reflexivity|].
    simpl. by apply ready_to_run_later.
  - assert (He1 : e <= clock w1) by (simpl; lia).
    rewrite (read_schedule_due e (serialize_task t)) by assumption.
    simpl enqueue_all. unfold bind at 1.
    rewrite enqueue_consumer by exact Hi. unfold ret at 1.
    unfold worker_step, bind at 1.
    rewrite (dequeue_cons (serialize_task t) []) by (simpl; by rewrite Hq).
    eexists. split; [reflexivity|].
    split; [split; reflexivity|].
    split; [reflexivity|]. split; [reflexivity|]. split.
    + simpl. intros i. unfold calls_of. rewrite List.filter_app, length_app.
      simpl. lia.
    + simpl. unfold ready_to_run. rewrite Heta. apply Z.leb_le. exact He1.
Qed.

(** ** Retries until the counter runs out *)

Lemma except_task_other (e : exception) (t : Task) :
  (forall m, e <> RetryTask m) -> except_task e t = t.
Proof. intros Hne. destruct e; try reflexivity. by destruct (Hne msg). Qed.

Lemma same_work_refl (t : Task) : same_work t t.
Proof. by repeat split. Qed.

Lemma same_work_trans (t1 t2 t3 : Task) :
  same_work t1 t2 -> same_work t2 t3 -> same_work t1 t3.
Proof.
  intros (? & ? & ? & ? & ? & ? & ?) (? & ? & ? & ? & ? & ? & ?).
  repeat split; congruence.
Qed.

Section Retries.
Variables (fuel : nat) (h : Huey) (e : exception) (tb : string).
Hypothesis Hconsumer : immediate h = false.
Hypothesis Hresults : results h = true.
Hypothesis Hpre : forall t, pre_hook_stop (_pre_execute h) t = None.
Hypothesis Hpost : forall t v exc, post_hook_stop (_post_execute h) t v exc = None.
Hypothesis He : is_Exception e = true.
Hypothesis Hnot_retry : forall m, e <> RetryTask m.

(** One round on a broker that holds just the failing task [t]: the body
    is called once, the Error record carries the counter of this attempt,
    and the task is pending again with one retry less, or, when the counter
    was zero, the broker is idle. *)
Lemma failing_round (t : Task) (d : Z) (w : World) :
  isinstance_PeriodicTask t = false ->
  cls_func (task_class t) (args t) (kwargs t) = Raises e tb ->
  on_error t = None ->
  pending t w -> unrevoked t w ->
  0 <= d -> retry_delay t <= d ->
  exists w',
    consumer_round fuel h d w = (Ok tt, w')
    /\ calls_of (id t) (trace w') = S (calls_of (id t) (trace w))
    /\ data (storage w')
       = <[id t := serialize (VError (repr e) (retries t) tb)]> (data (storage w))
    /\ if retries t =? 0 then idle w'
       else exists t', same_work t t' /\ retries t' = retries t - 1 /\ pending t' w'.
Proof.
  intros Hper Hbody Hoe Hpend [Hri Hrc] Hd Hdelay.
  destruct (consumer_round_pending fuel h t d w Hconsumer Hpend Hd Hdelay)
    as (w2 & Hround & [Hq2 Hs2] & Hdata2 & Hclock2 & Hcalls2 & Hready2).
  rewrite Hround. unfold bind at 1.
  rewrite execute_runs by (try exact Hready2; by rewrite Hdata2).
  set (w3 := logged _ w2).
  pose proof (_execute_failure_calls fuel h t (clock w2) w3 e tb (id t)
                Hconsumer (Hpre t) Hbody He (Hpost _ _ _)) as Hcalls.
  destruct (_execute_failure_consumer fuel h t (clock w2) w3 e tb
              Hconsumer (Hpre t) Hbody He (Hpost _ _ _))
    as (w' & Hrun & _ & Hdata & Hqueue & Hsched & Hclock & _).
  rewrite Hrun in Hcalls |- *. cbn [snd] in Hcalls.
  rewrite (except_task_other e t Hnot_retry) in Hdata, Hqueue, Hsched.
  assert (Hchained : chained t VNone (Some (e, tb)) = t).
  { unfold chained. rewrite Hoe. by destruct (on_complete t). }
  assert (Hsucc : successor t VNone (Some (e, tb)) = None).
  { unfold successor. rewrite Hoe. by destruct (on_complete t). }
  rewrite Hchained in Hqueue, Hsched. rewrite Hsucc in Hqueue.
  exists w'. split; [reflexivity|].
  split.
  { rewrite Hcalls. unfold w3. simpl.
    unfold calls_of at 1. rewrite List.filter_app, length_app. simpl.
    fold (calls_of (id t) (trace w2)). rewrite Hcalls2, String.eqb_refl. lia. }
  split.
  { rewrite Hdata. unfold recorded, w3. rewrite Hresults, Hper. simpl.
    by rewrite Hdata2. }
  change (queue (storage w3)) with (queue (storage w2)) in Hqueue.
  change (schedule (storage w3)) with (schedule (storage w2)) in Hsched.
  change (clock w3) with (clock w2) in Hqueue, Hsched, Hclock.
  rewrite Hq2 in Hqueue. rewrite Hs2 in Hsched.
  unfold retries_left in Hqueue, Hsched.
  destruct (retries t =? 0); cbn [negb andb] in Hqueue, Hsched.
  - split; assumption.
  - exists (requeued t (clock w2)).
    split.
    { unfold requeued. cbn [set_retries retry_delay].
      destruct (retry_delay t =? 0); by repeat split. }
    split.
    { unfold requeued. cbn [set_retries retry_delay].
      destruct (retry_delay t =? 0); reflexivity. }
    unfold pending. rewrite Hqueue, Hsched, Hclock.
    destruct (retry_delay t =? 0) eqn:Hrd; cbn [negb].
    + left. split; [reflexivity|]. split; [reflexivity|].
      unfold requeued. cbn [set_retries retry_delay]. rewrite Hrd.
      exact Hready2.
    + right. split; [reflexivity|].
      exists (clock w2 + retry_delay t). split; [reflexivity|].
      unfold requeued. cbn [set_retries retry_delay]. rewrite Hrd.
      split; [reflexivity|]. simpl. lia.
Qed.

(** Rounds on a broker that holds just the failing task [t] with [k]
    retries: after more than [k] rounds the body has been called [k + 1]
    times, the Error record carries a counter of zero and the broker is
    idle. *)
Lemma failing_rounds (k : nat) (t : Task) (ds : list Z) (w : World) :
  isinstance_PeriodicTask t = false ->
  cls_func (task_class t) (args t) (kwargs t) = Raises e tb ->
  on_error t = None ->
  id t <> "rt:" +:+ cls_name (task_class t) ->
  retries t = Z.of_nat k ->
  pending t w -> unrevoked t w ->
  Forall (fun d => 0 <= d /\ retry_delay t <= d) ds ->
  (k < length ds)%nat ->
  exists w',
    consumer_rounds fuel h ds w = (Ok tt, w')
    /\ calls_of (id t) (trace w') = (calls_of (id t) (trace w) + (k + 1))%nat
    /\ data (storage w') !! id t = Some (serialize (VError (repr e) 0 tb))
    /\ idle w'.
Proof.
  revert t ds w.
  induction k as [|k IH]; intros t ds w Hper Hbody Hoe Hid Hk Hpend Hunrev Hds Hlen.
  - destruct ds as [|d ds]; [simpl in Hlen; lia|].
    apply Forall_cons in Hds as [[Hd Hdelay] _].
    destruct (failing_round t d w Hper Hbody Hoe Hpend Hunrev Hd Hdelay)
      as (w1 & Hround & Hcalls & Hdata & Hnext).
    rewrite Hk in Hnext, Hdata. cbn [Z.of_nat Z.eqb] in Hnext.
    destruct (consumer_rounds_idle fuel h ds w1 Hnext)
      as (w' & Hrest & Hidle & Htrace & Hdata').
    exists w'. simpl. unfold bind. rewrite Hround.
    split; [exact Hrest|].
    split; [rewrite Htrace, Hcalls; lia|].
    split; [|exact Hidle].
    rewrite Hdata', Hdata. apply lookup_insert_eq.
  - destruct ds as [|d ds]; [simpl in Hlen; lia|].
    apply Forall_cons in Hds as [[Hd Hdelay] Hds].
    destruct (failing_round t d w Hper Hbody Hoe Hpend Hunrev Hd Hdelay)
      as (w1 & Hround & Hcalls & Hdata & Hnext).
    assert (Hne : (retries t =? 0) = false) by (apply Z.eqb_neq; lia).
    rewrite Hne in Hnext.
    destruct Hnext as (t' & (Hcls & Hid' & Hargs & Hkw & Hrd & Hoc & Hoe') & Hr' & Hpend').
    destruct Hunrev as [Hri Hrc].
    destruct (IH t' ds w1) as (w' & Hrest & Hcalls' & Hdata' & Hidle).
    + unfold isinstance_PeriodicTask in *. by rewrite Hcls.
    + by rewrite Hcls, Hargs, Hkw.
    + by rewrite Hoe'.
    + by rewrite Hid', Hcls.
    + rewrite Hr', Hk. lia.
    + exact Hpend'.
    + unfold unrevoked. rewrite Hid', Hcls, Hdata.
      split; (rewrite lookup_insert_ne; [assumption|]).
      * apply id_not_revoke_id.
      * exact Hid.
    + by rewrite Hrd.
    + simpl in Hlen. lia.
    + exists w'. simpl. unfold bind. rewrite Hround.
      split; [exact Hrest|].
      rewrite Hid' in Hcalls', Hdata'.
      split; [rewrite Hcalls', Hcalls; lia|].
      split; [exact Hdata'|exact Hidle].
Qed.
End Retries.

(** *** The same in immediate mode, where [enqueue] runs the task *)

Section ImmediateRetries.
Variables (h : Huey) (e : exception) (tb : string).
Hypothesis Himmediate : immediate h = true.
Hypothesis Hresults : results h = true.
Hypothesis Hpre : forall t, pre_hook_stop (_pre_execute h) t = None.
Hypothesis Hpost : forall t v exc, post_hook_stop (_post_execute h) t v exc = None.
Hypothesis He : is_Exception e = true.
Hypothesis Hnot_retry : forall m, e <> RetryTask m.

(** In immediate mode [enqueue] on a failing task that is due and not
    revoked comes to the retry step in the world [immediate_failed]. *)
Lemma immediate_enqueue_failing (fuel : nat) (t : Task) (w : World) :
  cls_func (task_class t) (args t) (kwargs t) = Raises e tb ->
  on_error t = None ->
  ready_to_run t (clock w) = true ->
  unrevoked t w ->
  enqueue (S fuel) h t w
  = (do t1 <- _execute_retry (enqueue fuel h) t (Some (e, tb));
     ret (t1, result_handle h t1))
      (logged (post_hook_events (_post_execute h) t VNone (Some e))
         (recorded h t VNone (Some (e, tb))
            (logged ([Signal SIGNAL_ENQUEUED t None;
                      Log INFO "Executing %s" t; Signal SIGNAL_EXECUTING t None]
                     ++ pre_hook_events (_pre_execute h) t
                     ++ Call t :: except_events e t) w))).
Proof.
  intros Hbody Hoe Hready [Hri Hrc].
  cbn [enqueue]. rewrite Himmediate.
  unfold bind at 1, _emit. rewrite emit_event_eq.
  unfold bind at 1. rewrite execute_runs by assumption.
  rewrite logged_logged.
  rewrite (_execute_raises _ _ _ _ _ e tb) by (try apply Hpre; assumption).
  rewrite (except_task_other e t Hnot_retry), logged_logged.
  rewrite _execute_finish_recorded.
  unfold bind at 1. rewrite _execute_post_eq, Hpost.
  unfold _execute_chain. rewrite Hoe.
  replace (match on_complete t with
           | Some _ | _ => ret t
           end) with (@ret Task t) by (by destruct (on_complete t)).
  unfold bind at 1, ret at 1.
  change (fst <$> Some (e, tb)) with (Some e).
  rewrite <- !app_assoc. cbn [app].
  unfold bind, ret.
  match goal with
  | |- context [_execute_retry ?enq ?t ?x ?w0] =>
      destruct (_execute_retry enq t x w0) as [[t1| |] w']
  end; reflexivity.
Qed.

Lemma calls_of_immediate_failed (t : Task) (w : World) :
  calls_of (id t)
    (trace (logged (post_hook_events (_post_execute h) t VNone (Some e))
              (recorded h t VNone (Some (e, tb))
                 (logged ([Signal SIGNAL_ENQUEUED t None;
                           Log INFO "Executing %s" t; Signal SIGNAL_EXECUTING t None]
                          ++ pre_hook_events (_pre_execute h) t
                          ++ Call t :: except_events e t) w))))
  = S (calls_of (id t) (trace w)).
Proof.
  rewrite trace_logged, trace_recorded, trace_logged.
  rewrite !calls_of_app, calls_of_pre_hooks, calls_of_post_hooks.
  change (Call t :: except_events e t) with ([Call t] ++ except_events e t).
  rewrite !calls_of_app, calls_of_except_events.
  unfold calls_of. simpl. rewrite String.eqb_refl. simpl. lia.
Qed.

(** In immediate mode one call of [enqueue] runs a failing task with [k]
    retries and no retry delay [k + 1] times, leaves the Error record with a
    counter of zero, and puts nothing on the queue or the schedule. *)
Lemma immediate_failing_runs (k : nat) :
  forall (fuel : nat) (t : Task) (w : World),
    isinstance_PeriodicTask t = false ->
    cls_func (task_class t) (args t) (kwargs t) = Raises e tb ->
    on_error t = None ->
    retry_delay t = 0 ->
    id t <> "rt:" +:+ cls_name (task_class t) ->
    retries t = Z.of_nat k ->
    ready_to_run t (clock w) = true ->
    unrevoked t w ->
    (k < fuel)%nat ->
    exists r w',
      enqueue fuel h t w = (Ok r, w')
      /\ calls_of (id t) (trace w') = (calls_of (id t) (trace w) + (k + 1))%nat
      /\ data (storage w') !! id t = Some (serialize (VError (repr e) 0 tb))
      /\ queue (storage w') = queue (storage w)
      /\ schedule (storage w') = schedule (storage w)
      /\ clock w' = clock w.
Proof.
  induction k as [|k IH];
    intros fuel t w Hper Hbody Hoe Hrd Hid Hk Hready Hunrev Hfuel;
    (destruct fuel as [|fuel]; [lia|]);
    rewrite immediate_enqueue_failing by assumption;
    pose proof (calls_of_immediate_failed t w) as Hcalls1;
    set (w1 := logged _ (recorded h t VNone (Some (e, tb)) _)) in *;
    assert (Hdata1 : data (storage w1)
                     = <[id t := serialize (VError (repr e) (retries t) tb)]>
                         (data (storage w)))
      by (unfold w1, recorded; rewrite Hresults, Hper; reflexivity);
    assert (Hrest1 : queue (storage w1) = queue (storage w)
                     /\ schedule (storage w1) = schedule (storage w)
                     /\ clock w1 = clock w)
      by (unfold w1, recorded; rewrite Hresults, Hper; done);
    unfold bind at 1, _execute_retry; rewrite Hk.
  - cbn [Z.of_nat Z.eqb negb]. unfold ret. eexists _, w1.
    split; [reflexivity|].
    split; [rewrite Hcalls1; lia|].
    split; [|exact Hrest1].
    rewrite Hdata1, Hk. apply lookup_insert_eq.
  - assert (Hne : (Z.of_nat (S k) =? 0) = false) by (apply Z.eqb_neq; lia).
    rewrite Hne. cbn [negb].
    unfold bind at 1, _emit. rewrite emit_event_eq.
    unfold bind at 1, _get_timestamp.
    unfold _requeue_task. cbn [retry_delay set_retries]. rewrite Hrd.
    cbn [Z.eqb negb].
    unfold bind at 1, logger. rewrite emit_event_eq, logged_logged.
    set (t' := set_retries t (retries t - 1)).
    set (w2 := logged _ w1).
    destruct Hunrev as [Hri Hrc].
    destruct (IH fuel t' w2) as (r & w' & Hrun & Hcalls & Hdata & Hq & Hs & Hc);
      try assumption.
    { unfold t'. simpl. lia. }
    { change (ready_to_run t (clock w1) = true).
      destruct Hrest1 as (_ & _ & ->). exact Hready. }
    { unfold unrevoked. change (data (storage w2)) with (data (storage w1)).
      change (id t') with (id t). change (task_class t') with (task_class t).
      rewrite Hdata1.
      split; (rewrite lookup_insert_ne; [assumption|]).
      - apply id_not_revoke_id.
      - exact Hid. }
    { lia. }
    unfold bind at 1. rewrite Hrun. destruct r as [t'' hd].
    unfold ret. eexists _, w'. split; [reflexivity|].
    change (id t') with (id t) in Hcalls, Hdata.
    split.
    { rewrite Hcalls. unfold w2. rewrite trace_logged, calls_of_app, Hcalls1.
      unfold calls_of at 2. simpl. lia. }
    split; [exact Hdata|].
    rewrite Hq, Hs, Hc. exact Hrest1.
Qed.
End ImmediateRetries.

(** *** The chain of attempts *)

Lemma requeued_fields (t : Task) (now : Z) :
  task_class (requeued t now) = task_class t
  /\ id (requeued t now) = id t
  /\ args (requeued t now) = args t
  /\ kwargs (requeued t now) = kwargs t
  /\ retry_delay (requeued t now) = retry_delay t
  /\ retries (requeued t now) = retries t - 1.
Proof.
  unfold requeued. cbn [set_retries retry_delay].
  destruct (retry_delay t =? 0); by repeat split.
Qed.

Lemma args_chained (t : Task) (v : pyval) (exc : option (exception * string)) :
  args (chained t v exc) = args t /\ kwargs (chained t v exc) = kwargs t.
Proof.
  unfold chained.
  destruct (on_complete t), exc as [[e tb]|], (on_error t); done.
Qed.

(** An attempt differs from the task in its counter, its ETA and the data
    merged into the continuation that was enqueued. *)
Lemma attempt_fields (e : exception) (tb : string) (nows : list Z) :
  (forall m, e <> RetryTask m) ->
  forall t,
    task_class (attempt e tb t nows) = task_class t
    /\ id (attempt e tb t nows) = id t
    /\ args (attempt e tb t nows) = args t
    /\ kwargs (attempt e tb t nows) = kwargs t
    /\ retry_delay (attempt e tb t nows) = retry_delay t
    /\ retries (attempt e tb t nows) = retries t - Z.of_nat (length nows).
Proof.
  intros Hnr. induction nows as [|now nows IH]; intros t.
  - simpl. repeat split. lia.
  - cbn [attempt length]. rewrite (except_task_other e t Hnr).
    destruct (IH (requeued (chained t VNone (Some (e, tb))) now))
      as (Hc & Hi & Ha & Hk & Hd & Hr).
    destruct (requeued_fields (chained t VNone (Some (e, tb))) now)
      as (Hc1 & Hi1 & Ha1 & Hk1 & Hd1 & Hr1).
    destruct (retries_chained t VNone (Some (e, tb))) as (Hr2 & Hd2 & Hi2 & Hc2).
    destruct (args_chained t VNone (Some (e, tb))) as (Ha2 & Hk2).
    repeat split; try congruence.
    rewrite Hr, Hr1, Hr2. lia.
Qed.

Lemma attempt_snoc (e : exception) (tb : string) (nows : list Z) (now : Z) :
  forall t,
    attempt e tb t (nows ++ [now])
    = requeued (chained (except_task e (attempt e tb t nows)) VNone (Some (e, tb))) now.
Proof.
  induction nows as [|n nows IH]; intros t; [reflexivity|].
  cbn [attempt app]. apply IH.
Qed.

(** *** A body that raises [RetryTask] every time *)

Section RetryTaskRounds.
Variables (fuel : nat) (h : Huey) (m tb : string).
Hypothesis Hconsumer : immediate h = false.
Hypothesis Hresults : results h = true.
Hypothesis Hpre : forall t, pre_hook_stop (_pre_execute h) t = None.
Hypothesis Hpost : forall t v exc, post_hook_stop (_post_execute h) t v exc = None.

(** One round on a broker that holds just [t]: the body is called once, the
    Error record carries a counter that is not zero, and the task is pending
    again. *)
Lemma retrying_round (t : Task) (d : Z) (w : World) :
  isinstance_PeriodicTask t = false ->
  cls_func (task_class t) (args t) (kwargs t) = Raises (RetryTask m) tb ->
  on_error t = None ->
  pending t w -> unrevoked t w ->
  0 <= d -> retry_delay t <= d ->
  exists w' t',
    consumer_round fuel h d w = (Ok tt, w')
    /\ calls_of (id t) (trace w') = S (calls_of (id t) (trace w))
    /\ data (storage w')
       = <[id t := serialize (VError (repr (RetryTask m))
                                (if retries t =? 0 then 1 else retries t) tb)]>
           (data (storage w))
    /\ same_work t t'
    /\ retries t' = (if retries t =? 0 then 0 else retries t - 1)
    /\ pending t' w'.
Proof.
  intros Hper Hbody Hoe Hpend [Hri Hrc] Hd Hdelay.
  destruct (consumer_round_pending fuel h t d w Hconsumer Hpend Hd Hdelay)
    as (w2 & Hround & [Hq2 Hs2] & Hdata2 & Hclock2 & Hcalls2 & Hready2).
  rewrite Hround. unfold bind at 1.
  rewrite execute_runs by (try exact Hready2; by rewrite Hdata2).
  set (w3 := logged _ w2).
  pose proof (_execute_failure_calls fuel h t (clock w2) w3 (RetryTask m) tb (id t)
                Hconsumer (Hpre t) Hbody eq_refl (Hpost _ _ _)) as Hcalls.
  destruct (_execute_failure_consumer fuel h t (clock w2) w3 (RetryTask m) tb
              Hconsumer (Hpre t) Hbody eq_refl (Hpost _ _ _))
    as (w' & Hrun & _ & Hdata & Hqueue & Hsched & Hclock & _).
  rewrite Hrun in Hcalls |- *. cbn [snd] in Hcalls.
  set (t0 := except_task (RetryTask m) t) in *.
  assert (Ht0 : same_work t t0
                /\ retries t0 = (if retries t =? 0 then 1 else retries t)
                /\ isinstance_PeriodicTask t0 = false).
  { unfold t0, except_task. destruct (retries t =? 0); by repeat split. }
  destruct Ht0 as ((Hcls0 & Hid0 & Hargs0 & Hkw0 & Hrd0 & Hoc0 & Hoe0) & Hr0 & Hper0).
  assert (Hchained : chained t0 VNone (Some (RetryTask m, tb)) = t0).
  { unfold chained. rewrite Hoe0, Hoe. by destruct (on_complete t0). }
  assert (Hsucc : successor t0 VNone (Some (RetryTask m, tb)) = None).
  { unfold successor. rewrite Hoe0, Hoe. by destruct (on_complete t0). }
  rewrite Hchained in Hqueue, Hsched. rewrite Hsucc in Hqueue.
  assert (Hleft : retries_left t0 (Some (RetryTask m, tb)) = true).
  { unfold retries_left. rewrite Hr0.
    destruct (retries t =? 0) eqn:E; [reflexivity|by rewrite E]. }
  rewrite Hleft in Hqueue, Hsched. cbn [andb] in Hqueue, Hsched.
  change (queue (storage w3)) with (queue (storage w2)) in Hqueue.
  change (schedule (storage w3)) with (schedule (storage w2)) in Hsched.
  change (clock w3) with (clock w2) in Hqueue, Hsched, Hclock.
  rewrite Hq2 in Hqueue. rewrite Hs2 in Hsched.
  destruct (requeued_fields t0 (clock w2)) as (Hc1 & Hi1 & Ha1 & Hk1 & Hd1 & Hr1).
  exists w', (requeued t0 (clock w2)). split; [reflexivity|].
  split.
  { rewrite Hcalls. unfold w3. simpl.
    unfold calls_of at 1. rewrite List.filter_app, length_app. simpl.
    fold (calls_of (id t) (trace w2)). rewrite Hcalls2, String.eqb_refl. lia. }
  split.
  { rewrite Hdata. unfold recorded, w3. rewrite Hresults, Hper0. simpl.
    by rewrite Hdata2, Hid0, Hr0. }
  split.
  { unfold requeued. cbn [set_retries retry_delay].
    destruct (retry_delay t0 =? 0); repeat split; simpl; congruence. }
  split.
  { rewrite Hr1, Hr0. destruct (retries t =? 0); lia. }
  unfold pending. rewrite Hqueue, Hsched, Hclock.
  destruct (retry_delay t0 =? 0) eqn:Hrd; cbn [negb app].
  - left. split; [reflexivity|]. split; [reflexivity|].
    unfold requeued. cbn [set_retries retry_delay]. rewrite Hrd.
    cbn [ready_to_run eta set_retries].
    unfold ready_to_run in Hready2 |- *.
    replace (eta (set_retries t0 (retries t0 - 1))) with (eta t); [exact Hready2|].
    unfold t0, except_task. by destruct (retries t =? 0).
  - right. split; [reflexivity|].
    exists (clock w2 + retry_delay t0). split; [reflexivity|].
    unfold requeued. cbn [set_retries retry_delay]. rewrite Hrd.
    split; [reflexivity|]. simpl. lia.
Qed.

(** Any number of rounds: each one calls the body, and the task is still
    pending after the last, its Error record never at a counter of zero. *)
Lemma retrying_rounds (ds : list Z) :
  forall (t : Task) (w : World),
    isinstance_PeriodicTask t = false ->
    cls_func (task_class t) (args t) (kwargs t) = Raises (RetryTask m) tb ->
    on_error t = None ->
    id t <> "rt:" +:+ cls_name (task_class t) ->
    0 <= retries t ->
    pending t w -> unrevoked t w ->
    Forall (fun d => 0 <= d /\ retry_delay t <= d) ds ->
    exists w' t',
      consumer_rounds fuel h ds w = (Ok tt, w')
      /\ calls_of (id t) (trace w') = (calls_of (id t) (trace w) + length ds)%nat
      /\ same_work t t' /\ pending t' w'
      /\ (ds <> [] ->
          exists r, 1 <= r
                    /\ data (storage w') !! id t
                       = Some (serialize (VError (repr (RetryTask m)) r tb))).
Proof.
  induction ds as [|d ds IH]; intros t w Hper Hbody Hoe Hid Hr Hpend Hunrev Hds.
  - exists w, t. split; [reflexivity|]. split; [simpl; lia|].
    split; [apply same_work_refl|]. split; [exact Hpend|]. done.
  - apply Forall_cons in Hds as [[Hd Hdelay] Hds].
    destruct (retrying_round t d w Hper Hbody Hoe Hpend Hunrev Hd Hdelay)
      as (w1 & t1 & Hround & Hcalls & Hdata & Hsame & Hr1 & Hpend1).
    pose proof Hsame as (Hcls & Hid' & Hargs & Hkw & Hrd & Hoc & Hoe').
    destruct Hunrev as [Hri Hrc].
    destruct (IH t1 w1) as (w' & t' & Hrest & Hcalls' & Hsame' & Hpend' & Hrec).
    + unfold isinstance_PeriodicTask in *. by rewrite Hcls.
    + by rewrite Hcls, Hargs, Hkw.
    + by rewrite Hoe'.
    + by rewrite Hid', Hcls.
    + rewrite Hr1. destruct (retries t =? 0) eqn:E; [lia|].
      apply Z.eqb_neq in E. lia.
    + exact Hpend1.
    + unfold unrevoked. rewrite Hid', Hcls, Hdata.
      split; (rewrite lookup_insert_ne; [assumption|]).
      * apply id_not_revoke_id.
      * exact Hid.
    + by rewrite Hrd.
    + exists w', t'. simpl. unfold bind. rewrite Hround.
      split; [exact Hrest|].
      rewrite Hid' in Hcalls', Hrec.
      split; [rewrite Hcalls', Hcalls; lia|].
      split; [by apply (same_work_trans t t1 t')|].
      split; [exact Hpend'|].
      intros _. destruct ds as [|d' ds'].
      * simpl in Hrest. injection Hrest as <-.
        eexists. split; [|rewrite Hdata; apply lookup_insert_eq].
        destruct (retries t =? 0) eqn:E; [lia|]. apply Z.eqb_neq in E. lia.
      * by apply Hrec.
Qed.
End RetryTaskRounds.

(** C3, as stated, fails: a body that deterministically raises [RetryTask]
    re-arms a counter of zero on every run, so with [retries = 0] it has run
    three times after three rounds, is still queued, and its Error record
    carries [retries = 1]. *)
Lemma RetryTask_body_runs_beyond_its_retries :
  retries ex_retry = 0
  /\ cls_func (task_class ex_retry) (args ex_retry) (kwargs ex_retry)
     = Raises (RetryTask "later") "tb"
  /\ exists w',
       (do _ <- enqueue 0 ex_huey ex_retry; consumer_rounds 0 ex_huey [0; 0; 0]) ex_world
       = (Ok tt, w')
       /\ calls_of (id ex_retry) (trace w') = 3%nat
       /\ queue (storage w') = [serialize_task ex_retry]
       /\ data (storage w') !! id ex_retry
          = Some (serialize (VError "RetryTask('later')" 1 "tb")).
Proof.
  split; [reflexivity|]. split; [reflexivity|].
  eexists. split; [vm_compute; reflexivity|].
  repeat split; vm_compute; reflexivity.
Qed.

(** The run of a task with an [on_error] continuation depends on that
    continuation, which the same consumer executes between the attempts on
    the same key-value store.  Here the id of the continuation is the
    revocation key of the task and its body returns a pair: the result
    stored for the continuation is read as a revocation of the task, so the
    task with [retries = 1] runs once, its retry is skipped, and the Error
    record keeps [retries = 1]. *)
Lemma continuation_can_revoke_the_task :
  retries ex_boom_vetoed = 1
  /\ cls_func (task_class ex_boom_vetoed) (args ex_boom_vetoed) (kwargs ex_boom_vetoed)
     = Raises (ValueError "x") "tb"
  /\ on_error ex_boom_vetoed = Some ex_veto
  /\ revoke_id ex_boom_vetoed = id ex_veto
  /\ exists w',
       (do _ <- enqueue 0 ex_huey ex_boom_vetoed;
        consumer_rounds 0 ex_huey [0; 0; 0; 0]) ex_world
       = (Ok tt, w')
       /\ calls_of (id ex_boom_vetoed) (trace w') = 1%nat
       /\ idle w'
       /\ data (storage w') !! id ex_veto
          = Some (serialize (VTuple [VNone; VBool false]))
       /\ data (storage w') !! id ex_boom_vetoed
          = Some (serialize (VError "ValueError('x')" 1 "tb")).
Proof.
  split; [reflexivity|]. split; [reflexivity|]. split; [reflexivity|].
  split; [reflexivity|].
  eexists. split; [vm_compute; reflexivity|].
  repeat split; vm_compute; reflexivity.
Qed.

(** C3, amended.  A task that is not periodic has [retries = k >= 0] and a
    body that deterministically raises an exception [e] that [_execute]
    records; results are enabled and no hook stops a task.

    When [e] is not [RetryTask] (a [TaskLockedException] or any other
    [Exception]):

    - outside immediate mode, whatever continuations the task has and
      whatever else the broker holds, the retry machinery gives the task
      [k + 1] attempts and no more.  The task as it stands after [j <= k]
      requeues has the counter [k - j]; [_execute] on it calls the body
      once and stores the Error record with [retries = k - j]; when [j < k]
      it hands the task on for the next attempt, at the end of the queue, or
      on the schedule at [now + retry_delay] when there is a retry delay;
      when [j = k], where the record carries [retries = 0], it hands nothing
      on but the [on_error] continuation, if there is one;

    - run to the end, for a task without [on_error] continuation (which
      would be work of its own between the attempts) that is due (no ETA, or
      one that has passed), with neither the task nor its class revoked, an
      id that is not the revocation key of its class, and enqueued on a
      broker whose queue and schedule are empty: the body is called exactly
      [k + 1] times, after which the broker is idle again and the record
      under the task id is the Error with [retries = 0]; outside immediate
      mode once more than [k] consumer rounds have passed, each at least
      [retry_delay] long, and in immediate mode, with [retry_delay = 0],
      within the one call of [enqueue], nested more than [k] deep.

    When [e] is [RetryTask], the task is retried without end: under the
    conditions of the run to the end, outside immediate mode, after any
    number [n >= 1] of consumer rounds the body has been called [n] times,
    the task is pending again, and the Error record carries a counter that
    is at least one. *)
Theorem failing_task_runs_retries_plus_one (h : Huey) (t : Task)
    (e : exception) (tb : string) (k : nat) :
  results h = true ->
  (forall t', pre_hook_stop (_pre_execute h) t' = None) ->
  (forall t' v exc, post_hook_stop (_post_execute h) t' v exc = None) ->
  isinstance_PeriodicTask t = false ->
  cls_func (task_class t) (args t) (kwargs t) = Raises e tb ->
  is_Exception e = true ->
  retries t = Z.of_nat k ->
  ((forall m, e <> RetryTask m) ->
   (immediate h = false ->
    forall (nows : list Z) (fuel : nat) (ts : Z) (w : World),
      (length nows <= k)%nat ->
      let tj := attempt e tb t nows in
      let next := match successor tj VNone (Some (e, tb)) with
                  | Some n => [serialize_task n]
                  | None => []
                  end in
      exists t' w',
        _execute (enqueue fuel h) h tj ts w = (Ok (t', VNone), w')
        /\ id tj = id t
        /\ retries tj = Z.of_nat k - Z.of_nat (length nows)
        /\ calls_of (id t) (trace w') = S (calls_of (id t) (trace w))
        /\ data (storage w')
           = <[id t := serialize (VError (repr e)
                                    (Z.of_nat k - Z.of_nat (length nows)) tb)]>
               (data (storage w))
        /\ if (length nows <? k)%nat
           then t' = attempt e tb t (nows ++ [clock w])
                /\ if retry_delay t =? 0
                   then queue (storage w')
                        = queue (storage w) ++ next ++ [serialize_task t']
                        /\ schedule (storage w') = schedule (storage w)
                   else queue (storage w') = queue (storage w) ++ next
                        /\ schedule (storage w')
                           = schedule_insert (clock w + retry_delay t)
                               (serialize_task t') (schedule (storage w))
           else queue (storage w') = queue (storage w) ++ next
                /\ schedule (storage w') = schedule (storage w))
   /\ (forall w : World,
         on_error t = None ->
         ready_to_run t (clock w) = true ->
         idle w -> unrevoked t w ->
         id t <> "rt:" +:+ cls_name (task_class t) ->
         (immediate h = false ->
          forall fuel ds,
            Forall (fun d => 0 <= d /\ retry_delay t <= d) ds ->
            (k < length ds)%nat ->
            exists w',
              (do _ <- enqueue fuel h t; consumer_rounds fuel h ds) w = (Ok tt, w')
              /\ calls_of (id t) (trace w')
                 = (calls_of (id t) (trace w) + (k + 1))%nat
              /\ data (storage w') !! id t
                 = Some (serialize (VError (repr e) 0 tb))
              /\ idle w')
         /\ (immediate h = true ->
             retry_delay t = 0 ->
             forall fuel,
               (k < fuel)%nat ->
               exists r w',
                 enqueue fuel h t w = (Ok r, w')
                 /\ calls_of (id t) (trace w')
                    = (calls_of (id t) (trace w) + (k + 1))%nat
                 /\ data (storage w') !! id t
                    = Some (serialize (VError (repr e) 0 tb))
                 /\ idle w')))
  /\ (forall m (w : World),
        e = RetryTask m ->
        immediate h = false ->
        on_error t = None ->
        ready_to_run t (clock w) = true ->
        idle w -> unrevoked t w ->
        id t <> "rt:" +:+ cls_name (task_class t) ->
        forall fuel ds,
          Forall (fun d => 0 <= d /\ retry_delay t <= d) ds ->
          ds <> [] ->
          exists w' t',
            (do _ <- enqueue fuel h t; consumer_rounds fuel h ds) w = (Ok tt, w')
            /\ calls_of (id t) (trace w')
               = (calls_of (id t) (trace w) + length ds)%nat
            /\ same_work t t' /\ pending t' w'
            /\ exists r, 1 <= r
                         /\ data (storage w') !! id t
                            = Some (serialize (VError (repr e) r tb))).
Proof.
  intros Hres Hpre Hpost Hper Hbody He Hk.
  split; [intros Hnr; split|].
  - intros Hi nows fuel ts w Hlen tj next.
    destruct (attempt_fields e tb nows Hnr t) as (Hc & Hid & Ha & Hkw & Hd & Hr).
    fold tj in Hc, Hid, Ha, Hkw, Hd, Hr.
    assert (Hbodyj : cls_func (task_class tj) (args tj) (kwargs tj) = Raises e tb)
      by (by rewrite Hc, Ha, Hkw).
    assert (Hperj : isinstance_PeriodicTask tj = false)
      by (unfold isinstance_PeriodicTask in *; by rewrite Hc).
    pose proof (_execute_failure_calls fuel h tj ts w e tb (id t)
                  Hi (Hpre tj) Hbodyj He (Hpost _ _ _)) as Hcalls.
    destruct (_execute_failure_consumer fuel h tj ts w e tb
                Hi (Hpre tj) Hbodyj He (Hpost _ _ _))
      as (w' & Hrun & _ & Hdata & Hqueue & Hsched & _ & _).
    rewrite Hrun in Hcalls. cbn [snd] in Hcalls.
    rewrite (except_task_other e tj Hnr) in Hrun, Hdata, Hqueue, Hsched.
    fold next in Hqueue.
    destruct (retries_chained tj VNone (Some (e, tb))) as (Hr1 & Hd1 & _ & _).
    unfold retries_left in Hrun, Hqueue, Hsched.
    rewrite Hr1 in Hrun, Hqueue, Hsched. rewrite Hd1, Hd in Hqueue, Hsched.
    rewrite Hr, Hk in Hrun, Hqueue, Hsched.
    eexists _, w'. split; [exact Hrun|].
    split; [exact Hid|]. split; [by rewrite Hr, Hk|].
    split; [rewrite Hcalls, Hid, String.eqb_refl; lia|].
    split.
    { rewrite Hdata. unfold recorded. rewrite Hres, Hperj. simpl.
      by rewrite Hid, Hr, Hk. }
    destruct (length nows <? k)%nat eqn:Hlt.
    + apply Nat.ltb_lt in Hlt.
      assert (Hne : (Z.of_nat k - Z.of_nat (length nows) =? 0) = false)
        by (apply Z.eqb_neq; lia).
      rewrite Hne in Hqueue, Hsched |- *. cbn [negb andb] in Hqueue, Hsched |- *.
      split.
      { rewrite attempt_snoc. fold tj. by rewrite (except_task_other e tj Hnr). }
      destruct (retry_delay t =? 0); cbn [negb] in Hsched.
      * split; assumption.
      * rewrite app_nil_r in Hqueue. split; assumption.
    + apply Nat.ltb_ge in Hlt.
      assert (Heq : (Z.of_nat k - Z.of_nat (length nows) =? 0) = true)
        by (apply Z.eqb_eq; lia).
      rewrite Heq in Hqueue, Hsched. cbn [negb andb] in Hqueue, Hsched.
      rewrite app_nil_r in Hqueue. split; assumption.
  - intros w Hoe Hready [Hq Hs] Hunrev Hid. split.
    + intros Hi fuel ds Hds Hlen.
      unfold bind. rewrite enqueue_consumer by exact Hi.
      destruct (failing_rounds fuel h e tb Hi Hres Hpre Hpost He Hnr k t ds
                  (enqueued t w)) as (w' & Hrun & Hcalls & Hdata & Hidle);
        try assumption.
      * left. simpl. rewrite Hq. split; [reflexivity|]. split; assumption.
      * exists w'. split; [exact Hrun|].
        split; [|by split].
        rewrite Hcalls. simpl. unfold calls_of at 1.
        rewrite List.filter_app, length_app. simpl.
        fold (calls_of (id t) (trace w)). lia.
    + intros Hi Hrd fuel Hfuel.
      destruct (immediate_failing_runs h e tb Hi Hres Hpre Hpost He Hnr k fuel t w)
        as (r & w' & Hrun & Hcalls & Hdata & Hq' & Hs' & _); try assumption.
      exists r, w'. split; [exact Hrun|]. split; [exact Hcalls|].
      split; [exact Hdata|]. split; congruence.
  - intros m w -> Hi Hoe Hready [Hq Hs] Hunrev Hid fuel ds Hds Hne.
    unfold bind. rewrite enqueue_consumer by exact Hi.
    destruct (retrying_rounds fuel h m tb Hi Hres Hpre Hpost ds t (enqueued t w))
      as (w' & t' & Hrun & Hcalls & Hsame & Hpend & Hrec); try assumption.
    + lia.
    + left. simpl. rewrite Hq. split; [reflexivity|]. split; assumption.
    + exists w', t'. split; [exact Hrun|].
      split.
      { rewrite Hcalls. simpl. unfold calls_of at 1.
        rewrite List.filter_app, length_app. simpl.
        fold (calls_of (id t) (trace w)). lia. }
      split; [exact Hsame|]. split; [exact Hpend|]. by apply Hrec.
Qed.

(** ** Blocking reads *)

(** A poll that finds the timeout exhausted revokes the task when asked to,
    then evaluates the name [DataStoreTimeout], which the module never
    binds. *)
Lemma poll_timed_out (fuel : nat) (r : Result) (start delay : Q) (timeout : option Q)
    (backoff max_delay : Q) (revoke_on_timeout preserve : bool) (w : World) :
  _result r = None ->
  timed_out timeout (time_time w) start = true ->
  poll (S fuel) r start delay timeout backoff max_delay revoke_on_timeout preserve w
  = (Raise (NameError "DataStoreTimeout"),
     if revoke_on_timeout
     then stored (revoke_id (result_task r)) (VTuple [VNone; VBool true]) w
     else w).
Proof.
  intros Hr Hto. simpl. rewrite Hr. unfold bind at 1, time_time_now. rewrite Hto.
  destruct revoke_on_timeout; reflexivity.
Qed.

(** A poll that misses sleeps for the delay capped at [max_delay] and goes
    on with that delay multiplied by [backoff]. *)
Lemma poll_miss (fuel : nat) (r : Result) (start delay : Q) (timeout : option Q)
    (backoff max_delay : Q) (revoke_on_timeout : bool) (w : World) :
  _result r = None ->
  timed_out timeout (time_time w) start = false ->
  data (storage w) !! id (result_task r) = None ->
  let capped := if Qlt_le_dec max_delay delay then max_delay else delay in
  (0 <= capped)%Q ->
  poll (S fuel) r start delay timeout backoff max_delay revoke_on_timeout true w
  = poll fuel r start (capped * backoff)%Q timeout backoff max_delay
         revoke_on_timeout true
         (mkWorld (storage w) (trace w ++ [Sleep capped]) (clock w)
                  (time_time w + capped)%Q).
Proof.
  intros Hr Hto Hd capped Hcap. simpl. rewrite Hr.
  unfold bind at 1, time_time_now. rewrite Hto.
  unfold bind at 1. rewrite _get_absent by assumption. fold capped.
  unfold bind at 1, time_sleep.
  destruct (Qlt_le_dec capped 0) as [Hlt|Hle]; [|reflexivity].
  exfalso. apply (Qlt_not_le _ _ Hlt). exact Hcap.
Qed.

(** C6, at a concrete call: [get(blocking=True, timeout=0.5,
    max_delay=0.12, revoke_on_timeout=True)] for a task whose result never
    arrives.  The sleeps are [0.1], [0.1 * 1.15], then the cap [0.12]; the
    task is revoked; but what is raised is [NameError], because [api.py]
    neither imports nor defines [DataStoreTimeout]. *)
Theorem blocking_get_timeout_raises_NameError :
  let run := Result_get 10 (Result_init ex_locked) true (Some (1 # 2)%Q)
               (115 # 100)%Q (12 # 100)%Q true false ex_world in
  fst run = Raise (NameError "DataStoreTimeout")
  /\ trace (snd run)
     = [Sleep (1 # 10); Sleep ((1 # 10) * (115 # 100));
        Sleep (12 # 100); Sleep (12 # 100); Sleep (12 # 100)]
  /\ data (storage (snd run)) !! revoke_id ex_locked
     = Some (serialize (VTuple [VNone; VBool true]))
  /\ ("DataStoreTimeout" ∈ api_globals -> False).
Proof.
  repeat split; try (vm_compute; reflexivity).
  intros H. by apply (bool_decide_pack _) in H.
Qed.

(** ** The cron matcher *)

Module CronFacts.
Import Cron.

Lemma list_of_append (s1 s2 : string) :
  String.list_ascii_of_string (s1 +:+ s2)
  = String.list_ascii_of_string s1 ++ String.list_ascii_of_string s2.
Proof. induction s1 as [|c s1 IH]; simpl; [reflexivity|by rewrite IH]. Qed.

Lemma string_of_list_of (s : string) :
  String.string_of_list_ascii (String.list_ascii_of_string s) = s.
Proof. induction s as [|c s IH]; simpl; [reflexivity|by rewrite IH]. Qed.

Lemma list_of_string_of (l : list ascii) :
  String.list_ascii_of_string (String.string_of_list_ascii l) = l.
Proof. induction l as [|c l IH]; simpl; [reflexivity|by rewrite IH]. Qed.

Lemma contains_elem_of (x : Z) (l : list Z) : contains x l = true <-> x ∈ l.
Proof.
  unfold contains. rewrite existsb_exists. split.
  - intros (y & Hy & Hxy). apply Z.eqb_eq in Hxy. subst y.
    by apply list_elem_of_In.
  - intros Hx. exists x. split; [by apply list_elem_of_In|apply Z.eqb_refl].
Qed.

Lemma contains_false (x : Z) (l : list Z) : contains x l = false <-> x ∉ l.
Proof.
  rewrite <- contains_elem_of. destruct (contains x l); split; done.
Qed.

(** *** Splitting at commas *)

Lemma split_comma_free (l cur : list ascii) :
  forallb (fun c => negb (Ascii.eqb c ","%char)) l = true ->
  split_comma l cur = [String.string_of_list_ascii (rev cur ++ l)].
Proof.
  revert cur. induction l as [|c l IH]; intros cur Hl; simpl.
  - by rewrite app_nil_r.
  - simpl in Hl. apply andb_true_iff in Hl as [Hc Hl].
    apply negb_true_iff in Hc. rewrite Hc, IH by exact Hl.
    simpl. by rewrite <- app_assoc.
Qed.

Lemma split_single (s : string) : comma_free s = true -> split s = [s].
Proof.
  intros Hs. unfold split. rewrite split_comma_free by exact Hs.
  simpl. by rewrite string_of_list_of.
Qed.

Lemma split_comma_app (l1 l2 cur : list ascii) :
  split_comma (l1 ++ ","%char :: l2) cur
  = split_comma l1 cur ++ split_comma l2 [].
Proof.
  revert cur. induction l1 as [|c l1 IH]; intros cur; simpl.
  - reflexivity.
  - destruct (Ascii.eqb c ","%char); simpl; by rewrite IH.
Qed.

(** [(s1 + "," + s2).split(",")] is the pieces of [s1], then those of
    [s2]. *)
Lemma split_app (s1 s2 : string) :
  split (s1 +:+ "," +:+ s2) = split s1 ++ split s2.
Proof.
  unfold split. rewrite !list_of_append. simpl. apply split_comma_app.
Qed.

(** *** Digits *)

Lemma is_digit_not_comma (c : ascii) :
  is_digit c = true -> Ascii.eqb c ","%char = false.
Proof.
  intros Hc. destruct (Ascii.eqb c ","%char) eqn:E; [|reflexivity].
  apply Ascii.eqb_eq in E. subst c. discriminate Hc.
Qed.

Lemma isdigit_all (s : string) :
  isdigit s = true ->
  forallb is_digit (String.list_ascii_of_string s) = true
  /\ String.list_ascii_of_string s <> [].
Proof.
  unfold isdigit. destruct (String.list_ascii_of_string s); [discriminate|].
  intros H. split; [exact H|discriminate].
Qed.

Lemma digits_comma_free (l : list ascii) :
  forallb is_digit l = true ->
  forallb (fun c => negb (Ascii.eqb c ","%char)) l = true.
Proof.
  induction l as [|c l IH]; [reflexivity|]. simpl.
  intros H. apply andb_true_iff in H as [Hc Hl].
  by rewrite (is_digit_not_comma c Hc), IH.
Qed.

Lemma span_digits_all (l : list ascii) :
  forallb is_digit l = true -> span_digits l = (l, []).
Proof.
  induction l as [|c l IH]; [reflexivity|]. simpl.
  intros H. apply andb_true_iff in H as [Hc Hl]. by rewrite Hc, IH.
Qed.

Lemma span_digits_stop (l : list ascii) (c : ascii) (rest : list ascii) :
  forallb is_digit l = true -> is_digit c = false ->
  span_digits (l ++ c :: rest) = (l, c :: rest).
Proof.
  induction l as [|d l IH]; simpl.
  - intros _ Hc. by rewrite Hc.
  - intros H Hc. apply andb_true_iff in H as [Hd Hl]. by rewrite Hd, IH.
Qed.

(** *** One piece *)

Lemma isdigit_not_star (s : string) : isdigit s = true -> String.eqb s "*" = false.
Proof.
  intros Hs. destruct (String.eqb s "*") eqn:E; [|reflexivity].
  apply String.eqb_eq in E. subst s. discriminate Hs.
Qed.

Lemma add_piece_star (date_str : string) (acceptable : list Z) (settings : gset Z) :
  add_piece date_str acceptable settings "*"
  = inr (settings ∪ list_to_set acceptable).
Proof. reflexivity. Qed.

Lemma add_piece_digits (date_str : string) (acceptable : list Z) (settings : gset Z)
    (s : string) :
  isdigit s = true ->
  add_piece date_str acceptable settings s
  = if contains (int s) acceptable
    then inr (settings ∪ {[ normalize date_str (int s) ]})
    else inl (ValueError (str (int s) +:+ " is not a valid input")).
Proof.
  intros Hs. unfold add_piece. rewrite (isdigit_not_star s Hs), Hs.
  by destruct (contains (int s) acceptable).
Qed.

Lemma head_digit_not_star (l : list ascii) (rest : list ascii) :
  forallb is_digit l = true -> l <> [] ->
  String.eqb (String.string_of_list_ascii (l ++ rest)) "*" = false.
Proof.
  destruct l as [|c l]; [done|]. simpl. intros H _.
  apply andb_true_iff in H as [Hc _].
  destruct (Ascii.eqb c "*"%char) eqn:E; [|reflexivity].
  apply Ascii.eqb_eq in E. subst c. discriminate Hc.
Qed.

Lemma forallb_digit_stop (l : list ascii) (c : ascii) (rest : list ascii) :
  is_digit c = false -> forallb is_digit (l ++ c :: rest) = false.
Proof.
  intros Hc. rewrite forallb_app. simpl. rewrite Hc. apply andb_false_r.
Qed.

Lemma dash_match_digits (sm sn : string) :
  isdigit sm = true -> isdigit sn = true ->
  dash_match (sm +:+ "-" +:+ sn) = Some (int sm, int sn).
Proof.
  intros Hm Hn. destruct (isdigit_all sm Hm) as [Hm1 Hm2].
  destruct (isdigit_all sn Hn) as [Hn1 Hn2].
  unfold dash_match, int. rewrite !list_of_append. simpl.
  rewrite span_digits_stop by (try exact Hm1; reflexivity).
  destruct (String.list_ascii_of_string sm) as [|c lm]; [done|].
  simpl. rewrite span_digits_all by exact Hn1.
  destruct (String.list_ascii_of_string sn) as [|d ln]; [done|reflexivity].
Qed.

Lemma add_piece_dash (date_str : string) (acceptable : list Z) (settings : gset Z)
    (sm sn : string) :
  isdigit sm = true -> isdigit sn = true ->
  add_piece date_str acceptable settings (sm +:+ "-" +:+ sn)
  = if contains (int sm) acceptable && contains (int sn) acceptable
    then inr (settings ∪ list_to_set (range (normalize date_str (int sm))
                                            (normalize date_str (int sn) + 1)))
    else inl (ValueError ((sm +:+ "-" +:+ sn) +:+ " is not a valid input")).
Proof.
  intros Hm Hn. destruct (isdigit_all sm Hm) as [Hm1 Hm2].
  unfold add_piece. rewrite dash_match_digits by assumption.
  assert (Hstar : String.eqb (sm +:+ "-" +:+ sn) "*" = false).
  { rewrite <- (string_of_list_of (sm +:+ "-" +:+ sn)), list_of_append.
    by apply head_digit_not_star. }
  assert (Hdig : isdigit (sm +:+ "-" +:+ sn) = false).
  { unfold isdigit. rewrite !list_of_append.
    change (String.list_ascii_of_string "-") with ["-"%char].
    set (L := String.list_ascii_of_string sm ++ _).
    assert (HL : forallb is_digit L = false) by by apply forallb_digit_stop.
    destruct L; [reflexivity|exact HL]. }
  rewrite Hstar, Hdig.
  by destruct (contains (int sm) acceptable), (contains (int sn) acceptable).
Qed.

Lemma add_piece_every (date_str : string) (acceptable : list Z) (settings : gset Z)
    (sn : string) :
  isdigit sn = true ->
  add_piece date_str acceptable settings ("*/" +:+ sn)
  = if String.eqb date_str "w"
    then inl (ValueError "Cannot perform this kind of matching on day-of-week.")
    else if int sn =? 0 then inl (ValueError "slice step cannot be zero")
    else inr (settings ∪ list_to_set (slice_step 0 (Z.to_nat (int sn)) acceptable)).
Proof.
  intros Hn. destruct (isdigit_all sn Hn) as [Hn1 Hn2].
  unfold add_piece.
  assert (Hstar : String.eqb ("*/" +:+ sn) "*" = false) by reflexivity.
  assert (Hdig : isdigit ("*/" +:+ sn) = false) by reflexivity.
  assert (Hdash : dash_match ("*/" +:+ sn) = None) by reflexivity.
  assert (Hevery : every_match ("*/" +:+ sn) = Some (int sn)).
  { unfold every_match, int.
    change (String.list_ascii_of_string ("*/" +:+ sn))
      with ("*"%char :: "/"%char :: String.list_ascii_of_string sn).
    cbv beta iota. rewrite span_digits_all by exact Hn1.
    destruct (String.list_ascii_of_string sn); [done|reflexivity]. }
  by rewrite Hstar, Hdig, Hdash, Hevery.
Qed.

(** *** One field *)

Lemma elem_of_sorted_elements (x : Z) (settings : gset Z) :
  x ∈ merge_sort Z.le (elements settings) <-> x ∈ settings.
Proof. by rewrite merge_sort_Permutation, elem_of_elements. Qed.

Lemma field_settings_single (date_str : string) (s : string) (acceptable : list Z) :
  comma_free s = true ->
  field_settings date_str (FStr s) acceptable
  = match add_piece date_str acceptable ∅ s with
    | inl e => inl e
    | inr settings => inr (merge_sort Z.le (elements settings))
    end.
Proof.
  intros Hs. unfold field_settings. rewrite split_single by exact Hs. simpl.
  by destruct (add_piece date_str acceptable ∅ s).
Qed.

Lemma comma_free_digits (s : string) : isdigit s = true -> comma_free s = true.
Proof.
  intros Hs. apply digits_comma_free. by apply isdigit_all.
Qed.

Lemma comma_free_append (s1 s2 : string) :
  comma_free (s1 +:+ s2) = comma_free s1 && comma_free s2.
Proof. unfold comma_free. by rewrite list_of_append, forallb_app. Qed.

(** *** Ranges and steps *)

Lemma elem_of_range (x lo hi : Z) : x ∈ range lo hi <-> lo <= x < hi.
Proof. unfold range. rewrite elem_of_seqZ. lia. Qed.

Lemma mod_shift (y n : Z) : 0 < n -> (y - n) mod n = y mod n.
Proof.
  intros Hn. replace (y - n) with (y + (-1) * n) by lia.
  by rewrite Z.mod_add by lia.
Qed.

Lemma elem_of_slice_step (n len : nat) :
  forall (a : Z) (k : nat) (x : Z),
    (k < n)%nat ->
    x ∈ slice_step k n (seqZ a (Z.of_nat len))
    <-> a + Z.of_nat k <= x < a + Z.of_nat len
        /\ (x - a - Z.of_nat k) mod Z.of_nat n = 0.
Proof.
  induction len as [|len IH]; intros a k x Hk.
  - simpl. rewrite elem_of_nil. lia.
  - rewrite seqZ_cons by lia.
    replace (Z.pred (Z.of_nat (S len))) with (Z.of_nat len) by lia.
    destruct k as [|k]; simpl slice_step.
    + rewrite elem_of_cons, IH by lia.
      replace (x - Z.succ a - Z.of_nat (n - 1)) with (x - a - Z.of_nat n) by lia.
      rewrite mod_shift by lia.
      replace (x - a - Z.of_nat 0) with (x - a) by lia.
      split.
      * intros [->|[Hx Hm]]; [|split; [lia|exact Hm]].
        split; [lia|]. by replace (a - a) with 0 by lia.
      * intros [Hx Hm].
        destruct (decide (x = a)) as [->|Hne]; [by left|right].
        split; [|exact Hm].
        destruct (Z_lt_le_dec (x - a) (Z.of_nat n)) as [Hlt|Hge]; [|lia].
        rewrite Z.mod_small in Hm by lia. lia.
    + rewrite IH by lia.
      replace (x - Z.succ a - Z.of_nat k) with (x - a - Z.of_nat (S k)) by lia.
      lia.
Qed.

(** [range(lo, hi)[::n]] holds the elements [lo], [lo + n], [lo + 2 n],
    ... of the range. *)
Lemma elem_of_every_nth (x lo hi n : Z) :
  0 < n -> lo <= hi ->
  x ∈ slice_step 0 (Z.to_nat n) (range lo hi)
  <-> lo <= x < hi /\ (x - lo) mod n = 0.
Proof.
  intros Hn Hlohi. unfold range.
  replace (hi - lo) with (Z.of_nat (Z.to_nat (hi - lo))) by lia.
  rewrite elem_of_slice_step by lia.
  replace (Z.of_nat (Z.to_nat n)) with n by lia.
  replace (x - lo - Z.of_nat 0) with (x - lo) by lia.
  lia.
Qed.

(** *** [str] of a natural number is its digits *)

Lemma digit_of_digit_char (d : Z) :
  0 <= d < 10 -> digit_of (digit_char d) = Some d.
Proof.
  intros Hd.
  assert (H : d = 0 \/ d = 1 \/ d = 2 \/ d = 3 \/ d = 4 \/ d = 5 \/ d = 6
              \/ d = 7 \/ d = 8 \/ d = 9) by lia.
  repeat (destruct H as [->|H]; [reflexivity|]). by subst d.
Qed.

Lemma fold_digits (l : list ascii) (a : Z) :
  fold_left (fun acc c => 10 * acc + default 0 (digit_of c)) l a
  = a * 10 ^ Z.of_nat (length l) + int_of_digits l.
Proof.
  unfold int_of_digits. revert a.
  induction l as [|c l IH]; intros a.
  - simpl. lia.
  - cbn [fold_left length]. rewrite IH. rewrite (IH (10 * 0 + _)).
    rewrite Nat2Z.inj_succ, Z.pow_succ_r by lia. lia.
Qed.

Lemma int_of_digits_cons (c : ascii) (l : list ascii) :
  int_of_digits (c :: l)
  = default 0 (digit_of c) * 10 ^ Z.of_nat (length l) + int_of_digits l.
Proof.
  unfold int_of_digits at 1. cbn [fold_left]. rewrite fold_digits. lia.
Qed.

Lemma digits_of_pos_spec (f : nat) :
  forall (n : Z) (acc : list ascii),
    0 <= n < 2 ^ Z.of_nat (S f) ->
    int_of_digits (digits_of_pos (S f) n acc)
    = n * 10 ^ Z.of_nat (length acc) + int_of_digits acc
    /\ (forallb is_digit acc = true ->
        forallb is_digit (digits_of_pos (S f) n acc) = true)
    /\ digits_of_pos (S f) n acc <> [].
Proof.
  assert (Hlast : forall n acc, 0 <= n -> n / 10 = 0 ->
            int_of_digits (digit_char (n mod 10) :: acc)
            = n * 10 ^ Z.of_nat (length acc) + int_of_digits acc
            /\ (forallb is_digit acc = true ->
                forallb is_digit (digit_char (n mod 10) :: acc) = true)).
  { intros n acc Hn Hq.
    assert (Hm : 0 <= n mod 10 < 10) by (apply Z.mod_pos_bound; lia).
    assert (Hnm : n mod 10 = n).
    { pose proof (Z.div_mod n 10 ltac:(lia)). lia. }
    rewrite int_of_digits_cons, digit_of_digit_char by exact Hm.
    simpl default. rewrite Hnm. split; [reflexivity|].
    intros Hacc. simpl. unfold is_digit at 1.
    rewrite <- Hnm at 1. rewrite digit_of_digit_char by exact Hm. exact Hacc. }
  induction f as [|f IH]; intros n acc Hn.
  - assert (Hq : n / 10 = 0) by (apply Z.div_small; simpl in Hn; lia).
    simpl. rewrite Hq. simpl.
    destruct (Hlast n acc) as [H1 H2]; [lia|exact Hq|]. done.
  - change (digits_of_pos (S (S f)) n acc)
      with (if n / 10 =? 0 then digit_char (n mod 10) :: acc
            else digits_of_pos (S f) (n / 10) (digit_char (n mod 10) :: acc)).
    destruct (n / 10 =? 0) eqn:Hq.
    + apply Z.eqb_eq in Hq. destruct (Hlast n acc) as [H1 H2]; [lia|exact Hq|]. done.
    + apply Z.eqb_neq in Hq.
      assert (Hm : 0 <= n mod 10 < 10) by (apply Z.mod_pos_bound; lia).
      assert (Hdiv : 0 <= n / 10 < 2 ^ Z.of_nat (S f)).
      { split; [apply Z.div_pos; lia|].
        apply Z.div_lt_upper_bound; [lia|].
        rewrite (Nat2Z.inj_succ (S f)), Z.pow_succ_r in Hn by lia. lia. }
      destruct (IH (n / 10) (digit_char (n mod 10) :: acc) Hdiv) as (H1 & H2 & H3).
      split; [|split; [|exact H3]].
      * rewrite H1, int_of_digits_cons, digit_of_digit_char by exact Hm.
        simpl default. cbn [length].
        rewrite Nat2Z.inj_succ, Z.pow_succ_r by lia.
        pose proof (Z.div_mod n 10 ltac:(lia)) as Hdm. nia.
      * intros Hacc. apply H2. simpl. unfold is_digit at 1.
        by rewrite digit_of_digit_char.
Qed.

(** [str(n)] for [n >= 0] is a digit string that reads back as [n]. *)
Lemma str_digits (n : Z) : 0 <= n -> isdigit (str n) = true /\ int (str n) = n.
Proof.
  intros Hn. unfold str, isdigit, int.
  assert (Hlt : (n <? 0) = false) by (apply Z.ltb_ge; lia).
  rewrite Hlt, Z.abs_eq, list_of_string_of by lia.
  assert (Hb : 0 <= n < 2 ^ Z.of_nat (S (Z.to_nat (Z.log2 n)))).
  { split; [lia|]. rewrite Nat2Z.inj_succ, Z2Nat.id by apply Z.log2_nonneg.
    destruct (decide (n = 0)) as [->|Hne]; [done|].
    apply Z.log2_spec. lia. }
  destruct (digits_of_pos_spec _ n [] Hb) as (H1 & H2 & H3).
  split.
  - destruct (digits_of_pos _ n []) eqn:E; [done|]. by apply H2.
  - rewrite H1. unfold int_of_digits. simpl. lia.
Qed.

(** *** Comma lists *)

Lemma add_piece_union (date_str : string) (acceptable : list Z) (settings : gset Z)
    (piece : string) :
  add_piece date_str acceptable settings piece
  = match add_piece date_str acceptable ∅ piece with
    | inl e => inl e
    | inr added => inr (settings ∪ added)
    end.
Proof.
  unfold add_piece.
  destruct (String.eqb piece "*"); [by rewrite union_empty_l_L|].
  destruct (isdigit piece).
  { destruct (negb (contains (int piece) acceptable)); [reflexivity|].
    by rewrite union_empty_l_L. }
  destruct (dash_match piece) as [[lhs rhs]|].
  { destruct (negb (contains lhs acceptable) || negb (contains rhs acceptable));
      [reflexivity|]. by rewrite union_empty_l_L. }
  destruct (every_match piece) as [interval|]; [|by rewrite union_empty_r_L].
  destruct (String.eqb date_str "w"); [reflexivity|].
  destruct (interval =? 0); [reflexivity|]. by rewrite union_empty_l_L.
Qed.

Lemma add_pieces_union (date_str : string) (acceptable : list Z) (pieces : list string) :
  forall settings,
    add_pieces date_str acceptable settings pieces
    = match add_pieces date_str acceptable ∅ pieces with
      | inl e => inl e
      | inr added => inr (settings ∪ added)
      end.
Proof.
  induction pieces as [|piece rest IH]; intros settings; simpl.
  - by rewrite union_empty_r_L.
  - rewrite add_piece_union.
    destruct (add_piece date_str acceptable ∅ piece) as [e|added]; [reflexivity|].
    rewrite IH. rewrite (IH added).
    destruct (add_pieces date_str acceptable ∅ rest) as [e|more]; [reflexivity|].
    by rewrite (assoc_L (∪)).
Qed.

Lemma add_pieces_app (date_str : string) (acceptable : list Z) (l1 l2 : list string) :
  forall settings,
    add_pieces date_str acceptable settings (l1 ++ l2)
    = match add_pieces date_str acceptable settings l1 with
      | inl e => inl e
      | inr settings => add_pieces date_str acceptable settings l2
      end.
Proof.
  induction l1 as [|piece l1 IH]; intros settings; simpl; [reflexivity|].
  destruct (add_piece date_str acceptable settings piece); [reflexivity|apply IH].
Qed.

(** Every failure of the matcher is a [ValueError]. *)
Lemma add_piece_ValueError (date_str : string) (acceptable : list Z)
    (settings : gset Z) (piece : string) (e : exception) :
  add_piece date_str acceptable settings piece = inl e -> exists msg, e = ValueError msg.
Proof.
  unfold add_piece.
  destruct (String.eqb piece "*"); [discriminate|].
  destruct (isdigit piece).
  { destruct (negb (contains (int piece) acceptable)); [|discriminate].
    intros [= <-]. eauto. }
  destruct (dash_match piece) as [[lhs rhs]|].
  { destruct (negb (contains lhs acceptable) || negb (contains rhs acceptable));
      [|discriminate]. intros [= <-]. eauto. }
  destruct (every_match piece) as [interval|]; [|discriminate].
  destruct (String.eqb date_str "w"); [intros [= <-]; eauto|].
  destruct (interval =? 0); [intros [= <-]; eauto|discriminate].
Qed.

Lemma field_settings_ValueError (date_str : string) (value : field)
    (acceptable : list Z) (e : exception) :
  field_settings date_str value acceptable = inl e -> exists msg, e = ValueError msg.
Proof.
  unfold field_settings.
  generalize (split match value with FInt n => str n | FStr s => s end).
  generalize (∅ : gset Z).
  intros settings pieces. revert settings.
  induction pieces as [|piece rest IH]; intros settings; simpl; [discriminate|].
  destruct (add_piece date_str acceptable settings piece) as [e'|s'] eqn:E.
  - intros [= <-]. by apply add_piece_ValueError in E.
  - apply IH.
Qed.

(** A comma list accepts the union of what its parts accept, and fails when
    a part fails. *)
Lemma field_settings_comma (date_str : string) (s1 s2 : string) (acceptable : list Z) :
  field_settings date_str (FStr (s1 +:+ "," +:+ s2)) acceptable
  = match field_settings date_str (FStr s1) acceptable,
          field_settings date_str (FStr s2) acceptable with
    | inl e, _ => inl e
    | inr _, inl e => inl e
    | inr l1, inr l2 =>
        inr (merge_sort Z.le (elements (list_to_set l1 ∪ list_to_set l2 : gset Z)))
    end.
Proof.
  unfold field_settings. rewrite split_app, add_pieces_app.
  destruct (add_pieces date_str acceptable ∅ (split s1)) as [e|set1]; [reflexivity|].
  rewrite add_pieces_union.
  destruct (add_pieces date_str acceptable ∅ (split s2)) as [e|set2]; [reflexivity|].
  f_equal. f_equal. f_equal. apply set_eq. intros x.
  rewrite !elem_of_union, !elem_of_list_to_set, !elem_of_sorted_elements. done.
Qed.

(** *** The forms of a field *)

Lemma field_star (date_str : string) (acceptable : list Z) :
  exists l, field_settings date_str (FStr "*") acceptable = inr l
            /\ forall x, x ∈ l <-> x ∈ acceptable.
Proof.
  rewrite field_settings_single by reflexivity. rewrite add_piece_star.
  eexists. split; [reflexivity|]. intros x.
  rewrite elem_of_sorted_elements, elem_of_union, elem_of_list_to_set.
  rewrite elem_of_empty. tauto.
Qed.

Lemma field_integer (date_str : string) (acceptable : list Z) (s : string) :
  isdigit s = true ->
  if contains (int s) acceptable
  then exists l, field_settings date_str (FStr s) acceptable = inr l
                 /\ forall x, x ∈ l <-> x = normalize date_str (int s)
  else exists msg, field_settings date_str (FStr s) acceptable = inl (ValueError msg).
Proof.
  intros Hs. rewrite field_settings_single by by apply comma_free_digits.
  rewrite add_piece_digits by exact Hs.
  destruct (contains (int s) acceptable); [|eauto].
  eexists. split; [reflexivity|]. intros x.
  rewrite elem_of_sorted_elements, elem_of_union, elem_of_singleton.
  rewrite elem_of_empty. tauto.
Qed.

Lemma field_range (date_str : string) (acceptable : list Z) (sm sn : string) :
  isdigit sm = true -> isdigit sn = true ->
  if contains (int sm) acceptable && contains (int sn) acceptable
  then exists l,
         field_settings date_str (FStr (sm +:+ "-" +:+ sn)) acceptable = inr l
         /\ forall x, x ∈ l <-> normalize date_str (int sm) <= x
                                 <= normalize date_str (int sn)
  else exists msg,
         field_settings date_str (FStr (sm +:+ "-" +:+ sn)) acceptable
         = inl (ValueError msg).
Proof.
  intros Hm Hn.
  rewrite field_settings_single
    by (rewrite !comma_free_append, (comma_free_digits sm), (comma_free_digits sn)
          by assumption; reflexivity).
  rewrite add_piece_dash by assumption.
  destruct (contains (int sm) acceptable && contains (int sn) acceptable); [|eauto].
  eexists. split; [reflexivity|]. intros x.
  rewrite elem_of_sorted_elements, elem_of_union, elem_of_list_to_set, elem_of_range.
  rewrite elem_of_empty. lia.
Qed.

Lemma field_step (date_str : string) (lo hi : Z) (sn : string) :
  isdigit sn = true -> lo <= hi ->
  if String.eqb date_str "w"
  then exists msg,
         field_settings date_str (FStr ("*/" +:+ sn)) (range lo hi)
         = inl (ValueError msg)
  else 0 < int sn ->
       exists l,
         field_settings date_str (FStr ("*/" +:+ sn)) (range lo hi) = inr l
         /\ forall x, x ∈ l <-> lo <= x < hi /\ (x - lo) mod int sn = 0.
Proof.
  intros Hn Hlohi.
  rewrite field_settings_single
    by (rewrite comma_free_append, (comma_free_digits sn) by assumption;
        reflexivity).
  rewrite add_piece_every by assumption.
  destruct (String.eqb date_str "w"); [eauto|].
  intros Hpos. assert (Hz : (int sn =? 0) = false) by (apply Z.eqb_neq; lia).
  rewrite Hz.
  eexists. split; [reflexivity|]. intros x.
  rewrite elem_of_sorted_elements, elem_of_union, elem_of_list_to_set.
  rewrite elem_of_every_nth by assumption. rewrite elem_of_empty. tauto.
Qed.

(** *** The predicate *)

Lemma validate_date_spec (lm ld lw lH lM : list Z) (ts : timetuple) :
  validate_date [lm; ld; lw; lH; lM] ts = true
  <-> tm_mon ts ∈ lm /\ tm_mday ts ∈ ld /\ (tm_wday ts + 1) mod 7 ∈ lw
      /\ tm_hour ts ∈ lH /\ tm_min ts ∈ lM.
Proof.
  unfold validate_date. simpl.
  rewrite !andb_true_iff, !contains_elem_of. tauto.
Qed.

Lemma crontab_built (minute hour day month day_of_week : field)
    (lm ld lw lH lM : list Z) :
  field_settings "m" month (range 1 13) = inr lm ->
  field_settings "d" day (range 1 32) = inr ld ->
  field_settings "w" day_of_week (range 0 8) = inr lw ->
  field_settings "H" hour (range 0 24) = inr lH ->
  field_settings "M" minute (range 0 60) = inr lM ->
  crontab minute hour day month day_of_week = inr (validate_date [lm; ld; lw; lH; lM]).
Proof.
  intros Hm Hd Hw HH HM. unfold crontab, validation, cron_settings_of.
  by rewrite Hm, Hd, Hw, HH, HM.
Qed.

Lemma crontab_rejects (minute hour day month day_of_week : field) :
  (exists e, field_settings "m" month (range 1 13) = inl e
             \/ field_settings "d" day (range 1 32) = inl e
             \/ field_settings "w" day_of_week (range 0 8) = inl e
             \/ field_settings "H" hour (range 0 24) = inl e
             \/ field_settings "M" minute (range 0 60) = inl e) ->
  exists msg, crontab minute hour day month day_of_week = inl (ValueError msg).
Proof.
  intros Hfail. unfold crontab, validation, cron_settings_of.
  destruct (field_settings "m" month (range 1 13)) as [e1|l1] eqn:E1.
  { apply field_settings_ValueError in E1 as [msg ->]. eauto. }
  destruct (field_settings "d" day (range 1 32)) as [e2|l2] eqn:E2.
  { apply field_settings_ValueError in E2 as [msg ->]. eauto. }
  destruct (field_settings "w" day_of_week (range 0 8)) as [e3|l3] eqn:E3.
  { apply field_settings_ValueError in E3 as [msg ->]. eauto. }
  destruct (field_settings "H" hour (range 0 24)) as [e4|l4] eqn:E4.
  { apply field_settings_ValueError in E4 as [msg ->]. eauto. }
  destruct (field_settings "M" minute (range 0 60)) as [e5|l5] eqn:E5.
  { apply field_settings_ValueError in E5 as [msg ->]. eauto. }
  destruct Hfail as [e [H|[H|[H|[H|H]]]]]; discriminate H.
Qed.

(** On day-of-week a range that ends at [7] is the range that ends at [0],
    and one that starts at [7] is the one that starts at [0]. *)
Lemma day_of_week_range_seven (s : string) :
  isdigit s = true ->
  contains (int s) (range 0 8) = true ->
  field_settings "w" (FStr (s +:+ "-" +:+ "7")) (range 0 8)
  = field_settings "w" (FStr (s +:+ "-" +:+ "0")) (range 0 8)
  /\ field_settings "w" (FStr ("7" +:+ "-" +:+ s)) (range 0 8)
     = field_settings "w" (FStr ("0" +:+ "-" +:+ s)) (range 0 8).
Proof.
  intros Hs Hin. split.
  - rewrite !field_settings_single
      by (rewrite !comma_free_append, (comma_free_digits s) by done; reflexivity).
    rewrite !add_piece_dash by done. rewrite Hin.
    change (contains (int "7") (range 0 8)) with true.
    change (contains (int "0") (range 0 8)) with true.
    reflexivity.
  - rewrite !field_settings_single
      by (rewrite !comma_free_append, (comma_free_digits s) by done; reflexivity).
    rewrite !add_piece_dash by done. rewrite Hin.
    change (contains (int "7") (range 0 8)) with true.
    change (contains (int "0") (range 0 8)) with true.
    reflexivity.
Qed.

(** *** Integers below zero and the step zero *)

Lemma int_of_digits_nonneg (l : list ascii) : 0 <= int_of_digits l.
Proof.
  unfold int_of_digits.
  assert (H : forall a, 0 <= a ->
            0 <= fold_left (fun acc c => 10 * acc + default 0 (digit_of c)) l a).
  { induction l as [|c l IH]; intros a Ha; simpl; [exact Ha|].
    apply IH. unfold digit_of.
    destruct ((48 <=? Z.of_N (Ascii.N_of_ascii c))
              && (Z.of_N (Ascii.N_of_ascii c) <=? 57)) eqn:E; simpl; [|lia].
    apply andb_true_iff in E as [E _]. apply Z.leb_le in E. lia. }
  by apply H.
Qed.

Lemma int_nonneg (s : string) : 0 <= int s.
Proof. apply int_of_digits_nonneg. Qed.

(** [str(n)] for [n < 0] is a minus sign and then digits. *)
Lemma str_negative (n : Z) :
  n < 0 ->
  exists ds, String.list_ascii_of_string (str n) = "-"%char :: ds
             /\ forallb is_digit ds = true.
Proof.
  intros Hn. unfold str.
  assert (Hlt : (n <? 0) = true) by (apply Z.ltb_lt; lia).
  rewrite Hlt, list_of_string_of.
  eexists. split; [reflexivity|].
  assert (Hb : 0 <= Z.abs n < 2 ^ Z.of_nat (S (Z.to_nat (Z.log2 (Z.abs n))))).
  { split; [lia|]. rewrite Nat2Z.inj_succ, Z2Nat.id by apply Z.log2_nonneg.
    apply Z.log2_spec. lia. }
  destruct (digits_of_pos_spec _ (Z.abs n) [] Hb) as (_ & H2 & _).
  by apply H2.
Qed.

(** A piece that starts with a minus sign is none of the forms: the loop
    passes it over. *)
Lemma add_piece_minus (date_str : string) (acceptable : list Z) (settings : gset Z)
    (piece : string) (ds : list ascii) :
  String.list_ascii_of_string piece = "-"%char :: ds ->
  add_piece date_str acceptable settings piece = inr settings.
Proof.
  intros Hp. unfold add_piece.
  assert (Hstar : String.eqb piece "*" = false).
  { rewrite <- (string_of_list_of piece), Hp. reflexivity. }
  assert (Hdig : isdigit piece = false).
  { unfold isdigit. rewrite Hp. reflexivity. }
  assert (Hdash : dash_match piece = None).
  { unfold dash_match. rewrite Hp. reflexivity. }
  assert (Hevery : every_match piece = None).
  { unfold every_match. rewrite Hp. destruct ds; reflexivity. }
  by rewrite Hstar, Hdig, Hdash, Hevery.
Qed.

(** An [int] below zero is never rejected, whatever the domain: the field
    accepts nothing. *)
Lemma field_negative (date_str : string) (acceptable : list Z) (n : Z) :
  n < 0 -> field_settings date_str (FInt n) acceptable = inr [].
Proof.
  intros Hn. destruct (str_negative n Hn) as (ds & Hstr & Hds).
  unfold field_settings.
  assert (Hfree : comma_free (str n) = true).
  { unfold comma_free. rewrite Hstr. simpl. by apply digits_comma_free. }
  rewrite split_single by exact Hfree. simpl.
  rewrite (add_piece_minus date_str acceptable ∅ (str n) ds Hstr).
  by rewrite elements_empty.
Qed.

(** The three outcomes of a step: refused on day-of-week, [range(..)[::0]]
    raises, and a positive step selects. *)
Lemma field_step_full (date_str : string) (lo hi : Z) (sn : string) :
  isdigit sn = true -> lo <= hi ->
  if String.eqb date_str "w"
  then field_settings date_str (FStr ("*/" +:+ sn)) (range lo hi)
       = inl (ValueError "Cannot perform this kind of matching on day-of-week.")
  else if int sn =? 0
  then field_settings date_str (FStr ("*/" +:+ sn)) (range lo hi)
       = inl (ValueError "slice step cannot be zero")
  else exists l,
         field_settings date_str (FStr ("*/" +:+ sn)) (range lo hi) = inr l
         /\ forall x, x ∈ l <-> lo <= x < hi /\ (x - lo) mod int sn = 0.
Proof.
  intros Hn Hlohi.
  rewrite field_settings_single
    by (rewrite comma_free_append, (comma_free_digits sn) by assumption;
        reflexivity).
  rewrite add_piece_every by assumption.
  destruct (String.eqb date_str "w"); [reflexivity|].
  destruct (int sn =? 0) eqn:Hz; [reflexivity|].
  apply Z.eqb_neq in Hz. pose proof (int_nonneg sn) as Hpos.
  eexists. split; [reflexivity|]. intros x.
  rewrite elem_of_sorted_elements, elem_of_union, elem_of_list_to_set.
  rewrite elem_of_every_nth by lia. rewrite elem_of_empty. tauto.
Qed.

(** C5, as stated, fails on one point: an out-of-domain integer is not
    always rejected.  [crontab(minute=-1)] builds a matcher: the string
    ["-1"] is no digit string and matches neither the range nor the step
    pattern, so the piece is passed over and the minute field accepts
    nothing. *)
Lemma negative_integer_is_not_rejected :
  contains (-1) (range 0 60) = false
  /\ field_settings "M" (FInt (-1)) (range 0 60) = inr []
  /\ crontab (FInt (-1)) (FStr "*") (FStr "*") (FStr "*") (FStr "*")
     = inr (validate_date [range 1 13; range 1 32; range 0 8; range 0 24; []]).
Proof. repeat split; vm_compute; reflexivity. Qed.

(** C5, amended.  Over a field's domain (month [1..12], day [1..31],
    day-of-week [0..7], hour [0..23], minute [0..59]) each form builds
    exactly its acceptance set: [*] the whole domain (on day-of-week
    [0..7]); a digit string [n] the single value [n], on day-of-week taken
    modulo 7 so that [7] is Sunday like [0], and [ValueError] when [n] is
    outside the domain; an [int n >= 0] is its digit string, and an
    [int n < 0] is never rejected: in every field it is passed over and the
    field accepts nothing; [m-n] the values from [m] to [n], both taken
    modulo 7 on day-of-week, and [ValueError] when an end is outside the
    domain; [*/n] is [ValueError] on day-of-week, elsewhere [ValueError]
    when [n] is zero and otherwise every [n]-th element of the domain,
    counted from its first; a comma list the union of its parts, and the
    failure of the first part that fails.  [crontab] fails with
    [ValueError] when a field fails, and otherwise returns the predicate
    that holds of a timestamp iff its month, day, weekday (Sunday as 0),
    hour and minute are each in the set of their field. *)
Theorem crontab_acceptance :
  (forall date_str acceptable,
      exists l, field_settings date_str (FStr "*") acceptable = inr l
                /\ forall x, x ∈ l <-> x ∈ acceptable)
  /\ (forall date_str acceptable s,
        isdigit s = true ->
        if contains (int s) acceptable
        then exists l, field_settings date_str (FStr s) acceptable = inr l
                       /\ forall x, x ∈ l <-> x = normalize date_str (int s)
        else exists msg,
               field_settings date_str (FStr s) acceptable = inl (ValueError msg))
  /\ field_settings "w" (FStr "*") (range 0 8) = inr [0; 1; 2; 3; 4; 5; 6; 7]
  /\ (forall date_str acceptable n,
        field_settings date_str (FInt n) acceptable
        = field_settings date_str (FStr (str n)) acceptable
        /\ (0 <= n ->
            isdigit (str n) = true /\ int (str n) = n
            /\ if contains n acceptable
               then exists l, field_settings date_str (FInt n) acceptable = inr l
                              /\ forall x, x ∈ l <-> x = normalize date_str n
               else exists msg,
                      field_settings date_str (FInt n) acceptable
                      = inl (ValueError msg))
        /\ (n < 0 -> field_settings date_str (FInt n) acceptable = inr []))
  /\ (forall date_str acceptable sm sn,
        isdigit sm = true -> isdigit sn = true ->
        if contains (int sm) acceptable && contains (int sn) acceptable
        then exists l,
               field_settings date_str (FStr (sm +:+ "-" +:+ sn)) acceptable = inr l
               /\ forall x, x ∈ l <-> normalize date_str (int sm) <= x
                                       <= normalize date_str (int sn)
        else exists msg,
               field_settings date_str (FStr (sm +:+ "-" +:+ sn)) acceptable
               = inl (ValueError msg))
  /\ (forall date_str lo hi sn,
        isdigit sn = true -> lo <= hi ->
        if String.eqb date_str "w"
        then field_settings date_str (FStr ("*/" +:+ sn)) (range lo hi)
             = inl (ValueError "Cannot perform this kind of matching on day-of-week.")
        else if int sn =? 0
        then field_settings date_str (FStr ("*/" +:+ sn)) (range lo hi)
             = inl (ValueError "slice step cannot be zero")
        else exists l,
               field_settings date_str (FStr ("*/" +:+ sn)) (range lo hi) = inr l
               /\ forall x, x ∈ l <-> lo <= x < hi /\ (x - lo) mod int sn = 0)
  /\ (forall date_str acceptable s1 s2,
        match field_settings date_str (FStr s1) acceptable,
              field_settings date_str (FStr s2) acceptable with
        | inr l1, inr l2 =>
            exists l,
              field_settings date_str (FStr (s1 +:+ "," +:+ s2)) acceptable = inr l
              /\ forall x, x ∈ l <-> x ∈ l1 \/ x ∈ l2
        | inl e, _ | inr _, inl e =>
            field_settings date_str (FStr (s1 +:+ "," +:+ s2)) acceptable = inl e
        end)
  /\ (normalize "w" 7 = normalize "w" 0
      /\ forall s,
           isdigit s = true -> contains (int s) (range 0 8) = true ->
           field_settings "w" (FStr (s +:+ "-" +:+ "7")) (range 0 8)
           = field_settings "w" (FStr (s +:+ "-" +:+ "0")) (range 0 8)
           /\ field_settings "w" (FStr ("7" +:+ "-" +:+ s)) (range 0 8)
              = field_settings "w" (FStr ("0" +:+ "-" +:+ s)) (range 0 8))
  /\ (forall minute hour day month day_of_week lm ld lw lH lM,
        field_settings "m" month (range 1 13) = inr lm ->
        field_settings "d" day (range 1 32) = inr ld ->
        field_settings "w" day_of_week (range 0 8) = inr lw ->
        field_settings "H" hour (range 0 24) = inr lH ->
        field_settings "M" minute (range 0 60) = inr lM ->
        exists validate,
          crontab minute hour day month day_of_week = inr validate
          /\ forall ts,
               validate ts = true
               <-> tm_mon ts ∈ lm /\ tm_mday ts ∈ ld
                   /\ (tm_wday ts + 1) mod 7 ∈ lw
                   /\ tm_hour ts ∈ lH /\ tm_min ts ∈ lM)
  /\ (forall minute hour day month day_of_week,
        (exists e, field_settings "m" month (range 1 13) = inl e
                   \/ field_settings "d" day (range 1 32) = inl e
                   \/ field_settings "w" day_of_week (range 0 8) = inl e
                   \/ field_settings "H" hour (range 0 24) = inl e
                   \/ field_settings "M" minute (range 0 60) = inl e) ->
        exists msg, crontab minute hour day month day_of_week = inl (ValueError msg)).
Proof.
  split; [exact field_star|].
  split; [exact field_integer|].
  split; [by vm_compute|].
  split.
  { intros date_str acceptable n. split; [reflexivity|]. split.
    - intros Hn. destruct (str_digits n Hn) as [Hd Hi].
      split; [exact Hd|]. split; [exact Hi|].
      pose proof (field_integer date_str acceptable (str n) Hd) as H.
      rewrite Hi in H. exact H.
    - by apply field_negative. }
  split; [exact field_range|].
  split; [exact field_step_full|].
  split.
  { intros date_str acceptable s1 s2. rewrite field_settings_comma.
    destruct (field_settings date_str (FStr s1) acceptable) as [e1|l1];
      [reflexivity|].
    destruct (field_settings date_str (FStr s2) acceptable) as [e2|l2];
      [reflexivity|].
    eexists. split; [reflexivity|]. intros x.
    by rewrite elem_of_sorted_elements, elem_of_union, !elem_of_list_to_set. }
  split; [split; [reflexivity|exact day_of_week_range_seven]|].
  split.
  { intros minute hour day month day_of_week lm ld lw lH lM Hm Hd Hw HH HM.
    eexists. split; [by apply crontab_built|]. intros ts. apply validate_date_spec. }
  exact crontab_rejects.
Qed.
End CronFacts.

(** * Further properties of the module *)

(** ** Revocation records *)

Lemma world_eta (w : World) :
  mkWorld (storage w) (trace w) (clock w) (time_time w) = w.
Proof. by destruct w. Qed.

Lemma popped_clear (key : string) (w : World) : spec_clear true key w = popped key w.
Proof. reflexivity. Qed.

Lemma popped_absent (key : string) (w : World) :
  data (storage w) !! key = None -> popped key w = w.
Proof.
  intros Hk. unfold popped, storage_pop_data, set_storage. cbn [snd].
  rewrite delete_id by exact Hk. by rewrite storage_eta, world_eta.
Qed.

Lemma popped_stored (key : string) (v : pyval) (w : World) :
  popped key (stored key v w) = popped key w.
Proof.
  unfold popped, stored, storage_pop_data, storage_put_data, set_storage.
  cbn [snd storage queue schedule data trace clock time_time].
  by rewrite delete_insert_eq.
Qed.

Lemma popped_popped (key : string) (w : World) :
  popped key (popped key w) = popped key w.
Proof. apply popped_absent. simpl. apply lookup_delete_eq. Qed.

Lemma data_popped (key k : string) (w : World) :
  data (storage (popped key w)) !! k
  = if decide (key = k) then None else data (storage w) !! k.
Proof. simpl. apply lookup_delete. Qed.

Lemma data_stored (key k : string) (v : pyval) (w : World) :
  data (storage (stored key v w)) !! k
  = if decide (key = k) then Some (serialize v) else data (storage w) !! k.
Proof. simpl. apply lookup_insert. Qed.

(** A record is put under [key] and popped again. *)
Lemma put_pop_key (key : string) (v : pyval) (w : World) :
  (do _ <- put key v;
   do d <- get_raw key false;
   ret (match d with Some _ => true | None => false end)) w
  = (Ok true, popped key w).
Proof.
  unfold bind at 1. rewrite put_eq. unfold bind. rewrite get_raw_pop.
  rewrite popped_clear, popped_stored, data_stored, decide_True by reflexivity.
  reflexivity.
Qed.

Lemma pop_key_absent (key : string) (w : World) :
  data (storage w) !! key = None ->
  (do d <- get_raw key false;
   ret (match d with Some _ => true | None => false end)) w
  = (Ok false, w).
Proof.
  intros Hk. unfold bind. rewrite get_raw_pop, Hk, popped_clear.
  by rewrite popped_absent.
Qed.

(** X1: [revoke] followed by [restore] answers [True] and leaves the store
    without the record, whatever stood under the key before; a further
    [restore] answers [False] and changes nothing, and so does a [restore]
    of a task that was never revoked.  [revoke_by_id] and [restore_by_id]
    do the same given the id, and [revoke_all] and [restore_all] the same
    under the key of the class.  (An id is never the empty string: a task
    made without an id draws one.) *)
Theorem revoke_restore_round_trip (t : Task) (revoke_until : option Z)
    (revoke_once : bool) (w : World) :
  let w' := popped (revoke_id t) w in
  let wc := popped (_task_key (task_class t) "rt") w in
  (do _ <- revoke t revoke_until revoke_once; restore t) w = (Ok true, w')
  /\ restore t w' = (Ok false, w')
  /\ (data (storage w) !! revoke_id t = None -> restore t w = (Ok false, w))
  /\ (id t <> "" ->
      (do _ <- revoke_by_id (id t) revoke_until revoke_once; restore_by_id (id t)) w
      = (Ok true, w'))
  /\ (do _ <- revoke_all (task_class t) revoke_until revoke_once;
      restore_all (task_class t)) w = (Ok true, wc)
  /\ restore_all (task_class t) wc = (Ok false, wc)
  /\ (data (storage w) !! _task_key (task_class t) "rt" = None ->
      restore_all (task_class t) w = (Ok false, w)).
Proof.
  intros w' wc.
  split; [apply put_pop_key|].
  split; [apply pop_key_absent; unfold w'; rewrite data_popped; by rewrite decide_True|].
  split; [apply pop_key_absent|].
  split; [intros _; apply (put_pop_key (revoke_id t))|].
  split; [apply put_pop_key|].
  split; [apply pop_key_absent; unfold wc; rewrite data_popped; by rewrite decide_True|].
  apply pop_key_absent.
Qed.

Lemma class_key_injective (a b : string) : "rt:" +:+ a = "rt:" +:+ b -> a = b.
Proof. simpl. intros H. by injection H. Qed.

(** X2: asked about a task id, [is_revoked] wraps the id in a plain
    [Task], so it looks at the record of the id and then at the record of
    the base class, never at the record of the class the task was made
    from.  After [revoke_all] on that class, [is_revoked] answers [True]
    for the task and for the class, and [False] for the id of the task
    (which, being the id of a task, is not the empty string). *)
Theorem revoked_class_is_not_seen_by_id (t : Task) (now : Z) (peek : bool)
    (w : World) :
  id t <> "" ->
  cls_name (task_class t) <> cls_name Task_base ->
  data (storage w) !! revoke_id t = None ->
  data (storage w) !! _task_key Task_base "rt" = None ->
  let w1 := snd (revoke_all (task_class t) None false w) in
  is_revoked (OfTask t) (Some now) peek w1 = (Ok true, w1)
  /\ is_revoked (OfClass (task_class t)) (Some now) peek w1 = (Ok true, w1)
  /\ is_revoked (OfId (id t)) (Some now) peek w1 = (Ok false, w1).
Proof.
  intros _ Hname Hi Hb w1.
  assert (Hc : data (storage w1) !! ("rt:" +:+ cls_name (task_class t))
               = stored_record (Some (None, false))).
  { unfold w1, revoke_all. rewrite put_eq. cbn [snd].
    rewrite data_stored. by rewrite decide_True. }
  assert (Hi1 : data (storage w1) !! ("r:" +:+ id t) = stored_record None).
  { unfold w1, revoke_all. rewrite put_eq. cbn [snd].
    rewrite data_stored, decide_False; [exact Hi|].
    intros H. by apply (instance_key_not_class_key (id t) (cls_name (task_class t))). }
  assert (Hb1 : data (storage w1) !! ("rt:" +:+ cls_name Task_base) = stored_record None).
  { unfold w1, revoke_all. rewrite put_eq. cbn [snd].
    rewrite data_stored, decide_False; [exact Hb|].
    intros H. apply Hname. by apply class_key_injective. }
  split; [|split].
  - rewrite (is_revoked_task_spec t None (Some (None, false))) by assumption.
    reflexivity.
  - cbn [is_revoked].
    rewrite (is_revoked_class_spec _ (Some (None, false))) by assumption.
    reflexivity.
  - cbn [is_revoked].
    change (is_revoked_task (Task_of_id (id t)) (Some now) peek w1)
      with (is_revoked (OfTask (Task_of_id (id t))) (Some now) peek w1).
    rewrite (is_revoked_task_spec (Task_of_id (id t)) None None) by assumption.
    reflexivity.
Qed.

(** ** What [execute] does with a task it may not run yet *)

(** A record of the instance that revokes settles the question: the record
    of the class is not read. *)
Lemma is_revoked_task_instance (t : Task) (ri : option (option Z * bool))
    (now : Z) (peek : bool) (w : World) :
  data (storage w) !! revoke_id t = stored_record ri ->
  fst (spec_decide ri now peek) = true ->
  is_revoked (OfTask t) (Some now) peek w
  = (Ok true, if snd (spec_decide ri now peek) then popped (revoke_id t) w else w).
Proof.
  intros Hi Hrev. cbn [is_revoked]. unfold is_revoked_task, bind at 1.
  rewrite (_check_revoked_spec _ ri) by exact Hi.
  destruct (spec_decide ri now peek) as [revoked can_restore].
  cbn [fst snd] in *. subst revoked.
  destruct can_restore; cbn [negb].
  - unfold bind at 1, restore. rewrite restore_key_spec. reflexivity.
  - reflexivity.
Qed.

(** X3: a task revoked with [revoke_once] is skipped by the next
    [execute]: the body is not called, the REVOKED signal is sent, and the
    record is used up.  The [execute] after that runs the task, its class
    not being revoked. *)
Theorem revoke_once_skips_one_execute (enq : Task -> M (Task * handle)) (h : Huey)
    (t : Task) (w : World) :
  ready_to_run t (clock w) = true ->
  let w1 := snd (revoke t None true w) in
  let w2 := logged [Log WARNING "Task %s was revoked, not executing" t;
                    Signal SIGNAL_REVOKED t None] (popped (revoke_id t) w) in
  execute enq h t None w1 = (Ok (t, VNone), w2)
  /\ data (storage w2) !! revoke_id t = None
  /\ (data (storage w) !! _task_key (task_class t) "rt" = None ->
      execute enq h t None w2
      = _execute enq h t (clock w)
          (logged [Log INFO "Executing %s" t; Signal SIGNAL_EXECUTING t None] w2)).
Proof.
  intros Hready w1 w2.
  assert (Hw1 : w1 = stored (revoke_id t) (VTuple [VNone; VBool true]) w) by reflexivity.
  assert (Hd2 : data (storage w2) !! revoke_id t = None).
  { unfold w2. change (data (storage (logged ?es ?x))) with (data (storage x)).
    rewrite data_popped. by rewrite decide_True. }
  split; [|split; [exact Hd2|]].
  - unfold execute, bind at 1, _get_timestamp.
    change (clock w1) with (clock w). rewrite Hready. cbn [negb].
    unfold bind at 1.
    rewrite (is_revoked_task_instance t (Some (None, true)));
      [|rewrite Hw1, data_stored; by rewrite decide_True|reflexivity].
    cbn [spec_decide negb snd].
    unfold bind at 1, logger. rewrite emit_event_eq.
    unfold bind at 1, _emit. rewrite emit_event_eq, logged_logged.
    unfold ret. rewrite Hw1, popped_stored. reflexivity.
  - intros Hc. change (clock w) with (clock w2). apply execute_runs.
    + exact Hready.
    + exact Hd2.
    + unfold w2. change (data (storage (logged ?es ?x))) with (data (storage x)).
      rewrite data_popped, decide_False; [exact Hc|].
      apply instance_key_not_class_key.
Qed.

Lemma elem_of_schedule_insert (e : Z) (d : pickled Task) (l : list (Z * pickled Task))
    (x : Z * pickled Task) :
  x ∈ schedule_insert e d l <-> x = (e, d) \/ x ∈ l.
Proof.
  induction l as [|[e' d'] l IH]; simpl.
  - rewrite list_elem_of_singleton, elem_of_nil. tauto.
  - destruct (e <? e').
    + rewrite elem_of_cons. tauto.
    + rewrite !elem_of_cons, IH. tauto.
Qed.

Lemma length_schedule_insert (e : Z) (d : pickled Task) (l : list (Z * pickled Task)) :
  length (schedule_insert e d l) = S (length l).
Proof.
  induction l as [|[e' d'] l IH]; [reflexivity|].
  simpl. destruct (e <? e'); simpl; [reflexivity|by rewrite IH].
Qed.

Lemma filter_schedule_insert_out (P : Z * pickled Task -> Prop)
    `{!forall x, Decision (P x)} (e : Z) (d : pickled Task)
    (l : list (Z * pickled Task)) :
  ~ P (e, d) -> filter P (schedule_insert e d l) = filter P l.
Proof.
  intros Hn. induction l as [|[e' d'] l IH]; simpl.
  - by rewrite filter_cons_False.
  - destruct (e <? e').
    + by rewrite (filter_cons_False _ _ _ Hn).
    + rewrite !filter_cons. by rewrite IH.
Qed.

(** X4: [execute] on a task whose ETA is still ahead does not call the
    body: it adds the task to the schedule under its ETA and sends the
    SCHEDULED signal, leaving the queue and the result store alone, so
    that [scheduled_count] is one more than before.  [read_schedule] then
    keeps the task back as long as it is asked with a time before the ETA,
    when it answers what it would have answered without the task, and hands
    it out once the time has come; whatever it leaves on the schedule is due
    later than the time asked. *)
Theorem task_not_due_goes_to_schedule (enq : Task -> M (Task * handle)) (h : Huey)
    (t : Task) (e ts : Z) (w : World) :
  eta t = Some e ->
  ts < e ->
  let w1 := logged [Log INFO "Added task %s to schedule, eta %s" t;
                    Signal SIGNAL_SCHEDULED t None] (on_schedule t e w) in
  execute enq h t (Some ts) w = (Ok (t, VNone), w1)
  /\ queue (storage w1) = queue (storage w)
  /\ data (storage w1) = data (storage w)
  /\ (forall i, calls_of i (trace w1) = calls_of i (trace w))
  /\ fst (scheduled_count w1)
     = Ok (Z.of_nat (length (schedule (storage w))) + 1)
  /\ forall now, exists tasks w2,
       read_schedule (Some now) w1 = (Ok tasks, w2)
       /\ (forall x, x ∈ schedule (storage w2) -> now < fst x)
       /\ (now < e ->
           fst (read_schedule (Some now) w) = Ok tasks
           /\ (e, serialize_task t) ∈ schedule (storage w2))
       /\ (e <= now -> t ∈ tasks).
Proof.
  intros Heta Hts w1.
  split.
  { unfold execute, bind at 1, ret at 1, ready_to_run. rewrite Heta.
    replace (e <=? ts) with false by (symmetry; apply Z.leb_gt; lia).
    cbn [negb]. unfold bind. rewrite add_schedule_eq. rewrite Heta. reflexivity. }
  split; [reflexivity|]. split; [reflexivity|].
  split.
  { intros i. unfold w1. rewrite trace_logged. unfold calls_of.
    rewrite List.filter_app, length_app. simpl. lia. }
  split.
  { unfold scheduled_count, with_storage, storage_schedule_size. cbn [fst].
    f_equal. simpl. rewrite length_schedule_insert. lia. }
  intros now. eexists _, _. split; [reflexivity|].
  split.
  { intros x. cbn [snd storage schedule set_storage with_storage]. simpl.
    rewrite list_elem_of_filter. lia. }
  split.
  - intros Hnow. split.
    + simpl. f_equal. f_equal. f_equal. symmetry.
      apply filter_schedule_insert_out. simpl. lia.
    + simpl. rewrite list_elem_of_filter. split; [simpl; lia|].
      apply elem_of_schedule_insert. by left.
  - intros Hnow. simpl. apply list_elem_of_fmap.
    exists (serialize_task t). split; [reflexivity|].
    apply list_elem_of_fmap. exists (e, serialize_task t). split; [reflexivity|].
    rewrite list_elem_of_filter. split; [simpl; lia|].
    apply elem_of_schedule_insert. by left.
Qed.

(** ** Hooks and exceptions around the body *)

Lemma pre_hooks_app (before rest : list (string * (Task -> option exception)))
    (t : Task) :
  Forall (fun hook => passes (snd hook t)) before ->
  pre_hook_stop (before ++ rest) t = pre_hook_stop rest t
  /\ pre_hook_events (before ++ rest) t
     = pre_hook_events before t ++ pre_hook_events rest t.
Proof.
  induction 1 as [|[n cb] before Hcb _ IH]; [done|].
  destruct IH as [IH1 IH2]. simpl in *.
  destruct (cb t) as [e|]; [|by rewrite IH1, IH2].
  destruct e; try done; simpl in Hcb; rewrite ?Hcb; simpl; by rewrite IH1, IH2.
Qed.

Lemma pre_hooks_pass (hooks : list (string * (Task -> option exception))) (t : Task) :
  Forall (fun hook => passes (snd hook t)) hooks -> pre_hook_stop hooks t = None.
Proof.
  intros H. destruct (pre_hooks_app hooks [] t H) as [H1 _].
  by rewrite app_nil_r in H1.
Qed.

Lemma post_hooks_pass
    (hooks : list (string * (Task -> pyval -> option exception -> option exception)))
    (t : Task) (v : pyval) (exc : option exception) :
  Forall (fun hook => match snd hook t v exc with
                      | Some e => is_Exception e = true
                      | None => True
                      end) hooks ->
  post_hook_stop hooks t v exc = None.
Proof.
  induction 1 as [|[n cb] hooks Hcb _ IH]; [done|].
  simpl in *. destruct (cb t v exc) as [e|]; [|exact IH]. by rewrite Hcb.
Qed.

(** X5: when a pre-execute hook raises [CancelExecution], the hooks before
    it having let the task through or failed with ordinary exceptions,
    [_execute] sends the CANCELED signal and returns [None]: the hooks
    after it and the body are not called, nothing is enqueued, and the
    broker is left as it was, in any mode. *)
Theorem CancelExecution_cancels_the_task (enq : Task -> M (Task * handle))
    (h : Huey) (t : Task) (ts : Z) (w : World)
    (before after : list (string * (Task -> option exception)))
    (name : string) (cb : Task -> option exception) :
  _pre_execute h = before ++ (name, cb) :: after ->
  Forall (fun hook => passes (snd hook t)) before ->
  cb t = Some CancelExecution ->
  let w' := logged (pre_hook_events before t
                    ++ [Log DEBUG "Pre-execute hook %s for %s." t;
                        PreHook name t;
                        Log WARNING "Task %s cancelled by %s." t;
                        Signal SIGNAL_CANCELED t None]) w in
  _execute enq h t ts w = (Ok (t, VNone), w')
  /\ storage w' = storage w
  /\ forall i, calls_of i (trace w') = calls_of i (trace w).
Proof.
  intros Hhooks Hbefore Hcb w'.
  destruct (pre_hooks_app before ((name, cb) :: after) t Hbefore) as [Hstop Hev].
  simpl in Hstop, Hev. rewrite Hcb in Hstop, Hev.
  split; [|split].
  - unfold _execute, bind at 1. rewrite _execute_pre_eq, Hhooks, Hstop, Hev.
    unfold ret, w'. by rewrite <- app_assoc.
  - reflexivity.
  - intros i. unfold w'. rewrite trace_logged, !calls_of_app, calls_of_pre_hooks.
    unfold calls_of. simpl. lia.
Qed.

(** An exception of the body that is no [Exception] leaves [_execute]
    before anything is recorded. *)
Lemma _execute_not_Exception (enq : Task -> M (Task * handle)) (h : Huey)
    (t : Task) (ts : Z) (w : World) (e : exception) (tb : string) :
  pre_hook_stop (_pre_execute h) t = None ->
  cls_func (task_class t) (args t) (kwargs t) = Raises e tb ->
  is_Exception e = false ->
  _execute enq h t ts w
  = (match e with KeyboardInterrupt => Ok (t, VNone) | _ => Raise e end,
     logged (pre_hook_events (_pre_execute h) t
             ++ Call t :: match e with
                          | KeyboardInterrupt =>
                              [Log WARNING "Received exit signal, %s did not finish." t]
                          | _ => []
                          end) w).
Proof.
  intros Hpre Hbody He.
  unfold _execute, bind at 1. rewrite _execute_pre_eq, Hpre.
  unfold bind at 1. rewrite emit_event_eq, logged_logged. rewrite Hbody.
  destruct e; try discriminate He.
  - unfold bind, logger. rewrite emit_event_eq, logged_logged, <- app_assoc.
    reflexivity.
  - reflexivity.
Qed.

(** X6: when the body raises [KeyboardInterrupt], [_execute] logs that the
    task did not finish and returns [None]; any other exception that is no
    [Exception] goes through to the caller.  Either way nothing is stored,
    no post-execute hook runs, no continuation is enqueued and the task is
    not retried, whatever [retries] and [on_error] are: the broker is left
    as it was. *)
Theorem interrupt_records_nothing (enq : Task -> M (Task * handle)) (h : Huey)
    (t : Task) (ts : Z) (w : World) (e : exception) (tb : string) :
  pre_hook_stop (_pre_execute h) t = None ->
  cls_func (task_class t) (args t) (kwargs t) = Raises e tb ->
  is_Exception e = false ->
  let run := _execute enq h t ts w in
  fst run = match e with KeyboardInterrupt => Ok (t, VNone) | _ => Raise e end
  /\ storage (snd run) = storage w
  /\ trace (snd run)
     = trace w ++ pre_hook_events (_pre_execute h) t
       ++ Call t :: match e with
                    | KeyboardInterrupt =>
                        [Log WARNING "Received exit signal, %s did not finish." t]
                    | _ => []
                    end.
Proof.
  intros Hpre Hbody He run. unfold run.
  rewrite (_execute_not_Exception _ _ _ _ _ e tb) by assumption.
  done.
Qed.

Lemma storage_ext (st st' : Storage) :
  queue st = queue st' -> schedule st = schedule st' -> data st = data st' -> st = st'.
Proof. destruct st, st'. simpl. by intros -> -> ->. Qed.

Lemma recorded_same_flags (h h' : Huey) (t : Task) (v : pyval)
    (exc : option (exception * string)) (w : World) :
  results h' = results h -> store_none h' = store_none h ->
  recorded h' t v exc w = recorded h t v exc w.
Proof. intros Hr Hs. unfold recorded. by rewrite Hr, Hs. Qed.

(** X7: hooks that fail with ordinary exceptions are logged and otherwise
    ignored.  Outside immediate mode, when no pre-execute hook cancels and
    no hook raises anything that is not an [Exception], [_execute] returns
    what it returns with empty hook tables and leaves the same queue,
    schedule and result store. *)
Theorem failing_hooks_are_ignored (fuel : nat) (h : Huey) (t : Task) (ts : Z)
    (w : World) :
  immediate h = false ->
  Forall (fun hook => forall t', passes (snd hook t')) (_pre_execute h) ->
  Forall (fun hook => forall t' v exc,
              match snd hook t' v exc with
              | Some e => is_Exception e = true
              | None => True
              end) (_post_execute h) ->
  let h0 := set__post_execute (set__pre_execute h []) [] in
  let run := _execute (enqueue fuel h) h t ts w in
  let run0 := _execute (enqueue fuel h0) h0 t ts w in
  fst run = fst run0
  /\ storage (snd run) = storage (snd run0)
  /\ clock (snd run) = clock (snd run0).
Proof.
  intros Hi Hpre Hpost h0 run run0.
  assert (Hpre' : pre_hook_stop (_pre_execute h) t = None).
  { apply pre_hooks_pass. eapply Forall_impl; [exact Hpre|]. intros x Hx. apply Hx. }
  assert (Hpost' : forall t' v exc, post_hook_stop (_post_execute h) t' v exc = None).
  { intros t' v exc. apply post_hooks_pass.
    eapply Forall_impl; [exact Hpost|]. intros x Hx. apply Hx. }
  unfold run, run0.
  destruct (cls_func (task_class t) (args t) (kwargs t)) as [v|e tb] eqn:Hbody.
  - destruct (_execute_success_consumer fuel h t ts w v Hi Hpre' Hbody (Hpost' _ _ _))
      as (w1 & -> & _ & Hd & Hq & Hs & Hc).
    destruct (_execute_success_consumer fuel h0 t ts w v Hi eq_refl Hbody eq_refl)
      as (w2 & -> & _ & Hd0 & Hq0 & Hs0 & Hc0).
    cbn [fst snd]. split; [reflexivity|]. split; [|congruence].
    apply storage_ext; [congruence|congruence|].
    rewrite Hd, Hd0. by rewrite (recorded_same_flags h h0).
  - destruct (is_Exception e) eqn:He.
    + destruct (_execute_failure_consumer fuel h t ts w e tb Hi Hpre' Hbody He
                  (Hpost' _ _ _))
        as (w1 & -> & _ & Hd & Hq & Hs & Hc & _).
      destruct (_execute_failure_consumer fuel h0 t ts w e tb Hi eq_refl Hbody He
                  eq_refl)
        as (w2 & -> & _ & Hd0 & Hq0 & Hs0 & Hc0 & _).
      cbn [fst snd]. split; [reflexivity|]. split; [|congruence].
      apply storage_ext; [congruence|congruence|].
      rewrite Hd, Hd0. by rewrite (recorded_same_flags h h0).
    + rewrite (_execute_not_Exception _ h _ _ _ e tb) by assumption.
      rewrite (_execute_not_Exception _ h0 _ _ _ e tb) by done.
      done.
Qed.

(** ** What reaches the result store *)

(** Outside immediate mode a call of [_execute] on a task for which the
    result-store step is switched off leaves the result store as it found
    it, however the call ends. *)
Lemma _execute_unrecorded_data_consumer (fuel : nat) (h : Huey) (t : Task) (ts : Z)
    (w : World) :
  immediate h = false ->
  results h && negb (isinstance_PeriodicTask t) = false ->
  data (storage (snd (_execute (enqueue fuel h) h t ts w))) = data (storage w).
Proof.
  intros Hi Hoff.
  assert (Hfin : forall t' v exc w0,
             isinstance_PeriodicTask t' = isinstance_PeriodicTask t ->
             data (storage w0) = data (storage w) ->
             data (storage (snd (_execute_finish (enqueue fuel h) h t' v exc w0)))
             = data (storage w)).
  { intros t' v exc w0 Hp' Hw0.
    rewrite _execute_finish_data_consumer by exact Hi.
    unfold recorded. rewrite Hp', Hoff. exact Hw0. }
  unfold _execute, bind at 1. rewrite _execute_pre_eq.
  destruct (pre_hook_stop (_pre_execute h) t) as [e|].
  { destruct e; reflexivity. }
  unfold bind at 1. rewrite emit_event_eq.
  destruct (cls_func (task_class t) (args t) (kwargs t)) as [v|e tb].
  { unfold bind at 1, logger. rewrite emit_event_eq.
    unfold bind at 1, _emit. rewrite emit_event_eq.
    by apply Hfin. }
  destruct e; cbn [is_Exception];
    try (unfold bind at 1, logger; rewrite emit_event_eq;
         unfold bind at 1, _emit; rewrite emit_event_eq;
         by apply Hfin);
    try reflexivity.
  unfold bind at 1, logger. rewrite emit_event_eq.
  apply Hfin; [|reflexivity].
  unfold isinstance_PeriodicTask. by destruct (retries t =? 0).
Qed.

(** X8: with [results] switched off, [enqueue] hands back no handle in any
    mode, and outside immediate mode neither [enqueue] nor [_execute]
    writes to the result store, whether the body returns or raises. *)
Theorem results_disabled_stores_nothing (fuel : nat) (h : Huey) (t : Task) (ts : Z)
    (w : World) :
  results h = false ->
  (forall t' hd w', enqueue fuel h t w = (Ok (t', hd), w') -> hd = NoHandle)
  /\ (immediate h = false ->
      data (storage (snd (enqueue fuel h t w))) = data (storage w)
      /\ data (storage (snd (_execute (enqueue fuel h) h t ts w))) = data (storage w)).
Proof.
  intros Hres. split.
  - intros t' hd w' Hrun.
    assert (Hh : forall t0, result_handle h t0 = NoHandle).
    { intros t0. unfold result_handle. by rewrite Hres. }
    destruct (immediate h) eqn:Hi.
    + destruct fuel as [|fuel]; cbn [enqueue] in Hrun; rewrite Hi in Hrun;
        unfold bind at 1, _emit in Hrun; rewrite emit_event_eq in Hrun.
      * discriminate Hrun.
      * unfold bind in Hrun.
        destruct (execute _ _ _ _ _) as [[[t1 v1]| |] w1]; try discriminate Hrun.
        unfold ret in Hrun. injection Hrun as _ <- _. apply Hh.
    + rewrite enqueue_consumer in Hrun by exact Hi.
      injection Hrun as _ <- _. apply Hh.
  - intros Hi. split.
    + by rewrite enqueue_consumer.
    + apply _execute_unrecorded_data_consumer; [exact Hi|]. by rewrite Hres.
Qed.

(** A read that does not block is one call of [_get]. *)
Lemma Result_get_nonblocking (fuel : nat) (r : Result) (timeout : option Q)
    (backoff max_delay : Q) (revoke_on_timeout preserve : bool) (w : World) :
  Result_get fuel r false timeout backoff max_delay revoke_on_timeout preserve w
  = match _get r preserve w with
    | (Ok (r', Some (VError error retries traceback)), w') =>
        (Raise (TaskException error retries traceback), w')
    | (Ok (r', Some v), w') => (Ok (r', v), w')
    | (Ok (r', None), w') => (Ok (r', VNone), w')
    | (Raise e, w') => (Raise e, w')
    | (Diverge, w') => (Diverge, w')
    end.
Proof.
  unfold Result_get, get_raw_result, bind. cbn [negb].
  destruct (_get r preserve w) as [[[r' [v|]]| |] w']; try reflexivity.
  destruct v; reflexivity.
Qed.

(** X9: a body that returns [None] leaves a record only when [store_none]
    is set (and results are on and the task is not periodic).  A reader
    cannot tell the difference by the value: [get()] on a fresh handle
    answers [None] in both cases, but in the first it has read and removed a
    stored [None], which the handle now holds. *)
Theorem None_is_stored_only_with_store_none (fuel : nat) (h : Huey) (t : Task)
    (ts : Z) (w : World) :
  immediate h = false ->
  pre_hook_stop (_pre_execute h) t = None ->
  cls_func (task_class t) (args t) (kwargs t) = Returns VNone ->
  post_hook_stop (_post_execute h) t VNone None = None ->
  data (storage w) !! id t = None ->
  let w1 := snd (_execute (enqueue fuel h) h t ts w) in
  let r := Result_init t in
  (if results h && negb (isinstance_PeriodicTask t) && store_none h
   then data (storage w1) = <[id t := serialize VNone]> (data (storage w))
        /\ Result_get_default r false w1
           = (Ok (set_result r (Some VNone), VNone), popped (id t) w1)
   else data (storage w1) = data (storage w)
        /\ Result_get_default r false w1 = (Ok (r, VNone), w1)).
Proof.
  intros Hi Hpre Hbody Hpost Habsent w1 r.
  destruct (_execute_success_consumer fuel h t ts w VNone Hi Hpre Hbody Hpost)
    as (w' & Hrun & _ & Hd & _).
  assert (Hw1 : w1 = w') by (unfold w1; by rewrite Hrun).
  rewrite Hw1. clear Hw1 Hrun w1.
  unfold recorded in Hd. cbn [is_None negb orb] in Hd.
  destruct (results h && negb (isinstance_PeriodicTask t)); cbn [andb];
    [destruct (store_none h)|].
  - split; [exact Hd|].
    unfold Result_get_default. rewrite Result_get_nonblocking.
    rewrite (_get_first r VNone) by (try reflexivity; rewrite Hd; simpl;
                                     apply lookup_insert_eq).
    reflexivity.
  - split; [exact Hd|].
    unfold Result_get_default. rewrite Result_get_nonblocking.
    rewrite (_get_absent r) by (try reflexivity; rewrite Hd; exact Habsent).
    rewrite popped_clear, popped_absent by (rewrite Hd; exact Habsent).
    reflexivity.
  - split; [exact Hd|].
    unfold Result_get_default. rewrite Result_get_nonblocking.
    rewrite (_get_absent r) by (try reflexivity; rewrite Hd; exact Habsent).
    rewrite popped_clear, popped_absent by (rewrite Hd; exact Habsent).
    reflexivity.
Qed.

(** ** Enqueueing and reading results *)


(** X11: outside immediate mode the queue is first in, first out.
    [enqueue] does not call the body; it appends the task, so [pending]
    lists it last and [pending_count] and [len] grow by one.  [dequeue]
    answers the task that [pending] lists first and takes it off, and
    answers [None] when nothing is pending; neither touches the schedule or
    the result store. *)
Theorem queue_is_first_in_first_out (fuel : nat) (h : Huey) (t : Task) (w : World) :
  immediate h = false ->
  let items := map deserialize_task (queue (storage w)) in
  Huey_pending w = (Ok items, w)
  /\ Huey_len w = (Ok (Z.of_nat (length items)), w)
  /\ (exists w1,
        enqueue fuel h t w = (Ok (t, result_handle h t), w1)
        /\ Huey_pending w1 = (Ok (items ++ [t]), w1)
        /\ pending_count w1 = (Ok (Z.of_nat (length items) + 1), w1)
        /\ (forall i, calls_of i (trace w1) = calls_of i (trace w))
        /\ schedule (storage w1) = schedule (storage w)
        /\ data (storage w1) = data (storage w))
  /\ (exists w2,
        dequeue w = (Ok (head items), w2)
        /\ Huey_pending w2 = (Ok (tail items), w2)
        /\ schedule (storage w2) = schedule (storage w)
        /\ data (storage w2) = data (storage w)
        /\ trace w2 = trace w).
Proof.
  intros Hi items.
  assert (Hsame : forall w0, set_storage w0 (storage w0) = w0)
    by apply set_storage_same.
  split.
  { unfold Huey_pending, with_storage. by rewrite Hsame. }
  split.
  { unfold Huey_len, pending_count, with_storage, storage_queue_size.
    rewrite Hsame. unfold items. by rewrite length_map. }
  split.
  - eexists. split; [by apply enqueue_consumer|].
    split.
    { unfold Huey_pending, with_storage. rewrite Hsame.
      unfold storage_enqueued_items. simpl. by rewrite map_app. }
    split.
    { unfold pending_count, with_storage, storage_queue_size. rewrite Hsame.
      simpl. rewrite length_app. unfold items. rewrite length_map. simpl.
      f_equal. f_equal. lia. }
    split.
    { intros i. simpl. rewrite calls_of_app. unfold calls_of. simpl. lia. }
    done.
  - unfold items. destruct (queue (storage w)) as [|d q] eqn:Hq.
    + exists w. rewrite dequeue_nil by exact Hq. split; [reflexivity|].
      split; [|done].
      unfold Huey_pending, with_storage. rewrite Hsame.
      unfold storage_enqueued_items. by rewrite Hq.
    + eexists. rewrite (dequeue_cons d q) by exact Hq. split; [reflexivity|].
      split; [|done].
      unfold Huey_pending, with_storage. by rewrite Hsame.
Qed.

(** A handle matters to a read by the id of its task and by what it holds:
    with another task of the same id the read goes the same way. *)
Lemma _get_retask (t' : Task) (r : Result) (preserve : bool) (w : World) :
  id t' = id (result_task r) ->
  _get (retask t' r) preserve w
  = on_result (fun x => (retask t' (fst x), snd x)) (_get r preserve w).
Proof.
  intros Hid. unfold _get. cbn [retask _result result_task]. rewrite Hid.
  destruct (_result r) as [v|]; [reflexivity|].
  unfold bind. destruct (get_raw (id (result_task r)) preserve w) as [[[d|]| |] w'];
    reflexivity.
Qed.

(** One turn of the polling loop for a handle that holds nothing. *)
Lemma poll_step (fuel : nat) (r : Result) (start delay : Q) (timeout : option Q)
    (backoff max_delay : Q) (rot preserve : bool) (w : World) :
  _result r = None ->
  poll (S fuel) r start delay timeout backoff max_delay rot preserve w
  = if timed_out timeout (time_time w) start then
      (Raise (NameError "DataStoreTimeout"),
       if rot
       then stored (revoke_id (result_task r)) (VTuple [VNone; VBool true]) w
       else w)
    else
      let d := if Qlt_le_dec max_delay delay then max_delay else delay in
      match _get r preserve w with
      | (Ok (r1, Some _), w1) =>
          poll fuel r1 start d timeout backoff max_delay rot preserve w1
      | (Ok (r1, None), w1) =>
          match time_sleep d w1 with
          | (Ok _, w2) =>
              poll fuel r1 start (d * backoff)%Q timeout backoff max_delay rot
                preserve w2
          | (Raise e, w2) => (Raise e, w2)
          | (Diverge, w2) => (Diverge, w2)
          end
      | (Raise e, w1) => (Raise e, w1)
      | (Diverge, w1) => (Diverge, w1)
      end.
Proof.
  intros Hr. cbn [poll]. rewrite Hr. unfold bind at 1, time_time_now.
  destruct (timed_out timeout (time_time w) start).
  - destruct rot; reflexivity.
  - cbv zeta. unfold bind at 1.
    destruct (_get r preserve w) as [[[r1 [v|]]| |] w1]; try reflexivity.
Qed.

Lemma _get_keeps_id (r r1 : Result) (res : option pyval) (preserve : bool)
    (w w1 : World) :
  _get r preserve w = (Ok (r1, res), w1) -> result_task r1 = result_task r.
Proof.
  unfold _get. destruct (_result r) as [v|].
  - intros H. by inversion H.
  - unfold bind. destruct (get_raw _ _ _) as [[[d|]| |] w2]; intros H;
      inversion H; reflexivity.
Qed.

Lemma poll_retask (t' : Task) (fuel : nat) :
  forall (r : Result) (start delay : Q) (timeout : option Q) (backoff max_delay : Q)
         (rot preserve : bool) (w : World),
    id t' = id (result_task r) ->
    poll fuel (retask t' r) start delay timeout backoff max_delay rot preserve w
    = on_result (retask t')
        (poll fuel r start delay timeout backoff max_delay rot preserve w).
Proof.
  induction fuel as [|fuel IH]; intros r start delay timeout backoff max_delay
                                       rot preserve w Hid.
  - simpl. destruct (_result r); reflexivity.
  - destruct (_result r) as [v|] eqn:Hr.
    { rewrite (poll_cached _ r v) by exact Hr.
      by rewrite (poll_cached _ (retask t' r) v) by exact Hr. }
    rewrite !poll_step by exact Hr.
    destruct (timed_out timeout (time_time w) start).
    + unfold revoke_id. cbn [retask result_task]. rewrite Hid. reflexivity.
    + cbv zeta. rewrite _get_retask by exact Hid.
      destruct (_get r preserve w) as [[[r1 [v|]]| |] w1] eqn:Hget;
        cbn [on_result fst snd]; try reflexivity.
      * apply IH. by rewrite (_get_keeps_id _ _ _ _ _ _ Hget).
      * destruct (time_sleep _ w1) as [[[]| |] w2]; try reflexivity.
        apply IH. by rewrite (_get_keeps_id _ _ _ _ _ _ Hget).
Qed.

(** A read that blocks is the polling loop started at the present time
    with a delay of a tenth of a second. *)
Lemma Result_get_blocking (fuel : nat) (r : Result) (timeout : option Q)
    (backoff max_delay : Q) (revoke_on_timeout preserve : bool) (w : World) :
  Result_get fuel r true timeout backoff max_delay revoke_on_timeout preserve w
  = match poll fuel r (time_time w) (1 # 10)%Q timeout backoff max_delay
            revoke_on_timeout preserve w with
    | (Ok r1, w1) =>
        match _result r1 with
        | Some (VError error retries traceback) =>
            (Raise (TaskException error retries traceback), w1)
        | Some v => (Ok (r1, v), w1)
        | None => (Diverge, w1)
        end
    | (Raise e, w1) => (Raise e, w1)
    | (Diverge, w1) => (Diverge, w1)
    end.
Proof.
  unfold Result_get, get_raw_result, bind, time_time_now. cbn [negb].
  destruct (poll fuel r _ _ _ _ _ _ _ w) as [[r1| |] w1]; try reflexivity.
  destruct (_result r1) as [v|]; [|reflexivity].
  destruct v; reflexivity.
Qed.

Lemma Result_get_retask (t' : Task) (fuel : nat) (r : Result) (blocking : bool)
    (timeout : option Q) (backoff max_delay : Q) (rot preserve : bool) (w : World) :
  id t' = id (result_task r) ->
  Result_get fuel (retask t' r) blocking timeout backoff max_delay rot preserve w
  = on_result (fun x => (retask t' (fst x), snd x))
      (Result_get fuel r blocking timeout backoff max_delay rot preserve w).
Proof.
  intros Hid. destruct blocking.
  - rewrite !Result_get_blocking, poll_retask by exact Hid.
    destruct (poll fuel r _ _ _ _ _ _ _ w) as [[r1| |] w1];
      cbn [on_result fst snd retask _result]; try reflexivity.
    destruct (_result r1) as [v|]; [|reflexivity].
    destruct v; reflexivity.
  - rewrite !Result_get_nonblocking, _get_retask by exact Hid.
    destruct (_get r preserve w) as [[[r1 [v|]]| |] w1];
      cbn [on_result fst snd]; try reflexivity.
    destruct v; reflexivity.
Qed.

(** X12: [Huey.result(id, ...)] yields what [get(...)] yields on a fresh
    handle of any task with that id, with the same arguments, blocking or
    not, and leaves the same world: the read goes by the id alone.  The id
    is that of a task, so it is not the empty string. *)
Theorem result_by_id_is_get_on_a_handle (fuel : nat) (t : Task) (blocking : bool)
    (timeout : option Q) (backoff max_delay : Q) (revoke_on_timeout preserve : bool)
    (w : World) :
  id t <> "" ->
  Huey_result fuel (id t) blocking timeout backoff max_delay revoke_on_timeout
    preserve w
  = on_result snd
      (Result_get fuel (Result_init t) blocking timeout backoff max_delay
         revoke_on_timeout preserve w).
Proof.
  intros _. unfold Huey_result, bind.
  change (Result_init (Task_of_id (id t)))
    with (retask (Task_of_id (id t)) (Result_init t)).
  rewrite Result_get_retask by reflexivity.
  destruct (Result_get fuel (Result_init t) _ _ _ _ _ _ w) as [[[r1 v]| |] w1];
    reflexivity.
Qed.

(** X13: a read that does not block and finds nothing answers [None],
    changes nothing in the world and leaves the handle empty, so the miss is
    not remembered: once a value has been put under the id, the same handle
    yields it, and a read with [preserve=False] takes it out of the store
    again. *)
Theorem missing_result_is_not_cached (fuel : nat) (r : Result) (timeout : option Q)
    (backoff max_delay : Q) (revoke_on_timeout preserve : bool) (w : World) :
  _result r = None ->
  data (storage w) !! id (result_task r) = None ->
  Result_get fuel r false timeout backoff max_delay revoke_on_timeout preserve w
  = (Ok (r, VNone), w)
  /\ forall v,
       (forall error retries traceback, v <> VError error retries traceback) ->
       Result_get fuel r false timeout backoff max_delay revoke_on_timeout preserve
         (stored (id (result_task r)) v w)
       = (Ok (set_result r (Some v), v),
          if preserve then stored (id (result_task r)) v w else w).
Proof.
  intros Hr Habsent. split.
  - rewrite Result_get_nonblocking, _get_absent by assumption.
    rewrite popped_clear, popped_absent by exact Habsent.
    by destruct preserve.
  - intros v Herr.
    rewrite Result_get_nonblocking.
    rewrite (_get_first r v);
      [|exact Hr|rewrite data_stored; by rewrite decide_True].
    rewrite popped_clear, popped_stored, popped_absent by exact Habsent.
    destruct v as [| | | | | | | |err n tb]; try reflexivity.
    by destruct (Herr err n tb).
Qed.

Lemma fresh_value_popped (key : string) (w : World) (r : Result) :
  id (result_task r) <> key ->
  fresh_value w r -> fresh_value (popped key w) r.
Proof.
  intros Hne [Hr Herr]. split; [exact Hr|].
  intros error retries traceback. rewrite data_popped, decide_False by done.
  apply Herr.
Qed.

Lemma stored_value_popped (key k : string) (w : World) :
  k <> key -> stored_value (popped key w) k = stored_value w k.
Proof.
  intros Hne. unfold stored_value. by rewrite data_popped, decide_False.
Qed.

(** A read with [preserve=False] of a handle that has read nothing yet and
    whose record is no Error. *)
Lemma Result_get_fresh (fuel : nat) (r : Result) (timeout : option Q)
    (backoff max_delay : Q) (rot : bool) (w : World) :
  fresh_value w r ->
  exists r',
    Result_get fuel r false timeout backoff max_delay rot false w
    = (Ok (r', stored_value w (id (result_task r))), popped (id (result_task r)) w)
    /\ result_task r' = result_task r.
Proof.
  intros [Hr Herr]. rewrite Result_get_nonblocking. unfold stored_value.
  destruct (data (storage w) !! id (result_task r)) as [[v]|] eqn:Hd.
  - rewrite (_get_first r v) by assumption. rewrite popped_clear.
    exists (set_result r (Some v)). split; [|reflexivity].
    destruct v as [| | | | | | | |err n tb]; try reflexivity.
    by destruct (Herr err n tb).
  - rewrite _get_absent by assumption. rewrite popped_clear.
    by exists r.
Qed.

Lemma ResultGroup_get_fresh (fuel : nat) (timeout : option Q) (backoff max_delay : Q)
    (rot : bool) (rs : list Result) :
  forall w,
    Forall (fresh_value w) rs ->
    NoDup (handle_ids rs) ->
    exists rs' w',
      ResultGroup_get fuel rs false timeout backoff max_delay rot false w
      = (Ok (rs', map (fun r => stored_value w (id (result_task r))) rs), w')
      /\ handle_ids rs' = handle_ids rs
      /\ queue (storage w') = queue (storage w)
      /\ schedule (storage w') = schedule (storage w)
      /\ trace w' = trace w
      /\ forall k, data (storage w') !! k
                   = if decide (k ∈ handle_ids rs) then None
                     else data (storage w) !! k.
Proof.
  induction rs as [|r rs IH]; intros w Hfresh Hnd.
  - exists [], w. repeat split; reflexivity.
  - apply Forall_cons in Hfresh as [Hr Hrs].
    cbn [handle_ids map] in Hnd. apply NoDup_cons in Hnd as [Hnotin Hnd].
    destruct (Result_get_fresh fuel r timeout backoff max_delay rot w Hr)
      as (r' & Hget & Hr').
    destruct (IH (popped (id (result_task r)) w)) as (rs' & w' & Hrun & Hids & Hq & Hs & Htr & Hd).
    { rewrite Forall_forall in Hrs. apply Forall_forall. intros x Hx.
      apply fresh_value_popped; [|by apply Hrs].
      intros Heq. apply Hnotin. rewrite <- Heq.
      apply list_elem_of_fmap. by exists x. }
    { exact Hnd. }
    exists (r' :: rs'), w'. split.
    { cbn [ResultGroup_get]. unfold bind at 1. rewrite Hget.
      unfold bind. rewrite Hrun. unfold ret. cbn [map]. do 4 f_equal.
      apply map_ext_in. intros x Hx. apply stored_value_popped.
      intros Heq. apply Hnotin. rewrite <- Heq.
      apply list_elem_of_fmap. exists x. split; [reflexivity|].
      by apply list_elem_of_In. }
    split; [cbn [handle_ids map]; rewrite Hr'; f_equal; exact Hids|].
    split; [by rewrite Hq|]. split; [by rewrite Hs|]. split; [by rewrite Htr|].
    intros k. rewrite Hd. cbn [handle_ids map]. fold (handle_ids rs).
    destruct (decide (k ∈ handle_ids rs)) as [Hin|Hnin].
    + rewrite decide_True; [reflexivity|]. by apply list_elem_of_further.
    + rewrite data_popped.
      destruct (decide (id (result_task r) = k)) as [->|Hne].
      * rewrite decide_True; [reflexivity|]. apply list_elem_of_here.
      * rewrite decide_False; [reflexivity|].
        intros Hin. apply elem_of_cons in Hin as [->|Hin]; [by apply Hne|by apply Hnin].
Qed.

(** X14: [ResultGroup.get()] reads its handles from left to right.  When
    the handles are fresh, belong to different ids and none of the records is
    an Error, it answers the list of what is stored under the ids, in that
    order, with [None] where nothing is stored, and afterwards none of the
    ids is in the result store.  When a handle further on finds an Error
    record, the call raises [TaskException] with that record, and what the
    handles before it have read is gone from the store all the same. *)
Theorem ResultGroup_get_reads_in_order (fuel : nat) (timeout : option Q)
    (backoff max_delay : Q) (revoke_on_timeout : bool) (rs : list Result) (w : World) :
  Forall (fresh_value w) rs ->
  NoDup (handle_ids rs) ->
  (exists rs' w',
      ResultGroup_get fuel rs false timeout backoff max_delay revoke_on_timeout false w
      = (Ok (rs', map (fun r => stored_value w (id (result_task r))) rs), w')
      /\ handle_ids rs' = handle_ids rs
      /\ forall k, data (storage w') !! k
                   = if decide (k ∈ handle_ids rs) then None
                     else data (storage w) !! k)
  /\ forall r rest error retries traceback,
       _result r = None ->
       id (result_task r) ∉ handle_ids rs ->
       data (storage w) !! id (result_task r)
       = Some (serialize (VError error retries traceback)) ->
       exists w',
         ResultGroup_get fuel (rs ++ r :: rest) false timeout backoff max_delay
           revoke_on_timeout false w
         = (Raise (TaskException error retries traceback), w')
         /\ forall k, data (storage w') !! k
                      = if decide (k ∈ handle_ids (rs ++ [r])) then None
                        else data (storage w) !! k.
Proof.
  intros Hfresh Hnd. split.
  - destruct (ResultGroup_get_fresh fuel timeout backoff max_delay revoke_on_timeout
                rs w Hfresh Hnd) as (rs' & w' & Hrun & Hids & _ & _ & _ & Hd).
    by exists rs', w'.
  - intros r rest error retries traceback Hr Hnotin Herr.
    destruct (ResultGroup_get_fresh fuel timeout backoff max_delay revoke_on_timeout
                rs w Hfresh Hnd) as (rs' & w1 & Hrun & _ & _ & _ & _ & Hd).
    exists (popped (id (result_task r)) w1).
    assert (Happ : forall rs0 w0 rs0' vs0 w0',
               ResultGroup_get fuel rs0 false timeout backoff max_delay
                 revoke_on_timeout false w0 = (Ok (rs0', vs0), w0') ->
               fst (Result_get fuel r false timeout backoff max_delay
                      revoke_on_timeout false w0')
               = Raise (TaskException error retries traceback) ->
               ResultGroup_get fuel (rs0 ++ r :: rest) false timeout backoff max_delay
                 revoke_on_timeout false w0
               = (Raise (TaskException error retries traceback),
                  snd (Result_get fuel r false timeout backoff max_delay
                         revoke_on_timeout false w0'))).
    { induction rs0 as [|r0 rs0 IH]; intros w0 rs0' vs0 w0' Hrun0 Hraise.
      - cbn [ResultGroup_get] in Hrun0. inversion Hrun0; subst.
        cbn [app ResultGroup_get]. unfold bind at 1.
        destruct (Result_get fuel r _ _ _ _ _ _ w0') as [[[r1 v1]| |] w2];
          simpl in Hraise; try discriminate Hraise. by inversion Hraise.
      - cbn [app ResultGroup_get] in *. unfold bind at 1 in Hrun0.
        unfold bind at 1.
        destruct (Result_get fuel r0 _ _ _ _ _ _ w0) as [[[r1 v1]| |] w2];
          try discriminate Hrun0.
        unfold bind at 1 in Hrun0. unfold bind at 1.
        destruct (ResultGroup_get fuel rs0 _ _ _ _ _ _ w2) as [[[rs1 vs1]| |] w3] eqn:Hrest;
          try discriminate Hrun0.
        unfold ret in Hrun0. inversion Hrun0; subst.
        by rewrite (IH w2 rs1 vs1 w0' Hrest Hraise). }
    assert (Herr1 : data (storage w1) !! id (result_task r)
                    = Some (serialize (VError error retries traceback))).
    { rewrite Hd, decide_False by exact Hnotin. exact Herr. }
    assert (Hget : Result_get fuel r false timeout backoff max_delay revoke_on_timeout
                     false w1
                   = (Raise (TaskException error retries traceback),
                      popped (id (result_task r)) w1)).
    { rewrite Result_get_nonblocking, (_get_first r _ false w1 Hr Herr1).
      reflexivity. }
    split.
    + rewrite (Happ rs w rs' _ w1 Hrun); by rewrite Hget.
    + intros k. rewrite data_popped, Hd.
      unfold handle_ids. rewrite map_app. fold (handle_ids rs). cbn [map].
      destruct (decide (id (result_task r) = k)) as [<-|Hne].
      * rewrite decide_True; [reflexivity|].
        apply elem_of_app. right. apply list_elem_of_here.
      * destruct (decide (k ∈ handle_ids rs)) as [Hin|Hnin].
        -- rewrite decide_True; [reflexivity|]. apply elem_of_app. by left.
        -- rewrite decide_False; [reflexivity|].
           intros Hin. apply elem_of_app in Hin as [Hin|Hin]; [by apply Hnin|].
           apply list_elem_of_singleton in Hin. by apply Hne.
Qed.

(** ** Blocking reads *)

Lemma timed_out_zero (t now start : Q) :
  (t == 0)%Q -> timed_out (Some t) now start = false.
Proof.
  intros Ht. unfold timed_out.
  replace (Qeq_bool t 0) with true; [reflexivity|].
  symmetry. by apply Qeq_bool_iff.
Qed.

Lemma poll_zero_timeout (t : Q) (fuel : nat) :
  (t == 0)%Q ->
  forall (r : Result) (start delay backoff max_delay : Q) (rot preserve : bool)
         (w : World),
    poll fuel r start delay (Some t) backoff max_delay rot preserve w
    = poll fuel r start delay None backoff max_delay rot preserve w.
Proof.
  intros Ht. induction fuel as [|fuel IH];
    intros r start delay backoff max_delay rot preserve w.
  - reflexivity.
  - destruct (_result r) as [v|] eqn:Hr.
    { by rewrite !(poll_cached _ r v) by exact Hr. }
    rewrite !poll_step by exact Hr.
    rewrite timed_out_zero by exact Ht. cbn [timed_out]. cbv zeta.
    destruct (_get r preserve w) as [[[r1 [v|]]| |] w1]; try reflexivity.
    + apply IH.
    + destruct (time_sleep _ w1) as [[[]| |] w2]; try reflexivity. apply IH.
Qed.

(** X15: a timeout of zero is no timeout.  [get] with [timeout=0] does
    in every respect what it does with [timeout=None]: it never gives up
    and never revokes the task. *)
Theorem zero_timeout_is_no_timeout (fuel : nat) (r : Result) (blocking : bool)
    (t backoff max_delay : Q) (revoke_on_timeout preserve : bool) (w : World) :
  (t == 0)%Q ->
  timed_out (Some t) (time_time w) (time_time w) = false
  /\ Result_get fuel r blocking (Some t) backoff max_delay revoke_on_timeout preserve w
     = Result_get fuel r blocking None backoff max_delay revoke_on_timeout preserve w.
Proof.
  intros Ht. split; [by apply timed_out_zero|].
  destruct blocking.
  - by rewrite !Result_get_blocking, poll_zero_timeout.
  - by rewrite !Result_get_nonblocking.
Qed.




(** X17: a blocking [get] on a fresh handle whose value is already
    stored, called when the timeout has not run out, does what the read
    that does not block does: one read of the store and no sleep. *)
Theorem blocking_get_of_a_stored_value (fuel : nat) (r : Result) (timeout : option Q)
    (backoff max_delay : Q) (revoke_on_timeout preserve : bool) (w : World)
    (d : pickled pyval) :
  _result r = None ->
  data (storage w) !! id (result_task r) = Some d ->
  timed_out timeout (time_time w) (time_time w) = false ->
  Result_get (S fuel) r true timeout backoff max_delay revoke_on_timeout preserve w
  = Result_get 0 r false timeout backoff max_delay revoke_on_timeout preserve w
  /\ trace (snd (Result_get (S fuel) r true timeout backoff max_delay
                   revoke_on_timeout preserve w)) = trace w.
Proof.
  intros Hr Hd Hto.
  assert (Heq : Result_get (S fuel) r true timeout backoff max_delay
                  revoke_on_timeout preserve w
                = Result_get 0 r false timeout backoff max_delay revoke_on_timeout
                    preserve w).
  { rewrite Result_get_blocking, Result_get_nonblocking, poll_step by exact Hr.
    rewrite Hto. cbv zeta. destruct d as [v].
    rewrite (_get_first r v) by assumption.
    rewrite (poll_cached _ _ v) by reflexivity. cbn [set_result _result].
    reflexivity. }
  split; [exact Heq|].
  rewrite Heq, Result_get_nonblocking. destruct d as [v].
  rewrite (_get_first r v) by assumption.
  destruct v, preserve; reflexivity.
Qed.

(** ** Task locks *)

Lemma TaskLock_enter_held (l : TaskLock) (d : pickled pyval) (w : World) :
  data (storage w) !! _key l = Some d ->
  TaskLock_enter l w
  = (Raise (TaskLockedException ("unable to set lock: " +:+ _name l)), w).
Proof.
  intros Hd. unfold TaskLock_enter, bind, put_if_empty, with_storage,
    storage_put_if_empty. rewrite Hd. by rewrite set_storage_same.
Qed.

Lemma TaskLock_enter_free (l : TaskLock) (w : World) :
  data (storage w) !! _key l = None ->
  TaskLock_enter l w = (Ok tt, stored (_key l) (VStr "1") w).
Proof.
  intros Hd. unfold TaskLock_enter, bind, put_if_empty, with_storage,
    storage_put_if_empty. by rewrite Hd.
Qed.

Lemma TaskLock_exit_eq (l : TaskLock) (w : World) :
  TaskLock_exit l w = (Ok tt, popped (_key l) w).
Proof. reflexivity. Qed.

(** X18: a task lock is exclusive, not re-entrant, and released on every
    way out.  While the key of the lock is in the store, entering the
    protected region raises [TaskLockedException] and neither runs the body
    nor changes anything.  When the key is free, the body runs with the key
    set, and whether the body returns or raises the key is deleted
    afterwards; taking the same lock again inside the region raises
    [TaskLockedException] without running the inner body, and the outer
    exit frees the lock all the same. *)
Theorem task_lock_is_exclusive_and_released {A} (l : TaskLock) (body : M A)
    (w : World) :
  let locked := TaskLockedException ("unable to set lock: " +:+ _name l) in
  (forall d, data (storage w) !! _key l = Some d ->
             with_lock l body w = (Raise locked, w))
  /\ (data (storage w) !! _key l = None ->
      let w1 := stored (_key l) (VStr "1") w in
      with_lock l body w
      = match body w1 with
        | (Ok a, w2) => (Ok a, popped (_key l) w2)
        | (Raise e, w2) => (Raise e, popped (_key l) w2)
        | (Diverge, w2) => (Diverge, w2)
        end
      /\ (fst (body w1) <> Diverge ->
          data (storage (snd (with_lock l body w))) !! _key l = None)
      /\ with_lock l (with_lock l body) w = (Raise locked, w)).
Proof.
  intros locked. split.
  - intros d Hd. unfold with_lock, bind. by rewrite (TaskLock_enter_held l d).
  - intros Hfree w1.
    assert (Hrun : with_lock l body w
                   = match body w1 with
                     | (Ok a, w2) => (Ok a, popped (_key l) w2)
                     | (Raise e, w2) => (Raise e, popped (_key l) w2)
                     | (Diverge, w2) => (Diverge, w2)
                     end).
    { unfold with_lock, bind at 1. rewrite TaskLock_enter_free by exact Hfree.
      fold w1. destruct (body w1) as [[a|e|] w2]; reflexivity. }
    split; [exact Hrun|]. split.
    + rewrite Hrun. destruct (body w1) as [[a|e|] w2]; cbn [fst snd];
        intros Hnd; try (by destruct Hnd);
        rewrite data_popped; by rewrite decide_True.
    + unfold with_lock at 1, bind at 1.
      rewrite TaskLock_enter_free by exact Hfree. fold w1.
      assert (Hheld : data (storage w1) !! _key l = Some (serialize (VStr "1"))).
      { unfold w1. rewrite data_stored. by rewrite decide_True. }
      unfold with_lock, bind at 1. rewrite (TaskLock_enter_held l _ w1 Hheld).
      unfold bind. rewrite TaskLock_exit_eq. unfold raise, w1.
      by rewrite popped_stored, popped_absent.
Qed.

Lemma strip_prefix_app (sep rest : list ascii) : strip_prefix sep (sep ++ rest) = Some rest.
Proof.
  induction sep as [|c sep IH]; simpl; [by destruct rest|].
  by rewrite Ascii.eqb_refl.
Qed.

Lemma after_first_prefix (sep l rest : list ascii) :
  strip_prefix sep l = Some rest -> after_first sep l = Some rest.
Proof. intros H. destruct l; simpl; by rewrite H. Qed.

Lemma after_first_skip (sep l : list ascii) (c : ascii) :
  strip_prefix sep (c :: l) = None -> after_first sep (c :: l) = after_first sep l.
Proof. intros H. cbn [after_first]. by rewrite H. Qed.

Lemma after_first_lock (l rest : list ascii) :
  forallb (fun c => negb (Ascii.eqb c "."%char)) l = true ->
  after_first (String.list_ascii_of_string ".lock.")
    (l ++ String.list_ascii_of_string ".lock." ++ rest) = Some rest.
Proof.
  intros Hl. induction l as [|c l IH].
  - rewrite app_nil_l. apply after_first_prefix. apply strip_prefix_app.
  - simpl in Hl. apply andb_true_iff in Hl as [Hc Hl].
    apply negb_true_iff in Hc.
    change ((c :: l) ++ String.list_ascii_of_string ".lock." ++ rest)
      with (c :: (l ++ String.list_ascii_of_string ".lock." ++ rest)).
    rewrite after_first_skip; [by apply IH|].
    cbn [strip_prefix String.list_ascii_of_string].
    rewrite Ascii.eqb_sym. by rewrite Hc.
Qed.

Lemma split1_last_lock_key (queue_name lock_name : string) :
  dot_free queue_name = true ->
  split1_last ".lock." (queue_name +:+ ".lock." +:+ lock_name) = lock_name.
Proof.
  intros Hq. unfold split1_last.
  rewrite !CronFacts.list_of_append, after_first_lock by exact Hq.
  apply CronFacts.string_of_list_of.
Qed.

Lemma flush_lock_keys_spec (keys : list string) :
  NoDup keys ->
  forall (acc : gset string) (w : World),
    exists flushed w',
      flush_lock_keys keys acc w = (Ok flushed, w')
      /\ (forall k, data (storage w') !! k
                    = if decide (k ∈ keys) then None else data (storage w) !! k)
      /\ queue (storage w') = queue (storage w)
      /\ schedule (storage w') = schedule (storage w)
      /\ trace w' = trace w
      /\ forall n, n ∈ flushed
                   <-> n ∈ acc
                       \/ exists k, k ∈ keys /\ is_Some (data (storage w) !! k)
                                    /\ n = split1_last ".lock." k.
Proof.
  induction 1 as [|key keys Hnotin Hnd IH]; intros acc w.
  - exists acc, w. split; [reflexivity|]. split; [done|]. repeat split; try done.
    + by left.
    + intros [Hn|(k & Hk & _)]; [done|]. by apply elem_of_nil in Hk.
  - cbn [flush_lock_keys]. unfold bind. rewrite get_raw_pop, popped_clear.
    set (acc' := match data (storage w) !! key with
                 | Some _ => acc ∪ {[ split1_last ".lock." key ]}
                 | None => acc
                 end).
    destruct (IH acc' (popped key w)) as (flushed & w' & Hrun & Hd & Hq & Hs & Htr & Hfl).
    exists flushed, w'. split.
    { unfold acc' in Hrun. by destruct (data (storage w) !! key). }
    split.
    { intros k. rewrite Hd, data_popped.
      destruct (decide (k ∈ keys)) as [Hin|Hnin].
      - rewrite decide_True; [done|]. by apply list_elem_of_further.
      - destruct (decide (key = k)) as [->|Hne].
        + rewrite decide_True; [done|]. apply list_elem_of_here.
        + rewrite decide_False; [done|].
          intros Hin. apply elem_of_cons in Hin as [->|Hin]; [by apply Hne|by apply Hnin]. }
    split; [by rewrite Hq|]. split; [by rewrite Hs|]. split; [by rewrite Htr|].
    intros n. rewrite Hfl. split.
    + intros [Hn|(k & Hk & Hsome & Hn)].
      * unfold acc' in Hn. destruct (data (storage w) !! key) as [d|] eqn:Hkey.
        -- apply elem_of_union in Hn as [Hn|Hn]; [by left|].
           apply elem_of_singleton in Hn. right. exists key.
           split; [apply list_elem_of_here|]. split; [by rewrite Hkey|exact Hn].
        -- by left.
      * right. exists k. split; [by apply list_elem_of_further|].
        split; [|exact Hn].
        rewrite data_popped, decide_False in Hsome; [exact Hsome|].
        intros ->. by apply Hnotin.
    + intros [Hn|(k & Hk & Hsome & Hn)].
      * left. unfold acc'. destruct (data (storage w) !! key); [|exact Hn].
        apply elem_of_union. by left.
      * apply elem_of_cons in Hk as [->|Hk].
        -- left. unfold acc'. destruct Hsome as [d Hsome]. rewrite Hsome.
           apply elem_of_union. right. by apply elem_of_singleton.
        -- right. exists k. split; [exact Hk|]. split; [|exact Hn].
           rewrite data_popped, decide_False; [exact Hsome|].
           intros ->. by apply Hnotin.
Qed.

(** X19: [flush_locks] frees every lock the dispatcher knows of and
    touches nothing else: afterwards none of the keys in [_locks] is in the
    store, every other key holds what it held, and the queue and the
    schedule are as before.  It answers, for each key that was held, what
    follows the first [".lock."] in the key; that is the name the lock was
    made with whenever the name of the queue has no dot in it.  A lock made
    by [lock_task] has its key in [_locks]. *)
Theorem flush_locks_frees_every_known_lock (_locks : gset string) (w : World) :
  (exists flushed w',
      flush_locks _locks w = (Ok flushed, w')
      /\ (forall k, data (storage w') !! k
                    = if decide (k ∈ _locks) then None else data (storage w) !! k)
      /\ queue (storage w') = queue (storage w)
      /\ schedule (storage w') = schedule (storage w)
      /\ forall n, n ∈ flushed
                   <-> exists k, k ∈ _locks /\ is_Some (data (storage w) !! k)
                                 /\ n = split1_last ".lock." k)
  /\ forall h lock_name,
       _key (fst (lock_task h lock_name _locks)) ∈ snd (lock_task h lock_name _locks)
       /\ (dot_free (huey_name h) = true ->
           split1_last ".lock." (_key (fst (lock_task h lock_name _locks)))
           = lock_name).
Proof.
  split.
  - destruct (flush_lock_keys_spec (elements _locks) (NoDup_elements _locks) ∅ w)
      as (flushed & w' & Hrun & Hd & Hq & Hs & _ & Hfl).
    exists flushed, w'. split; [exact Hrun|].
    split.
    { intros k. rewrite Hd.
      destruct (decide (k ∈ elements _locks)) as [Hin|Hnin].
      - rewrite decide_True; [done|]. by apply elem_of_elements.
      - rewrite decide_False; [done|]. intros Hin. by apply Hnin, elem_of_elements. }
    split; [exact Hq|]. split; [exact Hs|].
    intros n. rewrite Hfl. split.
    + intros [Hn|(k & Hk & H)]; [by apply elem_of_empty in Hn|].
      exists k. split; [by apply elem_of_elements|exact H].
    + intros (k & Hk & H). right. exists k. split; [by apply elem_of_elements|exact H].
  - intros h lock_name. split.
    + simpl. apply elem_of_union. right. by apply elem_of_singleton.
    + intros Hq. by apply split1_last_lock_key.
Qed.

(** ** The hook tables *)

Lemma odict_setitem_keys {A} (d : list (string * A)) (k : string) (v : A) :
  map fst (odict_setitem d k v)
  = if decide (k ∈ map fst d) then map fst d else map fst d ++ [k].
Proof.
  induction d as [|[k' v'] d IH]; [reflexivity|].
  cbn [odict_setitem map fst].
  destruct (String.eqb_spec k' k) as [->|Hne].
  - rewrite decide_True; [reflexivity|]. apply list_elem_of_here.
  - cbn [map fst]. rewrite IH.
    destruct (decide (k ∈ map fst d)) as [Hin|Hnin].
    + rewrite decide_True; [reflexivity|]. by apply list_elem_of_further.
    + rewrite decide_False; [reflexivity|].
      intros Hin. apply elem_of_cons in Hin as [->|Hin]; [by apply Hne|by apply Hnin].
Qed.

Lemma odict_setitem_fresh {A} (d : list (string * A)) (k : string) (v : A) :
  k ∉ map fst d -> odict_setitem d k v = d ++ [(k, v)].
Proof.
  induction d as [|[k' v'] d IH]; intros Hnotin; [reflexivity|].
  cbn [odict_setitem]. cbn [map fst] in Hnotin.
  apply not_elem_of_cons in Hnotin as [Hne Hnotin].
  destruct (String.eqb_spec k' k) as [->|_]; [by destruct Hne|].
  by rewrite IH.
Qed.

Lemma odict_setitem_elem {A} (d : list (string * A)) (k : string) (v : A) :
  (k, v) ∈ odict_setitem d k v.
Proof.
  induction d as [|[k' v'] d IH]; [apply list_elem_of_here|].
  cbn [odict_setitem]. destruct (String.eqb_spec k' k) as [->|_].
  - apply list_elem_of_here.
  - by apply list_elem_of_further.
Qed.

Lemma odict_pop_absent {A} (d : list (string * A)) (k : string) :
  k ∉ map fst d -> odict_pop d k = (None, d).
Proof.
  induction d as [|[k' v'] d IH]; intros Hnotin; [reflexivity|].
  cbn [odict_pop]. cbn [map fst] in Hnotin.
  apply not_elem_of_cons in Hnotin as [Hne Hnotin].
  destruct (String.eqb_spec k' k) as [->|_]; [by destruct Hne|].
  by rewrite IH.
Qed.

Lemma odict_pop_present {A} (d : list (string * A)) (k : string) :
  NoDup (map fst d) ->
  k ∈ map fst d ->
  exists v, fst (odict_pop d k) = Some v
            /\ (k ∉ map fst (snd (odict_pop d k)))
            /\ NoDup (map fst (snd (odict_pop d k)))
            /\ forall x, x ∈ snd (odict_pop d k) -> x ∈ d.
Proof.
  induction d as [|[k' v'] d IH]; intros Hnd Hin; [by apply elem_of_nil in Hin|].
  cbn [map fst] in Hnd, Hin. apply NoDup_cons in Hnd as [Hnotin Hnd].
  cbn [odict_pop]. destruct (String.eqb_spec k' k) as [->|Hne].
  - exists v'. cbn [fst snd]. split; [reflexivity|]. split; [exact Hnotin|].
    split; [exact Hnd|]. intros x Hx. by apply list_elem_of_further.
  - apply elem_of_cons in Hin as [->|Hin]; [by destruct Hne|].
    destruct (IH Hnd Hin) as (v & Hv & Hk & Hnd' & Hsub).
    destruct (odict_pop d k) as [r d'] eqn:Hpop. cbn [fst snd] in *.
    exists v. split; [exact Hv|]. split.
    + cbn [map fst]. intros Hin'. apply elem_of_cons in Hin' as [->|Hin'];
        [by apply Hne|by apply Hk].
    + split.
      * cbn [map fst]. apply NoDup_cons. split; [|exact Hnd'].
        intros Hin'. apply Hnotin. apply list_elem_of_fmap in Hin' as (x & -> & Hx).
        apply list_elem_of_fmap. exists x. split; [reflexivity|by apply Hsub].
      * intros x Hx. apply elem_of_cons in Hx as [->|Hx];
          [apply list_elem_of_here|apply list_elem_of_further; by apply Hsub].
Qed.

Lemma odict_pop_setitem_fresh {A} (d : list (string * A)) (k : string) (v : A) :
  k ∉ map fst d -> odict_pop (odict_setitem d k v) k = (Some v, d).
Proof.
  induction d as [|[k' v'] d IH]; intros Hnotin.
  - simpl. by rewrite String.eqb_refl.
  - cbn [map fst] in Hnotin. apply not_elem_of_cons in Hnotin as [Hne Hnotin].
    cbn [odict_setitem]. destruct (String.eqb_spec k' k) as [->|Hne'];
      [by destruct Hne|].
    cbn [odict_pop]. destruct (String.eqb_spec k' k) as [->|_]; [by destruct Hne|].
    by rewrite IH.
Qed.

Lemma PreHook_in_pre_hook_events (hooks : list (string * (Task -> option exception)))
    (t t' : Task) (n : string) :
  PreHook n t' ∈ pre_hook_events hooks t -> n ∈ map fst hooks.
Proof.
  induction hooks as [|[n0 cb] hooks IH]; [by intros H; apply elem_of_nil in H|].
  cbn [pre_hook_events map fst]. intros H.
  apply elem_of_cons in H as [H|H]; [discriminate H|].
  apply elem_of_cons in H as [H|H]; [injection H as -> _; apply list_elem_of_here|].
  apply list_elem_of_further.
  destruct (cb t) as [e|]; [|by apply IH].
  assert (Hrest : PreHook n t' ∈ Log EXCEPTION
                    "Unhandled exception calling pre-execute hook %s for %s." t
                    :: pre_hook_events hooks t -> n ∈ map fst hooks).
  { intros H'. apply elem_of_cons in H' as [H'|H']; [discriminate H'|by apply IH]. }
  destruct e; cbn [is_Exception] in H; try (by apply Hrest);
    try (by apply elem_of_nil in H).
  apply list_elem_of_singleton in H. discriminate H.
Qed.

Lemma set__pre_execute_same (h : Huey) : set__pre_execute h (_pre_execute h) = h.
Proof. by destruct h. Qed.

(** X20: the table of pre-execute hooks is keyed by name.  Registering a
    hook keeps the names distinct: under a new name the hook goes to the
    end of the table, under a name that is taken it replaces the hook of
    that name and the table does not grow.  [unregister_pre_execute] of the
    name then answers [True] and takes the hook out, so that running the
    hooks never calls a hook of that name, and a second
    [unregister_pre_execute] answers [False] and changes nothing; when the
    name was new, the dispatcher is back where it was before the hook was
    registered. *)
Theorem hook_table_is_keyed_by_name (h : Huey) (name : option string)
    (fn___name__ : string) (fn : Task -> option exception) :
  NoDup (map fst (_pre_execute h)) ->
  let key := name_or name fn___name__ in
  let h1 := pre_execute h name fn___name__ fn in
  NoDup (map fst (_pre_execute h1))
  /\ (key, fn) ∈ _pre_execute h1
  /\ (key ∉ map fst (_pre_execute h) ->
      _pre_execute h1 = _pre_execute h ++ [(key, fn)])
  /\ (key ∈ map fst (_pre_execute h) ->
      map fst (_pre_execute h1) = map fst (_pre_execute h))
  /\ exists h2,
       unregister_pre_execute h1 key = (true, h2)
       /\ (key ∉ map fst (_pre_execute h2))
       /\ unregister_pre_execute h2 key = (false, h2)
       /\ (key ∉ map fst (_pre_execute h) -> h2 = h)
       /\ forall t w, exists es,
            trace (snd (_run_pre_execute (_pre_execute h2) t w)) = trace w ++ es
            /\ forall t', PreHook key t' ∉ es.
Proof.
  intros Hnd key h1.
  assert (Hkeys : map fst (_pre_execute h1)
                  = if decide (key ∈ map fst (_pre_execute h))
                    then map fst (_pre_execute h)
                    else map fst (_pre_execute h) ++ [key])
    by apply odict_setitem_keys.
  assert (Hnd1 : NoDup (map fst (_pre_execute h1))).
  { rewrite Hkeys. destruct (decide (key ∈ map fst (_pre_execute h))); [exact Hnd|].
    apply NoDup_app. split; [exact Hnd|]. split; [|apply NoDup_singleton].
    intros x Hx Hx'. apply list_elem_of_singleton in Hx'. by subst. }
  assert (Hin1 : key ∈ map fst (_pre_execute h1)).
  { apply list_elem_of_fmap. exists (key, fn). split; [reflexivity|].
    apply odict_setitem_elem. }
  split; [exact Hnd1|]. split; [apply odict_setitem_elem|].
  split; [apply odict_setitem_fresh|].
  split; [intros Hin; rewrite Hkeys; by rewrite decide_True|].
  destruct (odict_pop_present (_pre_execute h1) key Hnd1 Hin1)
    as (v & Hv & Hk & Hnd2 & Hsub).
  exists (set__pre_execute h1 (snd (odict_pop (_pre_execute h1) key))).
  split.
  { unfold unregister_pre_execute.
    destruct (odict_pop (_pre_execute h1) key) as [r d]. cbn [fst snd] in *.
    by rewrite Hv. }
  split; [exact Hk|]. split.
  { unfold unregister_pre_execute. cbn [_pre_execute set__pre_execute].
    rewrite odict_pop_absent by exact Hk. by destruct h. }
  split.
  { intros Hfresh. cbn [h1 pre_execute _pre_execute set__pre_execute].
    fold key. rewrite odict_pop_setitem_fresh by exact Hfresh. by destruct h. }
  intros t w. eexists. rewrite _run_pre_execute_eq. cbn [snd].
  rewrite trace_logged. split; [reflexivity|].
  intros t' Hin. apply PreHook_in_pre_hook_events in Hin. by apply Hk.
Qed.

(** ** Pipelines *)

Lemma handle_ids_chain_results (t : Task) :
  handle_ids (chain_results t) = on_complete_ids t.
Proof.
  revert t. fix IH 1. intros [c i a k e r rd [next|] oe].
  - cbn [chain_results on_complete_ids handle_ids map]. f_equal. apply IH.
  - reflexivity.
Qed.

Lemma Task_then_ids (tw : TaskWrapper) (args : list pyval)
    (kwargs : list (string * pyval)) (uuid4 : string) (t : Task) :
  on_complete_ids (Task_then t tw args kwargs uuid4)
  = on_complete_ids t ++ [id (TaskWrapper_s tw args kwargs uuid4)]
  /\ last_on_complete (Task_then t tw args kwargs uuid4)
     = TaskWrapper_s tw args kwargs uuid4.
Proof.
  revert t. fix IH 1. intros [c i a k e r rd [next|] oe].
  - destruct (IH next) as [IH1 IH2].
    cbn [Task_then on_complete_ids last_on_complete]. split; [|exact IH2].
    cbn [app]. f_equal. exact IH1.
  - split; reflexivity.
Qed.

Lemma Task_error_ids (tw : TaskWrapper) (args : list pyval)
    (kwargs : list (string * pyval)) (uuid4 : string) (t : Task) :
  on_error_ids (Task_error t tw args kwargs uuid4)
  = on_error_ids t ++ [id (TaskWrapper_s tw args kwargs uuid4)]
  /\ last_on_error (Task_error t tw args kwargs uuid4)
     = TaskWrapper_s tw args kwargs uuid4.
Proof.
  revert t. fix IH 1. intros [c i a k e r rd oc [next|]].
  - destruct (IH next) as [IH1 IH2].
    cbn [Task_error on_error_ids last_on_error]. split; [|exact IH2].
    cbn [app]. f_equal. exact IH1.
  - split; reflexivity.
Qed.

(** X21: [then] adds the new task at the far end of the pipeline.  The
    ids along the [on_complete] links of [t.then(task, ...)] are those of
    [t] followed by the id of the task that [task.s(...)] builds, which is
    the last link; [t] keeps its class, id, arguments, ETA, retry settings
    and its [on_error].  So with results on, the group that [enqueue]
    returns for the pipeline lists the handles in the order in which the
    tasks run, the new one last.  [error] does the same along the
    [on_error] links and leaves [on_complete] alone. *)
Theorem then_appends_to_the_pipeline (t : Task) (tw : TaskWrapper)
    (xs : list pyval) (kws : list (string * pyval)) (uuid4 : string) :
  let next := TaskWrapper_s tw xs kws uuid4 in
  let t1 := Task_then t tw xs kws uuid4 in
  let t2 := Task_error t tw xs kws uuid4 in
  on_complete_ids t1 = on_complete_ids t ++ [id next]
  /\ last_on_complete t1 = next
  /\ (task_class t1, id t1, args t1, kwargs t1, eta t1, retries t1, retry_delay t1,
      on_error t1)
     = (task_class t, id t, args t, kwargs t, eta t, retries t, retry_delay t,
        on_error t)
  /\ (forall h, results h = true ->
                exists rs, result_handle h t1 = ResultGroup rs
                           /\ handle_ids rs = on_complete_ids t ++ [id next])
  /\ on_error_ids t2 = on_error_ids t ++ [id next]
  /\ last_on_error t2 = next
  /\ on_complete t2 = on_complete t
  /\ (id next, args next, kwargs next, on_complete next, on_error next)
     = (uuid4, xs, kws, None, None).
Proof.
  intros next t1 t2.
  destruct (Task_then_ids tw xs kws uuid4 t) as [Hids Hlast].
  destruct (Task_error_ids tw xs kws uuid4 t) as [Hids' Hlast'].
  split; [exact Hids|]. split; [exact Hlast|].
  split; [by destruct t as [c i a k e r rd [n|] oe]|].
  split.
  { intros h Hres. exists (chain_results t1). split.
    - unfold result_handle. rewrite Hres. cbn [negb].
      unfold t1. by destruct t as [c i a k e r rd [n|] oe].
    - rewrite handle_ids_chain_results. exact Hids. }
  split; [exact Hids'|]. split; [exact Hlast'|].
  split; [by destruct t as [c i a k e r rd oc [n|]]|].
  reflexivity.
Qed.

Lemma enqueue_each_consumer (fuel : nat) (h : Huey) (tasks : list Task) :
  immediate h = false ->
  forall w,
    exists w',
      enqueue_each fuel h tasks w = (Ok (map (result_handle h) tasks), w')
      /\ queue (storage w') = queue (storage w) ++ map serialize_task tasks
      /\ schedule (storage w') = schedule (storage w)
      /\ data (storage w') = data (storage w)
      /\ trace w' = trace w ++ map (fun t => Signal SIGNAL_ENQUEUED t None) tasks.
Proof.
  intros Hi. induction tasks as [|t tasks IH]; intros w.
  - exists w. by rewrite !app_nil_r.
  - cbn [enqueue_each]. unfold bind at 1. rewrite enqueue_consumer by exact Hi.
    destruct (IH (queued t (logged [Signal SIGNAL_ENQUEUED t None] w)))
      as (w' & Hrun & Hq & Hs & Hd & Htr).
    exists w'. split; [unfold bind; by rewrite Hrun|].
    split; [rewrite Hq; simpl; by rewrite <- app_assoc|].
    split; [by rewrite Hs|]. split; [by rewrite Hd|].
    rewrite Htr. simpl. by rewrite <- app_assoc.
Qed.

Lemma TaskWrapper__apply_lookup (tw : TaskWrapper) (uuids : nat -> string)
    (it : list pyval) :
  forall (n k : nat) (i : pyval),
    it !! k = Some i ->
    TaskWrapper__apply tw it uuids n !! k
    = Some (TaskWrapper_s tw (as_tuple i) [] (uuids (n + k)%nat)).
Proof.
  induction it as [|i0 it IH]; intros n k i Hk; [by destruct k|].
  destruct k as [|k]; cbn [TaskWrapper__apply].
  - injection Hk as ->. by rewrite Nat.add_0_r.
  - simpl. rewrite (IH (S n) k i Hk). do 3 f_equal. lia.
Qed.

Lemma TaskWrapper__apply_length (tw : TaskWrapper) (uuids : nat -> string)
    (it : list pyval) (n : nat) :
  length (TaskWrapper__apply tw it uuids n) = length it.
Proof. revert n. induction it as [|i it IH]; intros n; simpl; [done|by rewrite IH]. Qed.

(** X22: outside immediate mode [map] enqueues one task for each element
    of the iterable, in the order of the iterable, and runs none of them.
    The task for an element that is a tuple has the members of the tuple as
    its positional arguments, the task for any other element has that
    element as its only argument; no task has keyword arguments, and each
    has the class and the retry settings of the wrapper and an id of its
    own draw.  The call answers one handle for each task. *)
Theorem map_enqueues_one_task_per_element (fuel : nat) (h : Huey) (tw : TaskWrapper)
    (it : list pyval) (uuids : nat -> string) (w : World) :
  immediate h = false ->
  let tasks := TaskWrapper__apply tw it uuids 0 in
  length tasks = length it
  /\ (forall k i, it !! k = Some i ->
        tasks !! k = Some (TaskWrapper_s tw (as_tuple i) [] (uuids k))
        /\ as_tuple i = match i with VTuple l => l | _ => [i] end)
  /\ exists w',
       TaskWrapper_map fuel h tw it uuids w = (Ok (map (result_handle h) tasks), w')
       /\ queue (storage w') = queue (storage w) ++ map serialize_task tasks
       /\ schedule (storage w') = schedule (storage w)
       /\ data (storage w') = data (storage w)
       /\ forall i, calls_of i (trace w') = calls_of i (trace w).
Proof.
  intros Hi tasks.
  split; [apply TaskWrapper__apply_length|].
  split.
  { intros k i Hk. split; [|reflexivity].
    unfold tasks. by rewrite (TaskWrapper__apply_lookup tw uuids it 0 k i Hk). }
  destruct (enqueue_each_consumer fuel h tasks Hi w) as (w' & Hrun & Hq & Hs & Hd & Htr).
  exists w'. split; [exact Hrun|]. split; [exact Hq|]. split; [exact Hs|].
  split; [exact Hd|].
  intros i. rewrite Htr, calls_of_app.
  assert (H0 : calls_of i (map (fun t => Signal SIGNAL_ENQUEUED t None) tasks) = 0%nat).
  { clear. induction tasks as [|t ts IH]; [reflexivity|exact IH]. }
  rewrite H0. lia.
Qed.

(** ** Rescheduling *)

(** X23: outside immediate mode [reschedule] revokes the task of the
    handle for one run and enqueues a copy of it: a task of the same class
    with the same arguments and retry settings, a new id and the new ETA.
    The copy has no [on_complete] and no [on_error], whatever the task had.
    From then on [is_revoked] answers [True] for the old task; it answers
    [False] for the copy when the new id differs from the old one and
    neither the new id nor the class is revoked. *)
Theorem reschedule_enqueues_a_bare_copy
    (normalize_time : option Z -> option Z -> bool -> option Z) (utc : bool)
    (fuel : nat) (h : Huey) (r : Result) (new_eta delay : option Z) (uuid4 : string)
    (now : Z) (w : World) :
  immediate h = false ->
  let old := result_task r in
  let copy := mkTask (task_class old) uuid4 (args old) (kwargs old)
                (normalize_time new_eta delay utc) (retries old) (retry_delay old)
                None None in
  exists w',
    reschedule normalize_time utc fuel h r new_eta delay uuid4 w
    = (Ok (copy, result_handle h copy), w')
    /\ queue (storage w') = queue (storage w) ++ [serialize_task copy]
    /\ schedule (storage w') = schedule (storage w)
    /\ data (storage w')
       = <[revoke_id old := serialize (VTuple [VNone; VBool true])]> (data (storage w))
    /\ (forall i, calls_of i (trace w') = calls_of i (trace w))
    /\ is_revoked (OfTask old) (Some now) true w' = (Ok true, w')
    /\ (uuid4 <> id old ->
        data (storage w) !! revoke_id copy = None ->
        data (storage w) !! _task_key (task_class old) "rt" = None ->
        is_revoked (OfTask copy) (Some now) true w' = (Ok false, w')).
Proof.
  intros Hi old copy.
  eexists. split.
  { unfold reschedule, bind, Result_revoke, revoke. rewrite put_eq.
    unfold Task_init. fold old. fold copy.
    by rewrite enqueue_consumer by exact Hi. }
  split; [reflexivity|]. split; [reflexivity|]. split; [reflexivity|].
  split.
  { intros i. simpl. rewrite calls_of_app. unfold calls_of. simpl. lia. }
  set (w' := queued copy _).
  assert (Hd : forall k, data (storage w') !! k
                         = if decide (revoke_id old = k)
                           then Some (serialize (VTuple [VNone; VBool true]))
                           else data (storage w) !! k).
  { intros k. unfold w'. simpl. apply lookup_insert. }
  split.
  - rewrite (is_revoked_task_instance old (Some (None, true)));
      [reflexivity| |reflexivity].
    rewrite Hd. by rewrite decide_True.
  - intros Hne Hri Hrc.
    rewrite (is_revoked_task_spec copy None None); [reflexivity| |].
    + change ("r:" +:+ id copy) with (revoke_id copy).
      rewrite Hd, decide_False; [exact Hri|].
      unfold revoke_id. cbn [id copy]. intros Heq. apply Hne.
      simpl in Heq. by injection Heq.
    + rewrite Hd, decide_False; [exact Hrc|].
      apply instance_key_not_class_key.
Qed.

(** ** The cron matcher, further *)

Module CronMore.
Import Cron.
Import CronFacts.

Lemma elem_of_slice_step_sub (step : nat) (l : list Z) :
  forall (skip : nat) (x : Z), x ∈ slice_step skip step l -> x ∈ l.
Proof.
  induction l as [|y l IH]; intros skip x Hx; [exact Hx|].
  destruct skip as [|skip]; cbn [slice_step] in Hx.
  - apply elem_of_cons in Hx as [->|Hx]; [apply list_elem_of_here|].
    apply list_elem_of_further. by apply (IH _ _ Hx).
  - apply list_elem_of_further. by apply (IH _ _ Hx).
Qed.

Lemma day_of_week_domain (date_str : string) (lo hi n : Z) :
  (date_str = "w" -> lo = 0 /\ 7 <= hi) ->
  lo <= n < hi ->
  lo <= normalize date_str n < hi.
Proof.
  intros Hw Hn. unfold normalize.
  destruct (String.eqb_spec date_str "w") as [Heq|_]; [|exact Hn].
  destruct (Hw Heq) as [-> Hhi].
  pose proof (Z.mod_pos_bound n 7 ltac:(lia)). lia.
Qed.

Lemma add_piece_within (date_str : string) (lo hi : Z) (settings added : gset Z)
    (piece : string) :
  (date_str = "w" -> lo = 0 /\ 7 <= hi) ->
  add_piece date_str (range lo hi) settings piece = inr added ->
  (forall x, x ∈ settings -> lo <= x < hi) ->
  forall x, x ∈ added -> lo <= x < hi.
Proof.
  intros Hw Hadd Hsettings x Hx. unfold add_piece in Hadd.
  destruct (String.eqb piece "*").
  { injection Hadd as <-. apply elem_of_union in Hx as [Hx|Hx]; [by apply Hsettings|].
    apply elem_of_list_to_set in Hx. by apply elem_of_range. }
  destruct (isdigit piece).
  { destruct (contains (int piece) (range lo hi)) eqn:Hc; [|discriminate Hadd].
    cbn [negb] in Hadd. injection Hadd as <-.
    apply elem_of_union in Hx as [Hx|Hx]; [by apply Hsettings|].
    apply elem_of_singleton in Hx. subst x.
    apply contains_elem_of, elem_of_range in Hc.
    by apply (day_of_week_domain date_str). }
  destruct (dash_match piece) as [[lhs rhs]|].
  { destruct (contains lhs (range lo hi)) eqn:Hl; [|discriminate Hadd].
    destruct (contains rhs (range lo hi)) eqn:Hr; [|discriminate Hadd].
    cbn [negb orb] in Hadd. injection Hadd as <-.
    apply elem_of_union in Hx as [Hx|Hx]; [by apply Hsettings|].
    apply elem_of_list_to_set, elem_of_range in Hx.
    apply contains_elem_of, elem_of_range in Hl, Hr.
    pose proof (day_of_week_domain date_str lo hi lhs Hw Hl) as Hl'.
    pose proof (day_of_week_domain date_str lo hi rhs Hw Hr) as Hr'.
    unfold normalize in Hl', Hr'. lia. }
  destruct (every_match piece) as [interval|]; [|injection Hadd as <-; by apply Hsettings].
  destruct (String.eqb date_str "w"); [discriminate Hadd|].
  destruct (interval =? 0); [discriminate Hadd|].
  injection Hadd as <-.
  apply elem_of_union in Hx as [Hx|Hx]; [by apply Hsettings|].
  apply elem_of_list_to_set, elem_of_slice_step_sub in Hx. by apply elem_of_range.
Qed.

Lemma add_pieces_within (date_str : string) (lo hi : Z) (pieces : list string) :
  (date_str = "w" -> lo = 0 /\ 7 <= hi) ->
  forall settings added,
    add_pieces date_str (range lo hi) settings pieces = inr added ->
    (forall x, x ∈ settings -> lo <= x < hi) ->
    forall x, x ∈ added -> lo <= x < hi.
Proof.
  intros Hw. induction pieces as [|piece pieces IH]; intros settings added Hadd Hs.
  - injection Hadd as <-. exact Hs.
  - cbn [add_pieces] in Hadd.
    destruct (add_piece date_str (range lo hi) settings piece) as [e|s1] eqn:H1;
      [discriminate Hadd|].
    apply (IH s1 added Hadd). by apply (add_piece_within date_str lo hi settings s1 piece).
Qed.

(** X24: whatever string or integer a cron field is given, the values
    that a field built without error selects lie in the domain of the field,
    in strictly increasing order: [crontab] never selects a value that no
    timestamp can have.  For day-of-week the domain is [0..7]. *)
Theorem field_selects_within_its_domain (date_str : string) (value : field)
    (lo hi : Z) (selected : list Z) :
  (date_str = "w" -> lo = 0 /\ 7 <= hi) ->
  field_settings date_str value (range lo hi) = inr selected ->
  (forall x, x ∈ selected -> lo <= x < hi)
  /\ Sorted Z.le selected
  /\ NoDup selected.
Proof.
  intros Hw Hbuilt. unfold field_settings in Hbuilt.
  destruct (add_pieces date_str (range lo hi) ∅ _) as [e|added] eqn:Hadd;
    [discriminate Hbuilt|].
  injection Hbuilt as <-.
  split; [|split].
  - intros x Hx. apply elem_of_sorted_elements in Hx.
    apply (add_pieces_within date_str lo hi _ Hw ∅ added Hadd); [|exact Hx].
    intros y Hy. by apply elem_of_empty in Hy.
  - apply Sorted_merge_sort. intros a b. lia.
  - rewrite merge_sort_Permutation. apply NoDup_elements.
Qed.

Lemma validate_date_empty_field (lm ld lw lH lM : list Z) (ts : timetuple) :
  lm = [] \/ ld = [] \/ lw = [] \/ lH = [] \/ lM = [] ->
  validate_date [lm; ld; lw; lH; lM] ts = false.
Proof.
  intros Hempty. apply not_true_is_false. rewrite validate_date_spec.
  intros (Hm & Hd & Hw & HH & HM).
  destruct Hempty as [->|[->|[->|[->| ->]]]];
    match goal with H : _ ∈ [] |- _ => by apply elem_of_nil in H end.
Qed.

Lemma crontab_inr_fields (minute hour day month day_of_week : field)
    (validate : timetuple -> bool) :
  crontab minute hour day month day_of_week = inr validate ->
  exists lm ld lw lH lM,
    field_settings "m" month (range 1 13) = inr lm
    /\ field_settings "d" day (range 1 32) = inr ld
    /\ field_settings "w" day_of_week (range 0 8) = inr lw
    /\ field_settings "H" hour (range 0 24) = inr lH
    /\ field_settings "M" minute (range 0 60) = inr lM
    /\ validate = validate_date [lm; ld; lw; lH; lM].
Proof.
  unfold crontab, validation. cbn [cron_settings_of].
  destruct (field_settings "m" month (range 1 13)) as [e|lm]; [discriminate|].
  destruct (field_settings "d" day (range 1 32)) as [e|ld]; [discriminate|].
  destruct (field_settings "w" day_of_week (range 0 8)) as [e|lw]; [discriminate|].
  destruct (field_settings "H" hour (range 0 24)) as [e|lH]; [discriminate|].
  destruct (field_settings "M" minute (range 0 60)) as [e|lM]; [discriminate|].
  intros H. injection H as <-. by exists lm, ld, lw, lH, lM.
Qed.

(** X25: a range written the wrong way round is accepted and selects
    nothing.  For [m-n] with both ends in the domain and (after day-of-week
    has taken them modulo 7, so also for [6-7]) the second end below the
    first, the field is built without error and is empty; and a [crontab]
    one of whose fields is empty answers [False] for every timestamp. *)
Theorem reversed_range_never_matches (date_str : string) (acceptable : list Z)
    (sm sn : string) :
  isdigit sm = true -> isdigit sn = true ->
  contains (int sm) acceptable = true -> contains (int sn) acceptable = true ->
  normalize date_str (int sn) < normalize date_str (int sm) ->
  field_settings date_str (FStr (sm +:+ "-" +:+ sn)) acceptable = inr []
  /\ field_settings "w" (FStr "6-7") (range 0 8) = inr []
  /\ forall minute hour day month day_of_week validate,
       crontab minute hour day month day_of_week = inr validate ->
       field_settings "m" month (range 1 13) = inr []
       \/ field_settings "d" day (range 1 32) = inr []
       \/ field_settings "w" day_of_week (range 0 8) = inr []
       \/ field_settings "H" hour (range 0 24) = inr []
       \/ field_settings "M" minute (range 0 60) = inr [] ->
       forall ts, validate ts = false.
Proof.
  intros Hm Hn Hcm Hcn Hlt. split; [|split].
  - pose proof (field_range date_str acceptable sm sn Hm Hn) as H.
    rewrite Hcm, Hcn in H. cbn [andb] in H. destruct H as (l & -> & Hl).
    f_equal. destruct l as [|x l]; [reflexivity|].
    exfalso. assert (Hx : x ∈ x :: l) by apply list_elem_of_here.
    apply Hl in Hx. lia.
  - vm_compute. reflexivity.
  - intros minute hour day month day_of_week validate Hbuilt Hempty ts.
    destruct (crontab_inr_fields _ _ _ _ _ _ Hbuilt)
      as (lm & ld & lw & lH & lM & Hfm & Hfd & Hfw & HfH & HfM & ->).
    apply validate_date_empty_field.
    rewrite Hfm, Hfd, Hfw, HfH, HfM in Hempty.
    destruct Hempty as [H|[H|[H|[H|H]]]]; injection H as ->; tauto.
Qed.

Lemma dash_match_trailing (sm sn tail : string) :
  isdigit sm = true -> isdigit sn = true ->
  match String.list_ascii_of_string tail with
  | c :: _ => is_digit c = false
  | [] => True
  end ->
  dash_match (sm +:+ "-" +:+ sn +:+ tail) = Some (int sm, int sn).
Proof.
  intros Hm Hn Htail. destruct (isdigit_all sm Hm) as [Hm1 Hm2].
  destruct (isdigit_all sn Hn) as [Hn1 Hn2].
  unfold dash_match, int. rewrite !list_of_append.
  change (String.list_ascii_of_string "-") with ["-"%char]. cbn [app].
  rewrite span_digits_stop by (try exact Hm1; reflexivity).
  destruct (String.list_ascii_of_string sm) as [|c lm]; [done|].
  simpl.
  destruct (String.list_ascii_of_string tail) as [|c' rest].
  - rewrite app_nil_r, span_digits_all by exact Hn1.
    destruct (String.list_ascii_of_string sn) as [|d ln]; [done|reflexivity].
  - rewrite span_digits_stop by assumption.
    destruct (String.list_ascii_of_string sn) as [|d ln]; [done|reflexivity].
Qed.

Lemma every_match_trailing (sn tail : string) :
  isdigit sn = true ->
  match String.list_ascii_of_string tail with
  | c :: _ => is_digit c = false
  | [] => True
  end ->
  every_match ("*/" +:+ sn +:+ tail) = Some (int sn).
Proof.
  intros Hn Htail. destruct (isdigit_all sn Hn) as [Hn1 Hn2].
  unfold every_match, int.
  change (String.list_ascii_of_string ("*/" +:+ sn +:+ tail))
    with ("*"%char :: "/"%char :: String.list_ascii_of_string (sn +:+ tail)).
  cbv beta iota. rewrite list_of_append.
  destruct (String.list_ascii_of_string tail) as [|c' rest].
  - rewrite app_nil_r, span_digits_all by exact Hn1.
    destruct (String.list_ascii_of_string sn); [done|reflexivity].
  - rewrite span_digits_stop by assumption.
    destruct (String.list_ascii_of_string sn); [done|reflexivity].
Qed.

(** X28: the patterns for a range and for a step are matched at the
    start of a piece only, so text after them is ignored.  A piece [m-n]
    that is in the domain selects the same values when any text that does
    not begin with a digit follows it, and so does a step [*/n]: the field
    is built as if the text were not there. *)
Theorem text_after_a_range_or_step_is_ignored (date_str : string)
    (acceptable : list Z) (sm sn tail : string) :
  isdigit sm = true -> isdigit sn = true ->
  comma_free tail = true ->
  match String.list_ascii_of_string tail with
  | c :: _ => is_digit c = false
  | [] => True
  end ->
  (contains (int sm) acceptable && contains (int sn) acceptable = true ->
   field_settings date_str (FStr (sm +:+ "-" +:+ sn +:+ tail)) acceptable
   = field_settings date_str (FStr (sm +:+ "-" +:+ sn)) acceptable)
  /\ field_settings date_str (FStr ("*/" +:+ sn +:+ tail)) acceptable
     = field_settings date_str (FStr ("*/" +:+ sn)) acceptable.
Proof.
  intros Hm Hn Hcf Htail.
  destruct (isdigit_all sm Hm) as [Hm1 Hm2].
  assert (Hcf1 : comma_free (sm +:+ "-" +:+ sn +:+ tail) = true).
  { rewrite !comma_free_append, (comma_free_digits sm Hm), (comma_free_digits sn Hn), Hcf.
    reflexivity. }
  assert (Hcf2 : comma_free (sm +:+ "-" +:+ sn) = true).
  { rewrite !comma_free_append, (comma_free_digits sm Hm), (comma_free_digits sn Hn).
    reflexivity. }
  assert (Hcf3 : comma_free ("*/" +:+ sn +:+ tail) = true).
  { rewrite !comma_free_append, (comma_free_digits sn Hn), Hcf. reflexivity. }
  assert (Hcf4 : comma_free ("*/" +:+ sn) = true).
  { rewrite !comma_free_append, (comma_free_digits sn Hn). reflexivity. }
  split.
  - intros Hin.
    rewrite (field_settings_single _ _ _ Hcf1), (field_settings_single _ _ _ Hcf2).
    rewrite (add_piece_dash date_str acceptable ∅ sm sn Hm Hn). rewrite Hin.
    unfold add_piece. rewrite dash_match_trailing by assumption.
    assert (Hstar : String.eqb (sm +:+ "-" +:+ sn +:+ tail) "*" = false).
    { rewrite <- (string_of_list_of (sm +:+ "-" +:+ sn +:+ tail)), list_of_append.
      by apply head_digit_not_star. }
    assert (Hdig : isdigit (sm +:+ "-" +:+ sn +:+ tail) = false).
    { unfold isdigit. rewrite list_of_append.
      change (String.list_ascii_of_string ("-" +:+ sn +:+ tail))
        with ("-"%char :: String.list_ascii_of_string (sn +:+ tail)).
      set (L := String.list_ascii_of_string sm ++ _).
      assert (HL : forallb is_digit L = false) by by apply forallb_digit_stop.
      destruct L; [reflexivity|exact HL]. }
    rewrite Hstar, Hdig.
    apply andb_true_iff in Hin as [-> ->]. reflexivity.
  - rewrite (field_settings_single _ _ _ Hcf3), (field_settings_single _ _ _ Hcf4).
    rewrite (add_piece_every date_str acceptable ∅ sn Hn).
    unfold add_piece.
    assert (Hstar : String.eqb ("*/" +:+ sn +:+ tail) "*" = false) by reflexivity.
    assert (Hdig : isdigit ("*/" +:+ sn +:+ tail) = false) by reflexivity.
    assert (Hdash : dash_match ("*/" +:+ sn +:+ tail) = None) by reflexivity.
    rewrite Hstar, Hdig, Hdash, every_match_trailing by assumption.
    reflexivity.
Qed.

End CronMore.

(** ** [every_between] *)

Section EveryBetweenFacts.
Context {float : Type}.
Variable float_le : float -> float -> bool.
Variable float_add : float -> float -> float.
Variable total_seconds : Z -> float.
Variable to_timestamp : Z -> float.

Lemma skip_past_exit (nsec ts : float) (fuel : nat) :
  forall next next',
    skip_past float float_le float_add fuel next ts nsec = Some next' ->
    float_le next' ts = false.
Proof.
  induction fuel as [|fuel IH]; intros next next'; cbn [skip_past];
    destruct (float_le next ts) eqn:Hle; intros H; try discriminate H.
  - by injection H as <-.
  - by apply (IH _ _ H).
  - by injection H as <-.
Qed.

Lemma in_range_every_between (interval : Z) (start end_ : option Z) (tod : Z) :
  let s0 := match start with Some s => s | None => 0 end in
  let e0 := match end_ with Some e => e | None => 86399000000 end in
  in_range float (every_between float total_seconds interval start end_) tod
  = if e0 <? s0 then (s0 <=? tod) || (tod <? e0) else (s0 <=? tod) && (tod <? e0).
Proof.
  intros s0 e0. unfold every_between. fold s0 e0.
  destruct (e0 <? s0); unfold in_range; cbn [invert window_start window_end];
    [apply orb_comm|reflexivity].
Qed.
End EveryBetweenFacts.

(** X26: the validator of [every_between] answers [True] only inside its
    window.  With [start <= end] the window is the times of day from [start]
    up to but not including [end]; with [start > end] it wraps over
    midnight, from [start] to the end of the day and from midnight up to but
    not including [end].  The time of day is that of the timestamp cut down
    to whole seconds.  Outside the window the validator answers [False] and
    leaves its [_next] as it is; with the default window the last second of
    the day is outside. *)
Theorem every_between_keeps_to_its_window (float : Type)
    (float_le : float -> float -> bool) (float_add : float -> float -> float)
    (total_seconds to_timestamp : Z -> float)
    (interval : Z) (start end_ : option Z) (fuel : nat) (_next : option float)
    (timestamp : Z) :
  let c := every_between float total_seconds interval start end_ in
  let s0 := match start with Some s => s | None => 0 end in
  let e0 := match end_ with Some e => e | None => 86399000000 end in
  let ts_time := time_of_day (replace_microsecond_0 timestamp) in
  let inside := if e0 <? s0 then (s0 <=? ts_time) || (ts_time <? e0)
                else (s0 <=? ts_time) && (ts_time <? e0) in
  let answer := every_between_validate_date float float_le float_add to_timestamp
                  c fuel _next timestamp in
  (inside = false -> answer = Some (false, _next))
  /\ (forall next', answer = Some (true, next') -> inside = true)
  /\ (start = None -> end_ = None -> 86399000000 <= ts_time ->
      answer = Some (false, _next)).
Proof.
  intros c s0 e0 ts_time inside answer.
  assert (Hin : in_range float c ts_time = inside)
    by apply in_range_every_between.
  assert (Hout : inside = false -> answer = Some (false, _next)).
  { intros Hf. unfold answer, every_between_validate_date.
    fold ts_time. by rewrite Hin, Hf. }
  split; [exact Hout|]. split.
  - intros next' Ha. destruct inside eqn:Hi; [reflexivity|].
    rewrite (Hout eq_refl) in Ha. discriminate Ha.
  - intros -> -> Hlast. apply Hout. unfold inside, e0, s0.
    replace (86399000000 <? 0) with false by reflexivity.
    replace (ts_time <? 86399000000) with false by (symmetry; apply Z.ltb_ge; lia).
    apply andb_false_r.
Qed.

(** X27: the validator of [every_between] does not answer [True] twice
    for one timestamp.  When a call answers [True], the [_next] it leaves
    lies after the timestamp, and a call that follows with the same
    timestamp answers [False] and leaves [_next] alone. *)
Theorem every_between_fires_once_per_timestamp (float : Type)
    (float_le : float -> float -> bool) (float_add : float -> float -> float)
    (to_timestamp : Z -> float) (c : window float) (fuel : nat)
    (_next next' : option float) (timestamp : Z) :
  every_between_validate_date float float_le float_add to_timestamp c fuel _next
    timestamp = Some (true, next') ->
  (exists next, next' = Some next
                /\ float_le next (to_timestamp (replace_microsecond_0 timestamp)) = false)
  /\ forall fuel',
       every_between_validate_date float float_le float_add to_timestamp c fuel' next'
         timestamp = Some (false, next').
Proof.
  unfold every_between_validate_date.
  destruct (in_range float c (time_of_day (replace_microsecond_0 timestamp))) eqn:Hin;
    cbn [negb]; [|discriminate].
  match goal with
  | |- match ?init with _ => _ end = _ -> _ => destruct init as [next0|]
  end; [|discriminate].
  destruct (float_le next0 (to_timestamp (replace_microsecond_0 timestamp)));
    [|discriminate].
  destruct (skip_past float float_le float_add fuel next0 _ (nsec float c))
    as [next|] eqn:Hskip; [|discriminate].
  intros H. injection H as <-.
  pose proof (skip_past_exit float_le float_add _ _ _ _ _ Hskip) as Hexit.
  split; [by exists next|].
  intros fuel'. by rewrite Hexit.
Qed.

(** ** From the body to the caller *)





(** X30: a failure of the body surfaces to the caller as
    [TaskException].  Outside immediate mode, with results on, when the body
    of a task that is not periodic raises an exception [e] that [_execute]
    records, the Error record under the task id carries [repr(e)], the
    traceback and the retry counter as it stood before the retry step
    counted it down, and [get()] on a fresh handle raises [TaskException]
    with that record and takes it out of the store. *)
Theorem failure_surfaces_as_TaskException (fuel : nat) (h : Huey) (t : Task)
    (ts : Z) (w : World) (e : exception) (tb : string) :
  immediate h = false ->
  results h = true ->
  isinstance_PeriodicTask t = false ->
  pre_hook_stop (_pre_execute h) t = None ->
  cls_func (task_class t) (args t) (kwargs t) = Raises e tb ->
  is_Exception e = true ->
  post_hook_stop (_post_execute h) (except_task e t) VNone (Some e) = None ->
  let w1 := snd (_execute (enqueue fuel h) h t ts w) in
  let counter := match e with
                 | RetryTask _ => if retries t =? 0 then 1 else retries t
                 | _ => retries t
                 end in
  data (storage w1) !! id t = Some (serialize (VError (repr e) counter tb))
  /\ Result_get_default (Result_init t) false w1
     = (Raise (TaskException (repr e) counter tb), popped (id t) w1)
  /\ (counter <> 0 ->
      exists t', fst (_execute (enqueue fuel h) h t ts w) = Ok (t', VNone)
                 /\ retries t' = counter - 1).
Proof.
  intros Hi Hres Hper Hpre Hbody He Hpost w1 counter.
  destruct (_execute_failure_consumer fuel h t ts w e tb Hi Hpre Hbody He Hpost)
    as (w' & Hrun & _ & Hd & _).
  assert (Hw1 : w1 = w') by (unfold w1; by rewrite Hrun).
  assert (Hcounter : retries (except_task e t) = counter).
  { unfold counter, except_task. destruct e; try reflexivity.
    by destruct (retries t =? 0). }
  assert (Hidt : id (except_task e t) = id t
                 /\ isinstance_PeriodicTask (except_task e t)
                    = isinstance_PeriodicTask t).
  { unfold except_task. destruct e; try done. by destruct (retries t =? 0). }
  destruct Hidt as [Hidt Hpert].
  assert (Hlook : data (storage w1) !! id t
                  = Some (serialize (VError (repr e) counter tb))).
  { rewrite Hw1, Hd. unfold recorded. rewrite Hres, Hpert, Hper. cbn [andb negb].
    rewrite Hidt, Hcounter. rewrite data_stored. by rewrite decide_True. }
  split; [exact Hlook|]. split.
  - unfold Result_get_default. rewrite Result_get_nonblocking.
    rewrite (_get_first (Result_init t) _ false w1 eq_refl Hlook).
    reflexivity.
  - intros Hne. rewrite Hrun. cbn [fst].
    destruct (retries_chained (except_task e t) VNone (Some (e, tb)))
      as (Hr & _).
    assert (Hleft : retries_left (chained (except_task e t) VNone (Some (e, tb)))
                      (Some (e, tb)) = true).
    { unfold retries_left. rewrite Hr, Hcounter.
      apply negb_true_iff. by apply Z.eqb_neq. }
    rewrite Hleft. eexists. split; [reflexivity|].
    unfold requeued. cbn [retry_delay set_retries].
    destruct (retry_delay _ =? 0); cbn [retries set_retries set_eta];
      rewrite Hr, Hcounter; reflexivity.
Qed.

(** ** The theorems at the worked inputs *)

Lemma is_revoked_decision_table_witness :
  is_revoked (OfTask ex_locked) (Some 1000) false ex_revoked_world
  = (Ok (fst (spec_is_revoked ex_locked (Some (None, true)) None 1000 false
                ex_revoked_world)),
     snd (spec_is_revoked ex_locked (Some (None, true)) None 1000 false
            ex_revoked_world)).
Proof. apply is_revoked_decision_table; reflexivity. Defined.

Lemma TaskLocked_error_recorded_and_retried_witness :
  exists t' w',
    _execute (enqueue 0 ex_huey) ex_huey ex_locked 1000 ex_world = (Ok (t', VNone), w')
    /\ retries t' = 0
    /\ queue (storage w') = [serialize_task t'].
Proof.
  destruct (TaskLocked_error_recorded_and_retried ex_huey ex_locked 1000 ex_world
              "unable to set lock: x" "tb" eq_refl eq_refl)
    as (_ & _ & H).
  destruct (H eq_refl eq_refl 0%nat) as (t' & w' & Hrun & _ & _ & _ & Hretry).
  destruct Hretry as (Ht' & Hr & Hq & _); [discriminate|].
  exists t', w'. split; [exact Hrun|]. split; [exact Hr|exact Hq].
Defined.

Lemma RetryTask_forces_one_retry_witness :
  exists t' w',
    _execute (enqueue 0 ex_huey) ex_huey ex_retry 1000 ex_world = (Ok (t', VNone), w')
    /\ retries t' = 0
    /\ queue (storage w') = [serialize_task t'].
Proof.
  destruct (RetryTask_forces_one_retry ex_huey ex_retry 1000 ex_world
              "later" "tb" eq_refl eq_refl)
    as (_ & _ & _ & H).
  destruct (H eq_refl eq_refl 0%nat) as (t' & w' & Hrun & _ & _ & Hr & Hq & _).
  exists t', w'. split; [exact Hrun|]. split; [exact Hr|exact Hq].
Defined.

Lemma failing_task_runs_retries_plus_one_witness :
  (exists t' w',
      _execute (enqueue 0 ex_huey) ex_huey
        (attempt (ValueError "x") "tb" ex_boom_handled [1000]) 1000 ex_world
      = (Ok (t', VNone), w')
      /\ calls_of (id ex_boom_handled) (trace w')
         = S (calls_of (id ex_boom_handled) (trace ex_world))
      /\ data (storage w')
         = <[id ex_boom_handled := serialize (VError (repr (ValueError "x")) 0 "tb")]>
             (data (storage ex_world))
      /\ schedule (storage w') = schedule (storage ex_world))
  /\ (exists w',
        (do _ <- enqueue 0 ex_huey ex_boom; consumer_rounds 0 ex_huey [0; 0; 0]) ex_world
        = (Ok tt, w')
        /\ calls_of (id ex_boom) (trace w')
           = (calls_of (id ex_boom) (trace ex_world) + (2 + 1))%nat
        /\ data (storage w') !! id ex_boom
           = Some (serialize (VError (repr (ValueError "x")) 0 "tb"))
        /\ idle w')
  /\ (exists r w',
        enqueue 3 ex_huey_immediate ex_boom ex_world = (Ok r, w')
        /\ calls_of (id ex_boom) (trace w')
           = (calls_of (id ex_boom) (trace ex_world) + (2 + 1))%nat
        /\ data (storage w') !! id ex_boom
           = Some (serialize (VError (repr (ValueError "x")) 0 "tb"))
        /\ idle w')
  /\ (exists w' t',
        (do _ <- enqueue 0 ex_huey ex_retry; consumer_rounds 0 ex_huey [0; 0; 0; 0])
          ex_world
        = (Ok tt, w')
        /\ calls_of (id ex_retry) (trace w')
           = (calls_of (id ex_retry) (trace ex_world) + 4)%nat
        /\ pending t' w').
Proof.
  split; [|split; [|split]].
  - destruct (failing_task_runs_retries_plus_one ex_huey ex_boom_handled
                (ValueError "x") "tb" 1) as [H _].
    + reflexivity.
    + intros t'. reflexivity.
    + intros t' v exc. reflexivity.
    + reflexivity.
    + reflexivity.
    + reflexivity.
    + reflexivity.
    + destruct H as [H _]; [intros m; discriminate|].
      destruct (H eq_refl [1000] 0%nat 1000 ex_world) as
        (t' & w' & Hrun & _ & _ & Hcalls & Hdata & _ & Hsched); [simpl; lia|].
      exists t', w'. split; [exact Hrun|]. split; [exact Hcalls|].
      split; [exact Hdata|exact Hsched].
  - destruct (failing_task_runs_retries_plus_one ex_huey ex_boom (ValueError "x")
                "tb" 2) as [H _].
    + reflexivity.
    + intros t'. reflexivity.
    + intros t' v exc. reflexivity.
    + reflexivity.
    + reflexivity.
    + reflexivity.
    + reflexivity.
    + destruct H as [_ H]; [intros m; discriminate|].
      destruct (H ex_world) as [H' _].
      * reflexivity.
      * reflexivity.
      * split; reflexivity.
      * split; reflexivity.
      * discriminate.
      * apply (H' eq_refl 0%nat [0; 0; 0]).
        -- repeat constructor; simpl; lia.
        -- simpl. lia.
  - destruct (failing_task_runs_retries_plus_one ex_huey_immediate ex_boom
                (ValueError "x") "tb" 2) as [H _].
    + reflexivity.
    + intros t'. reflexivity.
    + intros t' v exc. reflexivity.
    + reflexivity.
    + reflexivity.
    + reflexivity.
    + reflexivity.
    + destruct H as [_ H]; [intros m; discriminate|].
      destruct (H ex_world) as [_ H'].
      * reflexivity.
      * reflexivity.
      * split; reflexivity.
      * split; reflexivity.
      * discriminate.
      * apply (H' eq_refl eq_refl 3%nat). lia.
  - destruct (failing_task_runs_retries_plus_one ex_huey ex_retry
                (RetryTask "later") "tb" 0) as [_ H].
    + reflexivity.
    + intros t'. reflexivity.
    + intros t' v exc. reflexivity.
    + reflexivity.
    + reflexivity.
    + reflexivity.
    + reflexivity.
    + destruct (H "later" ex_world eq_refl eq_refl eq_refl eq_refl) with
        (fuel := 0%nat) (ds := [0; 0; 0; 0])
        as (w' & t' & Hrun & Hcalls & _ & Hpend & _).
      * split; reflexivity.
      * split; reflexivity.
      * discriminate.
      * repeat constructor; simpl; lia.
      * discriminate.
      * exists w', t'. split; [exact Hrun|]. split; [exact Hcalls|exact Hpend].
Defined.

Lemma chain_continuations_witness :
  (exists w',
      _execute (enqueue 0 ex_huey) ex_huey ex_add_then 1000 ex_world
      = (Ok (set_on_complete ex_add_then (Some (extend_data ex_next (VInt 5))), VInt 5), w')
      /\ queue (storage w')
         = queue (storage ex_world) ++ [serialize_task (extend_data ex_next (VInt 5))])
  /\ (exists w',
        _execute (enqueue 0 ex_huey) ex_huey ex_boom_then 1000 ex_world
        = (Ok (ex_boom_then, VNone), w')
        /\ queue (storage w') = queue (storage ex_world)).
Proof.
  split.
  - destruct (chain_continuations ex_huey ex_add_then 1000 ex_world eq_refl)
      as (_ & Hsuccess & _).
    destruct (Hsuccess (VInt 5) ex_next eq_refl eq_refl eq_refl) as [_ Hconsumer].
    destruct (Hconsumer eq_refl 0%nat) as (w' & Hrun & Hq & _).
    exists w'. split; [exact Hrun|exact Hq].
  - destruct (chain_continuations ex_huey ex_boom_then 1000 ex_world eq_refl)
      as (_ & _ & _ & _ & Hfailure).
    destruct (Hfailure (ValueError "x") "tb" eq_refl eq_refl eq_refl eq_refl)
      as (_ & _ & _ & Hconsumer).
    destruct (Hconsumer eq_refl 0%nat) as (w' & Hrun & Hq).
    exists w'. split; [exact Hrun|exact Hq].
Defined.

Lemma result_returned_once_witness :
  (exists t',
      fst (_execute (enqueue 1 ex_huey_immediate) ex_huey_immediate ex_add 1000 ex_world)
      = Ok (t', VInt 5))
  /\ data (storage (snd (_execute (enqueue 1 ex_huey_immediate) ex_huey_immediate
                          ex_add 1000 ex_world))) !! id ex_add
     = Some (serialize (VInt 5)).
Proof.
  destruct (result_returned_once ex_huey_immediate ex_add 1000 ex_world (VInt 5))
    with (fuel := 1%nat) as (Hok & Hstored & _).
  - reflexivity.
  - reflexivity.
  - discriminate.
  - intros error retries traceback. discriminate.
  - reflexivity.
  - reflexivity.
  - reflexivity.
  - right. intros next Hnext. discriminate Hnext.
  - split; [apply Hok; by right|exact Hstored].
Defined.

Lemma periodic_task_never_stored_witness :
  data (storage (snd (_execute (enqueue 0 ex_huey) ex_huey ex_periodic 1000 ex_world)))
  = data (storage ex_world)
  /\ data (storage (snd (_execute (enqueue 2 ex_huey_immediate) ex_huey_immediate
                          ex_periodic 1000 ex_world))) !! id ex_periodic
     = data (storage ex_world) !! id ex_periodic.
Proof.
  split.
  - destruct (periodic_task_never_stored ex_huey ex_periodic 1000 ex_world eq_refl)
      as (_ & _ & _ & H).
    exact (H eq_refl 0%nat).
  - destruct (periodic_task_never_stored ex_huey_immediate ex_periodic 1000 ex_world
                eq_refl) as (_ & _ & H & _).
    apply H. simpl. intros [H1|[H1|[[H1 _]|[[]|[]]]]]; discriminate H1.
Defined.

Lemma result_handle_caches_witness :
  _get (mkResult ex_add (Some (VInt 5))) true ex_world
  = (Ok (mkResult ex_add (Some (VInt 5)), Some (VInt 5)), ex_world).
Proof.
  destruct (result_handle_caches (Result_init ex_add) false ex_stored_world
              (mkResult ex_add (Some (VInt 5))) (VInt 5)
              (spec_clear true "t-add" ex_stored_world) eq_refl)
    as (_ & _ & H & _).
  exact (H true ex_world).
Defined.

Lemma crontab_acceptance_witness :
  (exists l,
      Cron.field_settings "M" (Cron.FStr "*/15") (Cron.range 0 60) = inr l
      /\ forall x, x ∈ l <-> 0 <= x < 60 /\ (x - 0) mod 15 = 0)
  /\ Cron.field_settings "M" (Cron.FStr "*/0") (Cron.range 0 60)
     = inl (ValueError "slice step cannot be zero")
  /\ Cron.field_settings "H" (Cron.FInt (-5)) (Cron.range 0 24) = inr [].
Proof.
  destruct CronFacts.crontab_acceptance as (_ & _ & _ & Hint & _ & Hstep & _).
  split; [|split].
  - exact (Hstep "M" 0 60 "15" eq_refl ltac:(lia)).
  - exact (Hstep "M" 0 60 "0" eq_refl ltac:(lia)).
  - destruct (Hint "H" (Cron.range 0 24) (-5)) as (_ & _ & Hneg).
    apply Hneg. lia.
Defined.

(** ** The further properties at the worked inputs *)

Lemma revoke_restore_round_trip_witness :
  restore ex_add ex_world = (Ok false, ex_world).
Proof.
  destruct (revoke_restore_round_trip ex_add None false ex_world) as (_ & _ & H & _).
  apply H. reflexivity.
Defined.

Lemma revoked_class_is_not_seen_by_id_witness :
  is_revoked (OfTask ex_add) (Some 1000) true
    (snd (revoke_all ex_add_class None false ex_world))
  = (Ok true, snd (revoke_all ex_add_class None false ex_world))
  /\ is_revoked (OfId "t-add") (Some 1000) true
       (snd (revoke_all ex_add_class None false ex_world))
     = (Ok false, snd (revoke_all ex_add_class None false ex_world)).
Proof.
  destruct (revoked_class_is_not_seen_by_id ex_add 1000 true ex_world)
    as (H1 & _ & H3).
  - intros H. discriminate H.
  - intros H. discriminate H.
  - reflexivity.
  - reflexivity.
  - split; [exact H1|exact H3].
Defined.

Lemma revoke_once_skips_one_execute_witness :
  execute (enqueue 0 ex_huey) ex_huey ex_add None
    (snd (revoke ex_add None true ex_world))
  = (Ok (ex_add, VNone),
     logged [Log WARNING "Task %s was revoked, not executing" ex_add;
             Signal SIGNAL_REVOKED ex_add None] (popped (revoke_id ex_add) ex_world)).
Proof.
  destruct (revoke_once_skips_one_execute (enqueue 0 ex_huey) ex_huey ex_add ex_world)
    as (H & _).
  - reflexivity.
  - exact H.
Defined.

Lemma task_not_due_goes_to_schedule_witness :
  fst (execute (enqueue 0 ex_huey) ex_huey ex_later (Some 1000) ex_world)
  = Ok (ex_later, VNone).
Proof.
  destruct (task_not_due_goes_to_schedule (enqueue 0 ex_huey) ex_huey ex_later
              2000 1000 ex_world) as (H & _).
  - reflexivity.
  - lia.
  - by rewrite H.
Defined.

Lemma CancelExecution_cancels_the_task_witness :
  fst (_execute (enqueue 0 ex_huey_veto) ex_huey_veto ex_add 1000 ex_world)
  = Ok (ex_add, VNone).
Proof.
  destruct (CancelExecution_cancels_the_task (enqueue 0 ex_huey_veto) ex_huey_veto
              ex_add 1000 ex_world
              [("log", fun _ => Some (ValueError "x"))]
              [("late", fun _ => None)]
              "veto" (fun _ => Some CancelExecution)) as (H & _).
  - reflexivity.
  - repeat constructor.
  - reflexivity.
  - by rewrite H.
Defined.

Lemma interrupt_records_nothing_witness :
  storage (snd (_execute (enqueue 0 ex_huey) ex_huey ex_interrupt 1000 ex_world))
  = storage ex_world.
Proof.
  destruct (interrupt_records_nothing (enqueue 0 ex_huey) ex_huey ex_interrupt 1000
              ex_world KeyboardInterrupt "tb") as (_ & H & _).
  - reflexivity.
  - reflexivity.
  - reflexivity.
  - exact H.
Defined.

Lemma failing_hooks_are_ignored_witness :
  fst (_execute (enqueue 0 ex_huey_noisy) ex_huey_noisy ex_add 1000 ex_world)
  = fst (_execute (enqueue 0 ex_huey) ex_huey ex_add 1000 ex_world).
Proof.
  destruct (failing_hooks_are_ignored 0 ex_huey_noisy ex_add 1000 ex_world)
    as (H & _).
  - reflexivity.
  - repeat constructor.
  - repeat constructor.
  - exact H.
Defined.

Lemma results_disabled_stores_nothing_witness :
  data (storage (snd (_execute (enqueue 0 ex_huey_quiet) ex_huey_quiet ex_add 1000
                        ex_world)))
  = data (storage ex_world).
Proof.
  destruct (results_disabled_stores_nothing 0 ex_huey_quiet ex_add 1000 ex_world)
    as (_ & H).
  - reflexivity.
  - destruct H as (_ & H); [reflexivity|exact H].
Defined.

Lemma None_is_stored_only_with_store_none_witness :
  data (storage (snd (_execute (enqueue 0 ex_huey) ex_huey ex_none 1000 ex_world)))
  = data (storage ex_world).
Proof.
  pose proof (None_is_stored_only_with_store_none 0 ex_huey ex_none 1000 ex_world
                eq_refl eq_refl eq_refl eq_refl eq_refl) as H.
  exact (proj1 H).
Defined.


Lemma queue_is_first_in_first_out_witness :
  exists w1,
    enqueue 0 ex_huey ex_add ex_world = (Ok (ex_add, result_handle ex_huey ex_add), w1)
    /\ Huey_pending w1 = (Ok [ex_add], w1).
Proof.
  destruct (queue_is_first_in_first_out 0 ex_huey ex_add ex_world eq_refl)
    as (_ & _ & (w1 & H1 & H2 & _) & _).
  exists w1. split; [exact H1|exact H2].
Defined.

Lemma result_by_id_is_get_on_a_handle_witness :
  Huey_result 0 "t-add" false None (115 # 100)%Q 1%Q false false ex_stored_world
  = on_result snd
      (Result_get 0 (Result_init ex_add) false None (115 # 100)%Q 1%Q false false
         ex_stored_world).
Proof.
  apply (result_by_id_is_get_on_a_handle 0 ex_add).
  intros H. discriminate H.
Defined.

Lemma missing_result_is_not_cached_witness :
  Result_get 0 (Result_init ex_add) false None (115 # 100)%Q 1%Q false false ex_world
  = (Ok (Result_init ex_add, VNone), ex_world).
Proof.
  destruct (missing_result_is_not_cached 0 (Result_init ex_add) None (115 # 100)%Q
              1%Q false false ex_world) as (H & _).
  - reflexivity.
  - reflexivity.
  - exact H.
Defined.

Lemma ResultGroup_get_reads_in_order_witness :
  exists rs' w',
    ResultGroup_get 0 [Result_init ex_add; Result_init ex_next] false None
      (115 # 100)%Q 1%Q false false ex_stored_world
    = (Ok (rs', [VInt 5; VNone]), w').
Proof.
  destruct (ResultGroup_get_reads_in_order 0 None (115 # 100)%Q 1%Q false
              [Result_init ex_add; Result_init ex_next] ex_stored_world)
    as ((rs' & w' & H & _) & _).
  - repeat constructor; intros error retries traceback H; vm_compute in H;
      discriminate H.
  - apply (bool_decide_unpack _). vm_compute. reflexivity.
  - exists rs', w'. exact H.
Defined.

Lemma zero_timeout_is_no_timeout_witness :
  Result_get 3 (Result_init ex_add) true (Some 0%Q) (115 # 100)%Q 1%Q true false
    ex_world
  = Result_get 3 (Result_init ex_add) true None (115 # 100)%Q 1%Q true false ex_world.
Proof.
  destruct (zero_timeout_is_no_timeout 3 (Result_init ex_add) true 0%Q (115 # 100)%Q
              1%Q true false ex_world) as (_ & H).
  - reflexivity.
  - exact H.
Defined.

Lemma blocking_get_of_a_stored_value_witness :
  Result_get 1 (Result_init ex_add) true (Some (1 # 2)%Q) (115 # 100)%Q 1%Q false
    false ex_stored_world
  = Result_get 0 (Result_init ex_add) false (Some (1 # 2)%Q) (115 # 100)%Q 1%Q false
      false ex_stored_world.
Proof.
  destruct (blocking_get_of_a_stored_value 0 (Result_init ex_add) (Some (1 # 2)%Q)
              (115 # 100)%Q 1%Q false false ex_stored_world (serialize (VInt 5)))
    as (H & _).
  - reflexivity.
  - reflexivity.
  - reflexivity.
  - exact H.
Defined.

Lemma task_lock_is_exclusive_and_released_witness :
  with_lock ex_lock (with_lock ex_lock (ret tt)) ex_world
  = (Raise (TaskLockedException "unable to set lock: x"), ex_world).
Proof.
  destruct (task_lock_is_exclusive_and_released ex_lock (ret tt) ex_world) as (_ & H).
  destruct H as (_ & _ & H); [reflexivity|exact H].
Defined.

Lemma flush_locks_frees_every_known_lock_witness :
  split1_last ".lock." (_key (fst (lock_task ex_huey "x" ∅))) = "x".
Proof.
  destruct (flush_locks_frees_every_known_lock ∅ ex_world) as (_ & H).
  destruct (H ex_huey "x") as (_ & H'). apply H'. reflexivity.
Defined.

Lemma hook_table_is_keyed_by_name_witness :
  _pre_execute (pre_execute ex_huey (Some "veto") "fn" (fun _ => Some CancelExecution))
  = [("veto", fun _ => Some CancelExecution)].
Proof.
  destruct (hook_table_is_keyed_by_name ex_huey (Some "veto") "fn"
              (fun _ => Some CancelExecution)) as (_ & _ & H & _).
  - constructor.
  - apply H. intros Hin. by apply elem_of_nil in Hin.
Defined.

Lemma then_appends_to_the_pipeline_witness :
  exists rs,
    result_handle ex_huey (Task_then ex_add_then ex_add_wrapper [VInt 7] [] "id-new")
    = ResultGroup rs
    /\ handle_ids rs = ["t-first"; "t-next"; "id-new"].
Proof.
  destruct (then_appends_to_the_pipeline ex_add_then ex_add_wrapper [VInt 7] []
              "id-new") as (_ & _ & _ & H & _).
  exact (H ex_huey eq_refl).
Defined.

Lemma map_enqueues_one_task_per_element_witness :
  exists w',
    queue (storage w')
    = map serialize_task
        [TaskWrapper_s ex_add_wrapper [VInt 1; VInt 2] [] "id-0";
         TaskWrapper_s ex_add_wrapper [VInt 3] [] "id-1"]
    /\ fst (TaskWrapper_map 0 ex_huey ex_add_wrapper [VTuple [VInt 1; VInt 2]; VInt 3]
              ex_uuids ex_world)
       = Ok (map (result_handle ex_huey)
               (TaskWrapper__apply ex_add_wrapper [VTuple [VInt 1; VInt 2]; VInt 3]
                  ex_uuids 0)).
Proof.
  destruct (map_enqueues_one_task_per_element 0 ex_huey ex_add_wrapper
              [VTuple [VInt 1; VInt 2]; VInt 3] ex_uuids ex_world eq_refl)
    as (_ & _ & w' & Hrun & Hq & _).
  exists w'. split; [exact Hq|by rewrite Hrun].
Defined.

Lemma reschedule_enqueues_a_bare_copy_witness :
  exists w',
    fst (reschedule (fun eta _ _ => eta) true 0 ex_huey (Result_init ex_add_then)
           (Some 2000) None "id-new" ex_world)
    = Ok (mkTask ex_add_class "id-new" [VInt 2; VInt 3] [] (Some 2000) 0 0 None None,
          OneResult (Result_init
                       (mkTask ex_add_class "id-new" [VInt 2; VInt 3] [] (Some 2000)
                          0 0 None None)))
    /\ is_revoked (OfTask ex_add_then) (Some 1000) true w' = (Ok true, w').
Proof.
  destruct (reschedule_enqueues_a_bare_copy (fun eta _ _ => eta) true 0 ex_huey
              (Result_init ex_add_then) (Some 2000) None "id-new" 1000 ex_world
              eq_refl) as (w' & Hrun & _ & _ & _ & _ & Hrev & _).
  exists w'. split; [by rewrite Hrun|exact Hrev].
Defined.

Lemma field_selects_within_its_domain_witness :
  0 <= 45 < 60 /\ NoDup [0; 15; 30; 45].
Proof.
  destruct (CronMore.field_selects_within_its_domain "M" (Cron.FStr "*/15") 0 60
              [0; 15; 30; 45]) as (H & _ & Hnd).
  - intros H. discriminate H.
  - vm_compute. reflexivity.
  - split; [|exact Hnd]. apply H. do 3 apply list_elem_of_further.
    apply list_elem_of_here.
Defined.

Lemma reversed_range_never_matches_witness :
  Cron.field_settings "H" (Cron.FStr "5-3") (Cron.range 0 24) = inr [].
Proof.
  destruct (CronMore.reversed_range_never_matches "H" (Cron.range 0 24) "5" "3")
    as (H & _).
  - reflexivity.
  - reflexivity.
  - reflexivity.
  - reflexivity.
  - vm_compute. reflexivity.
  - exact H.
Defined.

Lemma every_between_keeps_to_its_window_witness :
  every_between_validate_date Z Z.leb Z.add ex_seconds ex_every_minute 5 None
    86399500000
  = Some (false, None).
Proof.
  destruct (every_between_keeps_to_its_window Z Z.leb Z.add ex_seconds ex_seconds
              60000000 None None 5 None 86399500000) as (_ & _ & H).
  apply H; [reflexivity|reflexivity|].
  vm_compute. intros Hc. discriminate Hc.
Defined.

Lemma every_between_fires_once_per_timestamp_witness :
  every_between_validate_date Z Z.leb Z.add ex_seconds ex_every_minute 5 None 0
  = Some (true, Some 60)
  /\ every_between_validate_date Z Z.leb Z.add ex_seconds ex_every_minute 0 (Some 60) 0
     = Some (false, Some 60).
Proof.
  assert (H : every_between_validate_date Z Z.leb Z.add ex_seconds ex_every_minute 5
                None 0 = Some (true, Some 60)) by (vm_compute; reflexivity).
  split; [exact H|].
  destruct (every_between_fires_once_per_timestamp Z Z.leb Z.add ex_seconds
              ex_every_minute 5 None (Some 60) 0 H) as (_ & H').
  exact (H' 0%nat).
Defined.

Lemma text_after_a_range_or_step_is_ignored_witness :
  Cron.field_settings "H" (Cron.FStr "1-5x") (Cron.range 0 24)
  = Cron.field_settings "H" (Cron.FStr "1-5") (Cron.range 0 24).
Proof.
  destruct (CronMore.text_after_a_range_or_step_is_ignored "H" (Cron.range 0 24)
              "1" "5" "x") as (H & _).
  - reflexivity.
  - reflexivity.
  - reflexivity.
  - reflexivity.
  - apply H. reflexivity.
Defined.


Lemma failure_surfaces_as_TaskException_witness :
  Result_get_default (Result_init ex_boom) false
    (snd (_execute (enqueue 0 ex_huey) ex_huey ex_boom 1000 ex_world))
  = (Raise (TaskException "ValueError('x')" 2 "tb"),
     popped (id ex_boom)
       (snd (_execute (enqueue 0 ex_huey) ex_huey ex_boom 1000 ex_world))).
Proof.
  destruct (failure_surfaces_as_TaskException 0 ex_huey ex_boom 1000 ex_world
              (ValueError "x") "tb") as (_ & H & _).
  - reflexivity.
  - reflexivity.
  - reflexivity.
  - reflexivity.
  - reflexivity.
  - reflexivity.
  - reflexivity.
  - exact H.
Defined.
